(** * discordo: navigation tree, members list and member search

    A shallow embedding of the synchronisation code of the terminal client:
    the guilds tree ([guildsTree], the gateway handlers of the state file),
    the members side list ([membersList]) and the member-search throttle of
    the message input ([searchMember]).

    Go values are embedded as follows.
    - Snowflakes (guild, channel, message, user and role ids) are unsigned
      64-bit integers: [N].  Go [int] values (positions, comparison results)
      are [Z]; the code only compares them.
    - Go strings are byte strings: [string].
    - [*tview.TreeNode] is a mutable object reached through pointers.  A node
      carries its address ([addr]); pointer equality is equality of
      addresses and a method call through a pointer rewrites the node with
      that address inside the tree.
    - The local cache and the read state ([discordState]) are read-only for
      this code: they are a record of lookup functions. *)

From Stdlib Require Import ZArith NArith List String Ascii Sorted Permutation Lia DecimalString.
From stdpp Require Import base option list gmap strings.

(** ** Go runtime and library primitives *)

Module Go.

(** [cmp.Compare] on ordered values, here on [Z] and [N]. *)
Definition of_comparison (c : comparison) : Z :=
  match c with Lt => (-1)%Z | Eq => 0%Z | Gt => 1%Z end.

Definition CompareZ (a b : Z) : Z := of_comparison (a ?= b)%Z.
Definition CompareN (a b : N) : Z := of_comparison (a ?= b)%N.

(** [strings.Compare]: lexicographic comparison of the bytes. *)
Definition CompareString (a b : string) : Z := of_comparison (String.compare a b).

(** [strings.ToLower].  On a string of ASCII bytes the library lower-cases
    the letters A to Z and keeps every other byte; on any other string it maps
    every rune through the Unicode case tables, which are not part of this
    development.  The function is therefore a parameter of the embedding,
    [Strings], given with what the library guarantees on ASCII strings. *)
Definition lowerByte (c : ascii) : ascii :=
  let n := nat_of_ascii c in
  if (65 <=? n)%nat && (n <=? 90)%nat then ascii_of_nat (n + 32) else c.

Fixpoint lowerASCII (s : string) : string :=
  match s with
  | EmptyString => EmptyString
  | String c s' => String (lowerByte c) (lowerASCII s')
  end.

(** No byte of the string is [utf8.RuneSelf] (0x80) or above. *)
Fixpoint isASCII (s : string) : bool :=
  match s with
  | EmptyString => true
  | String c s' => (nat_of_ascii c <? 128)%nat && isASCII s'
  end.

Record Strings : Type := {
  ToLower : string → string;
  ToLower_ASCII : ∀ s, isASCII s = true → ToLower s = lowerASCII s
}.

(** An executable instance, for evaluating examples: it lower-cases A to Z
    and keeps every other byte, also in strings that are not ASCII. *)
Definition asciiStrings : Strings := {|
  ToLower := lowerASCII;
  ToLower_ASCII := λ s _, eq_refl
|}.

(** [strings.Contains]. *)
Fixpoint Contains (s substr : string) : bool :=
  String.prefix substr s ||
  match s with
  | EmptyString => false
  | String _ s' => Contains s' substr
  end.

(** [key[:len(key)-1]]: the string without its last byte.  Go panics on the
    empty string; the keys sliced by the code always hold a separator. *)
Fixpoint dropLast (s : string) : string :=
  match s with
  | EmptyString => EmptyString
  | String c EmptyString => EmptyString
  | String c s' => String c (dropLast s')
  end.

(** What [slices.SortFunc] asks of its comparison function: a strict weak
    ordering, given by the sign of the result. *)
Record StrictWeakOrdering {A : Type} (cmp : A → A → Z) : Prop := {
  swo_flip : ∀ a b, (cmp a b < 0)%Z ↔ (0 < cmp b a)%Z;
  swo_trans : ∀ a b c, (cmp a b ≤ 0)%Z → (cmp b c ≤ 0)%Z → (cmp a c ≤ 0)%Z
}.

(** [slices.SortFunc] and its contract.  The library sorts in place with an
    unstable algorithm, so the order of elements that compare equal is not
    fixed: the development is written against any implementation that
    returns a permutation in ascending order. *)
Record Slices : Type := {
  SortFunc : ∀ A : Type, (A → A → Z) → list A → list A;
  SortFunc_perm : ∀ A (cmp : A → A → Z) (l : list A), Permutation l (SortFunc A cmp l);
  SortFunc_sorted : ∀ A (cmp : A → A → Z) (l : list A),
    StrictWeakOrdering cmp → StronglySorted (λ a b, (cmp a b ≤ 0)%Z) (SortFunc A cmp l)
}.

(** An executable instance: insertion sort. *)
Section Insertion.
Context {A : Type} (cmp : A → A → Z).

Fixpoint insert_sorted (x : A) (l : list A) : list A :=
  match l with
  | [] => [x]
  | y :: l' => if (cmp x y <=? 0)%Z then x :: l else y :: insert_sorted x l'
  end.

Definition insertion_sort (l : list A) : list A := foldr insert_sorted [] l.

Lemma insert_sorted_perm x l : Permutation (x :: l) (insert_sorted x l).
Proof.
  induction l as [|y l IH]; simpl; [reflexivity|].
  destruct (cmp x y <=? 0)%Z; [reflexivity|].
  rewrite perm_swap. now apply perm_skip.
Qed.

Lemma insertion_sort_perm l : Permutation l (insertion_sort l).
Proof.
  induction l as [|x l IH]; simpl; [reflexivity|].
  rewrite <- insert_sorted_perm. now apply perm_skip.
Qed.

Lemma insert_sorted_sorted x l :
  StrictWeakOrdering cmp →
  StronglySorted (λ a b, (cmp a b ≤ 0)%Z) l →
  StronglySorted (λ a b, (cmp a b ≤ 0)%Z) (insert_sorted x l).
Proof.
  intros Hswo. induction l as [|y l IH]; intros Hs; simpl.
  - repeat constructor.
  - apply StronglySorted_inv in Hs as [Hs Hy].
    destruct (Z.leb_spec (cmp x y) 0) as [Hle|Hgt].
    + constructor; [now constructor|].
      constructor; [exact Hle|].
      eapply Forall_impl; [exact Hy|].
      intros z Hz. simpl in Hz. eapply (swo_trans _ Hswo); eassumption.
    + constructor; [now apply IH|].
      rewrite <- insert_sorted_perm. constructor; [|exact Hy].
      apply (swo_flip _ Hswo) in Hgt. lia.
Qed.

Lemma insertion_sort_sorted l :
  StrictWeakOrdering cmp →
  StronglySorted (λ a b, (cmp a b ≤ 0)%Z) (insertion_sort l).
Proof.
  intros Hswo. induction l as [|x l IH]; simpl; [constructor|].
  now apply insert_sorted_sorted.
Qed.
End Insertion.

Definition insertionSlices : Slices := {|
  SortFunc := λ A cmp l, insertion_sort cmp l;
  SortFunc_perm := λ A cmp l, insertion_sort_perm cmp l;
  SortFunc_sorted := λ A cmp l, insertion_sort_sorted cmp l
|}.

End Go.

(** ** Entities of the chat platform (package discord) *)

Module discord.

(** [discord.Snowflake]: an unsigned 64-bit id.  [GuildID], [ChannelID],
    [MessageID], [UserID] and [RoleID] are distinct Go types over it; the
    distinction matters where ids are stored as node references. *)
Abbreviation Snowflake := N (only parsing).
Abbreviation GuildID := N (only parsing).
Abbreviation ChannelID := N (only parsing).
Abbreviation MessageID := N (only parsing).
Abbreviation UserID := N (only parsing).
Abbreviation RoleID := N (only parsing).

Definition NullSnowflake : Snowflake := 18446744073709551615%N.

(** [Snowflake.IsValid]: neither zero nor the null snowflake. *)
Definition IsValid (s : Snowflake) : bool :=
  negb ((s =? 0)%N || (s =? NullSnowflake)%N).

(** [Snowflake.String]: the id in decimal. *)
Definition SnowflakeString (s : Snowflake) : string :=
  NilEmpty.string_of_uint (N.to_uint s).

(** [discord.Status] is a Go string type. *)
Abbreviation Status := string (only parsing).
Definition UnknownStatus : Status := "".
Definition OnlineStatus : Status := "online".
Definition DoNotDisturbStatus : Status := "dnd".
Definition IdleStatus : Status := "idle".
Definition InvisibleStatus : Status := "invisible".
Definition OfflineStatus : Status := "offline".

Inductive ChannelType : Type :=
  | GuildText
  | DirectMessage
  | GuildVoice
  | GroupDM
  | GuildCategory
  | GuildForum
  | GuildPublicThread
  | GuildPrivateThread
  | GuildAnnouncementThread.

Record User : Type := {
  UserID_ : UserID;
  Username : string;
  DisplayName : string
}.

(** [User.DisplayOrUsername]. *)
Definition DisplayOrUsername (u : User) : string :=
  if String.eqb (DisplayName u) "" then Username u else DisplayName u.

Record Member : Type := {
  MemberUser : User;
  Nick : string;
  RoleIDs : list RoleID
}.

Record Presence : Type := {
  PresenceUserID : UserID;
  PresenceStatus : Status
}.

Record Role : Type := {
  RoleID_ : RoleID;
  RoleName : string;
  Color : Z;
  Position : Z
}.

Record Channel : Type := {
  ChannelID_ : ChannelID;
  ChannelGuildID : GuildID;
  Type_ : ChannelType;
  ParentID : ChannelID;
  LastMessageID : MessageID;
  ChannelName : string
}.

Record Guild : Type := {
  GuildID_ : GuildID;
  GuildName : string
}.

End discord.

Module gateway.

Record GuildFolder : Type := {
  FolderID : Z;
  FolderName : string;
  FolderColor : Z;
  FolderGuildIDs : list discord.GuildID
}.

(** [gateway.ReadyEvent], reduced to what [onReady] reads:
    [r.UserSettings.GuildFolders]. *)
Record ReadyEvent : Type := {
  GuildFolders : list GuildFolder
}.

(** [gateway.ChannelCreateEvent] embeds the channel. *)
Abbreviation ChannelCreateEvent := discord.Channel (only parsing).

(** [gateway.MessageCreateEvent], reduced to the ids the handler reads. *)
Record MessageCreateEvent : Type := {
  MessageID_ : discord.MessageID;
  MessageChannelID : discord.ChannelID;
  MessageGuildID : discord.GuildID
}.

End gateway.

Module ningen.

(** [ningen.UnreadIndication] is a Go uint8 with three named values;
    [OtherIndication] stands for the values without a name. *)
Inductive UnreadIndication : Type :=
  | ChannelRead
  | ChannelUnread
  | ChannelMentioned
  | OtherIndication.

(** [read.UpdateEvent]. *)
Record UpdateEvent : Type := {
  ReadChannelID : discord.ChannelID;
  ReadGuildID : discord.GuildID
}.

(** [discordState]: the local cache ([Cabinet]), the read state and the
    member state, as far as this code queries them.  A lookup that returns an
    error in Go is [None] here. *)
Record State : Type := {
  Guild : discord.GuildID → option discord.Guild;
  Channel : discord.ChannelID → option discord.Channel;
  Members : discord.GuildID → option (list discord.Member);
  Presence : discord.GuildID → discord.UserID → option discord.Presence;
  Role : discord.GuildID → discord.RoleID → option discord.Role;
  ChannelIsUnread : discord.ChannelID → UnreadIndication;
  GuildIsUnread : discord.GuildID → UnreadIndication;
  HasViewPermission : discord.ChannelID → bool;
  PrivateChannels : option (list discord.Channel);
  SearchLimit : N;
  SearchFrequency : Z
}.

End ningen.

(** ** The widgets (packages tcell and tview) *)

Module tcell.

(** [tcell.Style], reduced to the attributes this code sets. *)
Record Style : Type := {
  bold : bool;
  dim : bool;
  underline : bool
}.

Definition StyleDefault : Style := {| bold := false; dim := false; underline := false |}.
Definition Bold (s : Style) (on : bool) : Style :=
  {| bold := on; dim := dim s; underline := underline s |}.
Definition Dim (s : Style) (on : bool) : Style :=
  {| bold := bold s; dim := on; underline := underline s |}.
Definition Underline (s : Style) (on : bool) : Style :=
  {| bold := bold s; dim := dim s; underline := on |}.

End tcell.

Module tview.

(** A pointer to a tree node. *)
Abbreviation addr := positive (only parsing).

(** The reference stored in a node ([SetReference]): nothing, a guild id or a
    channel id.  Go compares the dynamic type too, so a guild id never equals
    a channel id. *)
Inductive Reference : Type :=
  | RefNil
  | RefGuild (g : discord.GuildID)
  | RefChannel (c : discord.ChannelID).

Definition Reference_eqb (a b : Reference) : bool :=
  match a, b with
  | RefNil, RefNil => true
  | RefGuild x, RefGuild y => (x =? y)%N
  | RefChannel x, RefChannel y => (x =? y)%N
  | _, _ => false
  end.

(** [tview.TreeNode]. *)
#[warnings="-register-all"]
Inductive TreeNode : Type := mkTreeNode {
  address : addr;
  text : string;
  reference : Reference;
  textStyle : tcell.Style;
  expanded : bool;
  children : list TreeNode
}.

(** [tview.NewTreeNode], allocated at address [a]: expanded, no reference,
    default style, no children. *)
Definition NewTreeNode (a : addr) (t : string) : TreeNode :=
  mkTreeNode a t RefNil tcell.StyleDefault true [].

Definition SetReference (r : Reference) (n : TreeNode) : TreeNode :=
  mkTreeNode (address n) (text n) r (textStyle n) (expanded n) (children n).
Definition SetTextStyle (s : tcell.Style) (n : TreeNode) : TreeNode :=
  mkTreeNode (address n) (text n) (reference n) s (expanded n) (children n).
Definition SetExpanded (e : bool) (n : TreeNode) : TreeNode :=
  mkTreeNode (address n) (text n) (reference n) (textStyle n) e (children n).
Definition SetChildren (cs : list TreeNode) (n : TreeNode) : TreeNode :=
  mkTreeNode (address n) (text n) (reference n) (textStyle n) (expanded n) cs.

(** [AddChild]: appended last.  [ClearChildren].  [RemoveChild]: removes the
    first child that is the given node (pointer equality). *)
Definition AddChild (c : TreeNode) (n : TreeNode) : TreeNode :=
  SetChildren (children n ++ [c]) n.
Definition ClearChildren (n : TreeNode) : TreeNode := SetChildren [] n.

Fixpoint removeFirst (p : addr) (l : list TreeNode) : list TreeNode :=
  match l with
  | [] => []
  | c :: l' => if (address c =? p)%positive then l' else c :: removeFirst p l'
  end.
Definition RemoveChild (p : addr) (n : TreeNode) : TreeNode :=
  SetChildren (removeFirst p (children n)) n.

(** A method call through the pointer [p]: the node at address [p] is
    replaced by [f] of it, wherever the tree reaches it. *)
Fixpoint modify (p : addr) (f : TreeNode → TreeNode) (t : TreeNode) : TreeNode :=
  match t with
  | mkTreeNode a tx r st e cs =>
      let t' := mkTreeNode a tx r st e (List.map (modify p f) cs) in
      if (a =? p)%positive then f t' else t'
  end.

(** Dereferencing the pointer [p] inside the tree [t]. *)
Fixpoint deref (p : addr) (t : TreeNode) : option TreeNode :=
  if (address t =? p)%positive then Some t
  else
    match t with
    | mkTreeNode _ _ _ _ _ cs =>
        (fix derefList (l : list TreeNode) : option TreeNode :=
           match l with
           | [] => None
           | c :: l' => match deref p c with Some n => Some n | None => derefList l' end
           end) cs
    end.

(** The nodes of a tree, parents before children, children left to right. *)
Fixpoint nodes (t : TreeNode) : list TreeNode :=
  t :: match t with
       | mkTreeNode _ _ _ _ _ cs => List.concat (List.map nodes cs)
       end.

Definition addresses (t : TreeNode) : list addr := List.map address (nodes t).

(** [TreeNode.Walk]: depth-first, pre-order traversal.  The callback gets the
    node and its parent (nil for the start node) and returns whether the
    traversal continues with the children of that node: returning false
    prunes the subtree, it does not end the walk.  The callback of this
    embedding threads a state of type [S] (the variables its Go closure
    captures) and returns the style of the visited node, the only attribute a
    callback of this program sets. *)
Section Walk.
Context {S : Type}.
Variable callback : TreeNode → option addr → S → S * tcell.Style * bool.

Fixpoint Walk (n : TreeNode) (parent : option addr) (s : S) {struct n} : TreeNode * S :=
  match n with
  | mkTreeNode a tx r st e cs =>
      let '(s1, st1, descend) := callback n parent s in
      if descend then
        let '(cs', s2) :=
          (fix walkChildren (l : list TreeNode) (s : S) {struct l} : list TreeNode * S :=
             match l with
             | [] => ([], s)
             | c :: l' =>
                 let '(c', s') := Walk c (Some a) s in
                 let '(l'', s'') := walkChildren l' s' in
                 (c' :: l'', s'')
             end) cs s1 in
        (mkTreeNode a tx r st1 e cs', s2)
      else (mkTreeNode a tx r st1 e cs, s1)
  end.

Fixpoint walkChildren (a : addr) (l : list TreeNode) (s : S) : list TreeNode * S :=
  match l with
  | [] => ([], s)
  | c :: l' =>
      let '(c', s') := Walk c (Some a) s in
      let '(l'', s'') := walkChildren a l' s' in
      (c' :: l'', s'')
  end.

End Walk.

End tview.

(** ** Collaborators outside this code *)

Module ui.

(** Text formatting done by other packages: [ui.ChannelToString], the
    [String] method of a [tcell] colour built by [tcell.NewHexColor], and the
    [%s] formatting of a [discord.Color]. *)
Record Format : Type := {
  ChannelToString : discord.Channel → string;
  HexColorString : Z → string;
  ColorString : Z → string
}.

End ui.

Module config.

(** [config.Config], reduced to what the tree reads. *)
Record Config : Type := {
  AutoExpandFolders : bool
}.

End config.

(** ** The search cache (package internal/cache) *)

Module cache.

(** The package internal/cache is not among the sources.  The spec calls it a
    negative-result cache keyed by (community, query-prefix); [searchMember]
    uses it as a map from a key string to the number of results of the search
    stored under that key. *)
Abbreviation Cache := (gmap string N) (only parsing).

(** Modelled from the spec: [cache.NewCache], the empty cache. *)
Definition NewCache : Cache := ∅.

(** Modelled from the spec: [Cache.Exists], whether a search is stored under
    the key. *)
Definition Exists (c : Cache) (key : string) : bool := bool_decide (is_Some (c !! key)).

(** Modelled from the spec: [Cache.Get], the count stored under the key, the
    zero value when there is none. *)
Definition Get (c : Cache) (key : string) : N := default 0%N (c !! key).

(** Modelled from the spec: [Cache.Create], storing a count under the key. *)
Definition Create (c : Cache) (key : string) (value : N) : Cache := <[key := value]> c.

End cache.

(** ** The client (package cmd) *)

Module cmd.

(** What the handlers ask of their collaborators, in the order asked. *)
Inductive Effect : Type :=
  | InitiateDM (userID : discord.UserID)
  | DrawMessage (messageID : discord.MessageID)
  | Draw
  | MarkRead (channelID : discord.ChannelID) (messageID : discord.MessageID)
  | Notify (messageID : discord.MessageID)
  | SetFocusGuildsTree
  | WaitForChunkEvent
  | SetFetchingChunk (fetching : bool) (count : N)
  | SearchMember (guildID : discord.GuildID) (name : string).

Section Client.

Context (slices : Go.Slices) (strs : Go.Strings) (discordState : ningen.State)
  (fmt : ui.Format) (cfg : config.Config).

(** *** members list *)

Record memberItem : Type := {
  Member : discord.Member;
  Presence : option discord.Presence;
  RoleInfo : option discord.Role
}.

(** [membersList]: the embedded [*tview.List] is the field [items]. *)
Record membersList : Type := {
  items : list string;
  currentGuildID : discord.GuildID;
  visible : bool;
  memberItems : gmap N Z
}.

Definition Clear (ml : membersList) : membersList :=
  {| items := []; currentGuildID := currentGuildID ml; visible := visible ml;
     memberItems := memberItems ml |}.

Definition AddItem (mainText : string) (ml : membersList) : membersList :=
  {| items := items ml ++ [mainText]; currentGuildID := currentGuildID ml;
     visible := visible ml; memberItems := memberItems ml |}.

(** The [statusOrder] map literal of [sortMembers]; a status that is not a
    key reads as the zero value. *)
Definition statusOrder (s : string) : Z :=
  if String.eqb s discord.OnlineStatus then 0
  else if String.eqb s discord.IdleStatus then 1
  else if String.eqb s discord.DoNotDisturbStatus then 2
  else if String.eqb s discord.OfflineStatus then 3
  else if String.eqb s discord.InvisibleStatus then 3
  else 0.

Definition statusOf (a : memberItem) : string :=
  match Presence a with
  | Some p => discord.PresenceStatus p
  | None => discord.OfflineStatus
  end.

Definition sortName (a : memberItem) : string :=
  if String.eqb (discord.Nick (Member a)) ""
  then discord.DisplayOrUsername (discord.MemberUser (Member a))
  else discord.Nick (Member a).

Definition sortMembers (a b : memberItem) : Z :=
  let aStatus := statusOf a in
  let bStatus := statusOf b in
  if negb (statusOrder aStatus =? statusOrder bStatus)%Z
  then Go.CompareZ (statusOrder aStatus) (statusOrder bStatus)
  else Go.CompareString (Go.ToLower strs (sortName a)) (Go.ToLower strs (sortName b)).

Definition groupMembersByRole (members : list memberItem) : gmap string (list memberItem) :=
  fold_left
    (λ (grouped : gmap string (list memberItem)) member,
       let roleName :=
         match RoleInfo member with
         | Some role => discord.RoleName role
         | None => "No Role"
         end in
       <[roleName := default [] (grouped !! roleName) ++ [member]]> grouped)
    members ∅.

Definition getPresence (guildID : discord.GuildID) (userID : discord.UserID)
  : option discord.Presence :=
  match ningen.Presence discordState guildID userID with
  | None => Some {| discord.PresenceUserID := userID;
                    discord.PresenceStatus := discord.OfflineStatus |}
  | Some presence => Some presence
  end.

Definition getRoleInfo (guildID : discord.GuildID) (member : discord.Member)
  : option discord.Role :=
  if (length (discord.RoleIDs member) =? 0)%nat then None
  else
    fst (fold_left
           (λ (acc : option discord.Role * Z) roleID,
              let '(highestRole, highestPos) := acc in
              match ningen.Role discordState guildID roleID with
              | None => acc
              | Some role =>
                  if negb (discord.Color role =? 0)%Z && (highestPos <? discord.Position role)%Z
                  then (Some role, discord.Position role)
                  else acc
              end)
           (discord.RoleIDs member) (None, 0%Z)).

Definition getStatusIndicator (status : string) : string :=
  if String.eqb status discord.OnlineStatus then "[green::b]•[-:-:-]"
  else if String.eqb status discord.IdleStatus then "[yellow::b]•[-:-:-]"
  else if String.eqb status discord.DoNotDisturbStatus then "[red::b]•[-:-:-]"
  else "[::d]•[::D]".

Definition formatMemberText (item : memberItem) : string :=
  let status := statusOf item in
  let name :=
    if negb (String.eqb (discord.Nick (Member item)) "")
    then discord.Nick (Member item)
    else discord.DisplayOrUsername (discord.MemberUser (Member item)) in
  let text :=
    getStatusIndicator status +:+ " " +:+
    match RoleInfo item with
    | Some role =>
        if negb (discord.Color role =? 0)%Z
        then "[" +:+ ui.HexColorString fmt (discord.Color role) +:+ "]" +:+ name +:+ "[-]"
        else name
    | None => name
    end in
  if String.eqb status discord.OfflineStatus || String.eqb status discord.InvisibleStatus
  then "[::d]" +:+ text +:+ "[::D]"
  else text.

(** The header row of a role section: [fmt.Sprintf("─ %s ─", roleName)]. *)
Definition roleHeader (roleName : string) : string := "─ " +:+ roleName +:+ " ─".

(** The body of the loop over the sorted role names: state is the list, the
    index cache and [itemIndex]. *)
Definition addRoleSection (grouped : gmap string (list memberItem))
    (acc : list string * gmap N Z * Z) (roleName : string) : list string * gmap N Z * Z :=
  let '(its, cache, itemIndex) := acc in
  let roleMembers := default [] (grouped !! roleName) in
  fold_left
    (λ (acc : list string * gmap N Z * Z) member,
       let '(its, cache, itemIndex) := acc in
       (its ++ [formatMemberText member],
        <[discord.UserID_ (discord.MemberUser (Member member)) := itemIndex]> cache,
        (itemIndex + 1)%Z))
    roleMembers (its ++ [roleHeader roleName], cache, (itemIndex + 1)%Z).

(** The member items of [rebuildList], before sorting. *)
Definition buildMemberItems (guildID : discord.GuildID) (members : list discord.Member)
  : list memberItem :=
  List.map
    (λ m, {| Member := m;
             Presence := getPresence guildID (discord.UserID_ (discord.MemberUser m));
             RoleInfo := getRoleInfo guildID m |})
    members.

Definition rebuildList (ml : membersList) : membersList :=
  if negb (discord.IsValid (currentGuildID ml)) then Clear ml
  else if negb (visible ml) then ml
  else
    match ningen.Members discordState (currentGuildID ml) with
    | None => AddItem "Failed to load members" (Clear ml)
    | Some members =>
        let memberItems0 := buildMemberItems (currentGuildID ml) members in
        let sorted := Go.SortFunc slices _ sortMembers memberItems0 in
        let grouped := groupMembersByRole sorted in
        let roleNames :=
          Go.SortFunc slices _ Go.CompareString (List.map fst (map_to_list grouped)) in
        let '(its, cache, _) :=
          fold_left (addRoleSection grouped) roleNames ([], ∅, 0%Z) in
        {| items := its; currentGuildID := currentGuildID ml;
           visible := visible ml; memberItems := cache |}
    end.

(** [onSelected].  The loop over the index cache stops at the first user whose
    row is [index]; Go ranges over a map in no fixed order, which matters only
    when two users share a row, and [rebuildList] gives every user its own. *)
Definition onSelected (ml : membersList) (index : Z) : list Effect :=
  if (index <? 0)%Z || (Z.of_nat (length (items ml)) <=? index)%Z then []
  else
    let mainText := nth (Z.to_nat index) (items ml) "" in
    if Go.Contains mainText "─" then []
    else
      let userID :=
        match List.filter (λ kv, (snd kv =? index)%Z) (map_to_list (memberItems ml)) with
        | (id, _) :: _ => id
        | [] => 0%N
        end in
      if negb (discord.IsValid userID) then []
      else [InitiateDM userID].

(** *** guilds tree *)

(** [unreadStyle]: the switch falls through from mentioned to unread and has
    no case for other values. *)
Definition unreadStyle (indication : ningen.UnreadIndication) : tcell.Style :=
  match indication with
  | ningen.ChannelRead => tcell.Dim tcell.StyleDefault true
  | ningen.ChannelMentioned => tcell.Bold (tcell.Underline tcell.StyleDefault true) true
  | ningen.ChannelUnread => tcell.Bold tcell.StyleDefault true
  | ningen.OtherIndication => tcell.StyleDefault
  end.

Definition getGuildNodeStyle (guildID : discord.GuildID) : tcell.Style :=
  unreadStyle (ningen.GuildIsUnread discordState guildID).

Definition getChannelNodeStyle (channelID : discord.ChannelID) : tcell.Style :=
  unreadStyle (ningen.ChannelIsUnread discordState channelID).

(** The state the handlers share: the tree of [app.chatView.guildsTree] (its
    root), the current node, [app.chatView.selectedChannel], the package
    variable [guildsTreeInitialized], the next free node address and the
    requests made to the collaborators so far. *)
Record App : Type := {
  root : tview.TreeNode;
  currentNode : option tview.addr;
  selectedChannel : option discord.Channel;
  guildsTreeInitialized : bool;
  nextAddr : tview.addr;
  effects : list Effect
}.

Definition withRoot (r : tview.TreeNode) (app : App) : App :=
  {| root := r; currentNode := currentNode app; selectedChannel := selectedChannel app;
     guildsTreeInitialized := guildsTreeInitialized app; nextAddr := nextAddr app;
     effects := effects app |}.

Definition perform (es : list Effect) (app : App) : App :=
  {| root := root app; currentNode := currentNode app; selectedChannel := selectedChannel app;
     guildsTreeInitialized := guildsTreeInitialized app; nextAddr := nextAddr app;
     effects := effects app ++ es |}.

(** Adds the freshly allocated node [child] under the node at [parent]. *)
Definition addNewChild (parent : tview.addr) (child : tview.TreeNode) (app : App) : App :=
  {| root := tview.modify parent (tview.AddChild child) (root app);
     currentNode := currentNode app; selectedChannel := selectedChannel app;
     guildsTreeInitialized := guildsTreeInitialized app;
     nextAddr := Pos.succ (nextAddr app); effects := effects app |}.

Definition createGuildNode (n : tview.addr) (guild : discord.Guild) (app : App) : App :=
  let guildNode :=
    tview.SetTextStyle (getGuildNodeStyle (discord.GuildID_ guild))
      (tview.SetReference (tview.RefGuild (discord.GuildID_ guild))
         (tview.NewTreeNode (nextAddr app) (discord.GuildName guild))) in
  addNewChild n guildNode app.

Definition createFolderNode (folder : gateway.GuildFolder) (app : App) : App :=
  let name :=
    if negb (String.eqb (gateway.FolderName folder) "")
    then "[" +:+ ui.ColorString fmt (gateway.FolderColor folder) +:+ "]" +:+
         gateway.FolderName folder +:+ "[-]"
    else "Folder" in
  let folderNode :=
    tview.SetExpanded (config.AutoExpandFolders cfg) (tview.NewTreeNode (nextAddr app) name) in
  let app1 := addNewChild (tview.address (root app)) folderNode app in
  fold_left
    (λ app gID,
       match ningen.Guild discordState gID with
       | None => app
       | Some guild => createGuildNode (tview.address folderNode) guild app
       end)
    (gateway.FolderGuildIDs folder) app1.

Definition isPrivate (t : discord.ChannelType) : bool :=
  match t with
  | discord.DirectMessage | discord.GroupDM => true
  | _ => false
  end.

Definition createChannelNode (node : tview.addr) (channel : discord.Channel) (app : App) : App :=
  if negb (isPrivate (discord.Type_ channel)) &&
     negb (ningen.HasViewPermission discordState (discord.ChannelID_ channel))
  then app
  else
    let channelNode :=
      tview.SetTextStyle (getChannelNodeStyle (discord.ChannelID_ channel))
        (tview.SetReference (tview.RefChannel (discord.ChannelID_ channel))
           (tview.NewTreeNode (nextAddr app) (ui.ChannelToString fmt channel))) in
    addNewChild node channelNode app.

(** A walk that looks for a node: the callback of the Go code stores the
    node in a captured variable and returns false where [test] holds, and
    returns true elsewhere.  The walk goes on after a hit, so the variable
    ends up holding the last hit that is not below another one. *)
Definition findCallback (test : tview.TreeNode → option tview.addr → bool)
    (node : tview.TreeNode) (parent : option tview.addr) (found : option tview.TreeNode)
  : option tview.TreeNode * tcell.Style * bool :=
  if test node parent then (Some node, tview.textStyle node, false)
  else (found, tview.textStyle node, true).

Definition find (test : tview.TreeNode → option tview.addr → bool) (start : tview.TreeNode)
  : option tview.TreeNode :=
  snd (tview.Walk (findCallback test) start None None).

Definition hasReference (r : tview.Reference) (node : tview.TreeNode) (parent : option tview.addr)
  : bool :=
  tview.Reference_eqb (tview.reference node) r.

(** [node.GetText() == "Direct Messages" && parent == gt.GetRoot()]. *)
Definition isDirectMessages (rootAddr : tview.addr) (node : tview.TreeNode)
    (parent : option tview.addr) : bool :=
  String.eqb (tview.text node) "Direct Messages" &&
  match parent with
  | Some p => (p =? rootAddr)%positive
  | None => false
  end.

Definition findDirectMessages (r : tview.TreeNode) : option tview.TreeNode :=
  find (isDirectMessages (tview.address r)) r.

(** The loop of [moveDMToTop] that looks for the node among the children:
    the index and the child. *)
Fixpoint indexOfChild (p : tview.addr) (l : list tview.TreeNode) (i : nat)
  : option (nat * tview.TreeNode) :=
  match l with
  | [] => None
  | child :: l' =>
      if (tview.address child =? p)%positive then Some (i, child)
      else indexOfChild p l' (S i)
  end.

(** [moveDMToTop] from the point where the parent node is known: what it
    does to the parent. *)
Definition promoteChild (dmNode : tview.addr) (dmParentNode : tview.TreeNode) : tview.TreeNode :=
  let children := tview.children dmParentNode in
  match indexOfChild dmNode children 0 with
  | None => dmParentNode
  | Some (O, _) => dmParentNode
  | Some (S _, dmNodeObject) =>
      let allChildren := children in
      let cleared :=
        fold_left (λ n child, tview.RemoveChild (tview.address child) n) allChildren dmParentNode in
      let withDM := tview.AddChild dmNodeObject cleared in
      fold_left
        (λ n child,
           if negb (tview.address child =? dmNode)%positive then tview.AddChild child n else n)
        allChildren withDM
  end.

Definition moveDMToTop (dmNode : tview.addr) (r : tview.TreeNode) : tview.TreeNode :=
  match findDirectMessages r with
  | None => r
  | Some dmParentNode => tview.modify (tview.address dmParentNode) (promoteChild dmNode) r
  end.

(** [updateDMStyleAndMove]: the walk, then the queued update.  The two run
    here on the same tree, with no other update between them. *)
Definition updateDMStyleAndMove (channelID : discord.ChannelID) (forceUnread : bool) (app : App)
  : App :=
  match find (hasReference (tview.RefChannel channelID)) (root app) with
  | None => app
  | Some dmNode =>
      let style :=
        if forceUnread then unreadStyle ningen.ChannelUnread
        else getChannelNodeStyle channelID in
      let styled := tview.modify (tview.address dmNode) (tview.SetTextStyle style) (root app) in
      withRoot (moveDMToTop (tview.address dmNode) styled) app
  end.

Definition moveDMToTopOnMessage (channelID : discord.ChannelID) (app : App) : App :=
  match find (hasReference (tview.RefChannel channelID)) (root app) with
  | None => app
  | Some dmNode => withRoot (moveDMToTop (tview.address dmNode) (root app)) app
  end.

(** The callback that restyles the nodes of a channel, pruning below them. *)
Definition restyleChannel (channelID : discord.ChannelID)
    (node : tview.TreeNode) (parent : option tview.addr) (u : unit)
  : unit * tcell.Style * bool :=
  if tview.Reference_eqb (tview.reference node) (tview.RefChannel channelID)
  then (u, getChannelNodeStyle channelID, false)
  else (u, tview.textStyle node, true).

Definition updateChannelStyle (channelID : discord.ChannelID) (guildID : discord.GuildID)
    (app : App) : App :=
  if discord.IsValid guildID then
    match find (hasReference (tview.RefGuild guildID)) (root app) with
    | Some guildNode =>
        withRoot
          (tview.modify (tview.address guildNode)
             (λ n, fst (tview.Walk (restyleChannel channelID) n None tt)) (root app))
          app
    | None => app
    end
  else withRoot (fst (tview.Walk (restyleChannel channelID) (root app) None tt)) app.

(** The [case nil] branch of [guildsTree.onSelected]: the Direct Messages
    folder is selected while it has no children. *)

(** The recency surrogate [msgID] of that branch. *)
Definition msgID (ch : discord.Channel) : discord.MessageID :=
  if discord.IsValid (discord.LastMessageID ch) then discord.LastMessageID ch
  else discord.ChannelID_ ch.

Definition sortPrivateChannels (channels : list discord.Channel) : list discord.Channel :=
  Go.SortFunc slices _ (λ a b, Go.CompareN (msgID b) (msgID a)) channels.

(** The first queued update: one node per channel, in order, with the style
    [NewTreeNode] gives; [nodeRefs] keeps the pointers. *)
Definition createDMNodes (node : tview.addr) (channels : list discord.Channel) (app : App)
  : App * list tview.addr :=
  let '(app1, nodeRefs) :=
    fold_left
      (λ (acc : App * list tview.addr) c,
         let '(app, nodeRefs) := acc in
         let channelNode :=
           tview.SetReference (tview.RefChannel (discord.ChannelID_ c))
             (tview.NewTreeNode (nextAddr app) (ui.ChannelToString fmt c)) in
         (addNewChild node channelNode app, nodeRefs ++ [tview.address channelNode]))
      channels (app, []) in
  (withRoot (tview.modify node (tview.SetExpanded true) (root app1)) app1, nodeRefs).

(** The styles computed off the UI thread, one per channel. *)
Definition computeDMStyles (channels : list discord.Channel) : list tcell.Style :=
  List.map (λ c, getChannelNodeStyle (discord.ChannelID_ c)) channels.

(** The second queued update: [nodeRefs[i].SetTextStyle(styles[i])] for every
    index; both slices have the length of [channels]. *)
Definition applyDMStyles (nodeRefs : list tview.addr) (styles : list tcell.Style) (app : App)
  : App :=
  fold_left
    (λ app (rs : tview.addr * tcell.Style),
       withRoot (tview.modify (fst rs) (tview.SetTextStyle (snd rs)) (root app)) app)
    (combine nodeRefs styles) app.

Definition onSelectedDirectMessages (node : tview.addr) (app : App) : App :=
  let app0 := withRoot (tview.modify node (tview.SetExpanded true) (root app)) app in
  match ningen.PrivateChannels discordState with
  | None => app0
  | Some fetched =>
      let channels := sortPrivateChannels fetched in
      let '(app1, nodeRefs) := createDMNodes node channels app0 in
      applyDMStyles nodeRefs (computeDMStyles channels) app1
  end.

(** *** gateway handlers *)

(** The callback of the first walk of [onReadUpdate].  Its state is the pair
    of the captured variables [guildNode] and [found]. *)
Definition readUpdateCallback (event : ningen.UpdateEvent)
    (node : tview.TreeNode) (parent : option tview.addr) (s : option tview.TreeNode * bool)
  : (option tview.TreeNode * bool) * tcell.Style * bool :=
  if tview.Reference_eqb (tview.reference node) (tview.RefGuild (ningen.ReadGuildID event))
  then
    let style := getGuildNodeStyle (ningen.ReadGuildID event) in
    ((Some (tview.SetTextStyle style node), true), style, false)
  else if tview.Reference_eqb (tview.reference node)
            (tview.RefChannel (ningen.ReadChannelID event))
  then
    if negb (discord.IsValid (ningen.ReadGuildID event))
    then ((fst s, true), getChannelNodeStyle (ningen.ReadChannelID event), false)
    else (s, tview.textStyle node, true)
  else (s, tview.textStyle node, true).

(** The callback of the second walk, below the guild node. *)
Definition readUpdateChannelCallback (event : ningen.UpdateEvent)
    (node : tview.TreeNode) (parent : option tview.addr) (found : bool)
  : bool * tcell.Style * bool :=
  if tview.Reference_eqb (tview.reference node) (tview.RefChannel (ningen.ReadChannelID event))
  then (true, getChannelNodeStyle (ningen.ReadChannelID event), false)
  else (found, tview.textStyle node, true).

Definition onReadUpdate (event : ningen.UpdateEvent) (app : App) : App :=
  let '(root1, (guildNode, found)) :=
    tview.Walk (readUpdateCallback event) (root app) None (None, false) in
  match guildNode with
  | Some g =>
      if tview.expanded g then
        withRoot
          (tview.modify (tview.address g)
             (λ n, fst (tview.Walk (readUpdateChannelCallback event) n None found)) root1)
          app
      else withRoot root1 app
  | None => withRoot root1 app
  end.

Definition onChannelCreate (event : gateway.ChannelCreateEvent) (app : App) : App :=
  if negb (isPrivate (discord.Type_ event)) then app
  else
    match findDirectMessages (root app) with
    | None => app
    | Some dmNode =>
        match find (hasReference (tview.RefChannel (discord.ChannelID_ event))) dmNode with
        | Some _ => app
        | None => createChannelNode (tview.address dmNode) event app
        end
    end.

Definition onReady (r : gateway.ReadyEvent) (app : App) : App :=
  if guildsTreeInitialized app then app
  else
    let dmNode := tview.NewTreeNode (nextAddr app) "Direct Messages" in
    let app1 :=
      {| root := tview.AddChild dmNode (tview.ClearChildren (root app));
         currentNode := currentNode app; selectedChannel := selectedChannel app;
         guildsTreeInitialized := true; nextAddr := Pos.succ (nextAddr app);
         effects := effects app |} in
    let app2 :=
      fold_left
        (λ app folder,
           if (gateway.FolderID folder =? 0)%Z &&
              (length (gateway.FolderGuildIDs folder) =? 1)%nat
           then
             match ningen.Guild discordState (hd 0%N (gateway.FolderGuildIDs folder)) with
             | None => app
             | Some guild => createGuildNode (tview.address (root app)) guild app
             end
           else createFolderNode folder app)
        (gateway.GuildFolders r) app1 in
    {| root := root app2; currentNode := Some (tview.address (root app2));
       selectedChannel := selectedChannel app2;
       guildsTreeInitialized := guildsTreeInitialized app2; nextAddr := nextAddr app2;
       effects := effects app2 ++ [SetFocusGuildsTree; Draw] |}.

(** [onMessageCreate].  The calls it starts with [go] run here at once, in
    the order they are started. *)
Definition onMessageCreate (message : gateway.MessageCreateEvent) (app : App) : App :=
  let isCurrentChannel :=
    match selectedChannel app with
    | Some ch => (discord.ChannelID_ ch =? gateway.MessageChannelID message)%N
    | None => false
    end in
  let app1 :=
    if isCurrentChannel
    then perform [DrawMessage (gateway.MessageID_ message); Draw;
                  MarkRead (gateway.MessageChannelID message) (gateway.MessageID_ message)] app
    else app in
  let app2 := perform [Notify (gateway.MessageID_ message)] app1 in
  let isDM :=
    match ningen.Channel discordState (gateway.MessageChannelID message) with
    | Some channel => isPrivate (discord.Type_ channel)
    | None => false
    end in
  if isDM then
    if negb isCurrentChannel
    then updateDMStyleAndMove (gateway.MessageChannelID message) true app2
    else moveDMToTopOnMessage (gateway.MessageChannelID message) app2
  else updateChannelStyle (gateway.MessageChannelID message) (gateway.MessageGuildID message) app2.

(** The events of the gateway that change the tree, and their dispatch. *)
Inductive Event : Type :=
  | Ready (r : gateway.ReadyEvent)
  | ChannelCreate (c : gateway.ChannelCreateEvent)
  | MessageCreate (m : gateway.MessageCreateEvent)
  | ReadUpdate (u : ningen.UpdateEvent).

Definition handle (app : App) (e : Event) : App :=
  match e with
  | Ready r => onReady r app
  | ChannelCreate c => onChannelCreate c app
  | MessageCreate m => onMessageCreate m app
  | ReadUpdate u => onReadUpdate u app
  end.

(** *** message input: member search *)

(** [messageInput], reduced to the search cache and the time of the last
    search (in the unit of [SearchFrequency]). *)
Record messageInput : Type := {
  cache : gmap string N;
  lastSearch : Z
}.

Definition searchKey (gID : discord.GuildID) (name : string) : string :=
  discord.SnowflakeString gID +:+ " " +:+ name.

(** [searchMember].  [now] and [now'] are the two readings of the clock;
    [chunk] is what the second [waitForChunkEvent] returns, the number of
    members of the chunk that answers the search. *)
Definition searchMember (now now' : Z) (chunk : N)
    (gID : discord.GuildID) (name : string) (mi : messageInput)
  : messageInput * list Effect :=
  let key := searchKey gID name in
  if cache.Exists (cache mi) key then (mi, [])
  else
    let k := Go.dropLast key in
    if cache.Exists (cache mi) k && (cache.Get (cache mi) k <? ningen.SearchLimit discordState)%N
    then ({| cache := cache.Create (cache mi) key (cache.Get (cache mi) k);
             lastSearch := lastSearch mi |}, [])
    else if (now <? lastSearch mi + ningen.SearchFrequency discordState)%Z then (mi, [])
    else
      ({| cache := cache.Create (cache mi) key chunk; lastSearch := now' |},
       [WaitForChunkEvent; SetFetchingChunk true 0; SearchMember gID name; WaitForChunkEvent]).

End Client.

(** A run of the client: the events in the order their handlers run, each
    with the content of the local cache at that time. *)
Definition run (fmt : ui.Format) (cfg : config.Config)
    (events : list (ningen.State * Event)) (app : App) : App :=
  fold_left (λ app e, handle (fst e) fmt cfg app (snd e)) events app.

End cmd.

(** * Properties *)

(** ** Members list: roles and buckets *)

(** The bucket name [groupMembersByRole] files an item under. *)
Definition bucketName (item : cmd.memberItem) : string :=
  match cmd.RoleInfo item with
  | Some role => discord.RoleName role
  | None => "No Role"
  end.

Definition roleLoopStep (discordState : ningen.State) (guildID : discord.GuildID)
    (acc : option discord.Role * Z) (roleID : discord.RoleID) : option discord.Role * Z :=
  let '(highestRole, highestPos) := acc in
  match ningen.Role discordState guildID roleID with
  | None => acc
  | Some role =>
      if negb (discord.Color role =? 0)%Z && (highestPos <? discord.Position role)%Z
      then (Some role, discord.Position role)
      else acc
  end.

(** What the loop of [getRoleInfo] keeps true of [highestRole] and
    [highestPos]. *)
Definition roleLoopInv (discordState : ningen.State) (guildID : discord.GuildID)
    (ids : list discord.RoleID) (acc : option discord.Role * Z) : Prop :=
  match fst acc with
  | None => snd acc = 0%Z
  | Some role =>
      snd acc = discord.Position role ∧ discord.Color role ≠ 0%Z ∧
      (0 < discord.Position role)%Z ∧
      ∃ roleID, In roleID ids ∧ ningen.Role discordState guildID roleID = Some role
  end.

Lemma roleLoop_inv discordState guildID ids :
  ∀ done acc,
    roleLoopInv discordState guildID done acc →
    roleLoopInv discordState guildID (done ++ ids)
      (fold_left (roleLoopStep discordState guildID) ids acc).
Proof.
  induction ids as [|roleID ids IH]; intros done acc Hinv; simpl.
  - now rewrite app_nil_r.
  - replace (done ++ roleID :: ids) with ((done ++ [roleID]) ++ ids)
      by now rewrite <- app_assoc.
    apply IH. destruct acc as [highestRole highestPos].
    unfold roleLoopStep.
    destruct (ningen.Role discordState guildID roleID) as [role|] eqn:Hrole.
    + destruct (negb (discord.Color role =? 0)%Z && (highestPos <? discord.Position role)%Z)
        eqn:Hupd.
      * apply andb_true_iff in Hupd as [Hcol Hpos].
        apply negb_true_iff, Z.eqb_neq in Hcol. apply Z.ltb_lt in Hpos.
        unfold roleLoopInv in *; simpl in *.
        repeat split; [exact Hcol| |].
        -- destruct highestRole as [r0|]; [|lia].
           destruct Hinv as (-> & _ & Hp & _). lia.
        -- exists roleID. split; [|exact Hrole]. apply in_or_app. right. now left.
      * unfold roleLoopInv in *; simpl in *. destruct highestRole as [r0|]; [|exact Hinv].
        destruct Hinv as (? & ? & ? & rid & Hin & ?). repeat split; try assumption.
        exists rid. split; [|assumption]. apply in_or_app. now left.
    + unfold roleLoopInv in *; simpl in *. destruct highestRole as [r0|]; [|exact Hinv].
      destruct Hinv as (? & ? & ? & rid & Hin & ?). repeat split; try assumption.
      exists rid. split; [|assumption]. apply in_or_app. now left.
Qed.

Lemma getRoleInfo_Some discordState guildID member role :
  cmd.getRoleInfo discordState guildID member = Some role →
  discord.Color role ≠ 0%Z ∧ (0 < discord.Position role)%Z ∧
  ∃ roleID, In roleID (discord.RoleIDs member) ∧
            ningen.Role discordState guildID roleID = Some role.
Proof.
  unfold cmd.getRoleInfo.
  destruct (length (discord.RoleIDs member) =? 0)%nat; [discriminate|].
  intros Hget.
  pose proof (roleLoop_inv discordState guildID (discord.RoleIDs member) [] (None, 0%Z)
                eq_refl) as Hinv.
  unfold roleLoopInv, roleLoopStep in Hinv. simpl in Hinv.
  rewrite Hget in Hinv. destruct Hinv as (_ & Hc & Hp & Hex). auto.
Qed.

Lemma groupMembersByRole_step (items : list cmd.memberItem) :
  ∀ (grouped : gmap string (list cmd.memberItem)) item,
    (In item items ∨ ∃ bucket, grouped !! bucketName item = Some bucket ∧ In item bucket) →
    ∃ bucket,
      fold_left
        (λ (grouped : gmap string (list cmd.memberItem)) member,
           let roleName :=
             match cmd.RoleInfo member with
             | Some role => discord.RoleName role
             | None => "No Role"
             end in
           <[roleName := default [] (grouped !! roleName) ++ [member]]> grouped)
        items grouped !! bucketName item = Some bucket ∧ In item bucket.
Proof.
  induction items as [|m items IH]; intros grouped item H; simpl.
  - destruct H as [[]|H]. exact H.
  - apply IH. fold (bucketName m).
    destruct (decide (bucketName m = bucketName item)) as [Heq|Hne].
    + destruct H as [[->|Hin]|(bucket & Hb & Hin)].
      * right. rewrite lookup_insert_eq. eexists. split; [reflexivity|].
        apply in_or_app. right. now left.
      * now left.
      * right. rewrite Heq, lookup_insert_eq, Hb. eexists. split; [reflexivity|].
        simpl. apply in_or_app. now left.
    + destruct H as [[->|Hin]|(bucket & Hb & Hin)].
      * congruence.
      * now left.
      * right. rewrite lookup_insert_ne by exact Hne. eauto.
Qed.

Lemma groupMembersByRole_In items item :
  In item items →
  ∃ bucket, cmd.groupMembersByRole items !! bucketName item = Some bucket ∧ In item bucket.
Proof.
  intros Hin. unfold cmd.groupMembersByRole. apply groupMembersByRole_step. now left.
Qed.

(** C10.  [getRoleInfo] returns a role only if the role is coloured and its
    position is above zero.  For a member whose coloured roles all have
    position 0 (or who has no coloured role, or no role) it returns none, and
    the list build files the member under the bucket "No Role". *)
Theorem getRoleInfo_needs_positive_colored_role
    (slices : Go.Slices) (strs : Go.Strings) (discordState : ningen.State)
    (guildID : discord.GuildID) (member : discord.Member) :
  (∀ role, cmd.getRoleInfo discordState guildID member = Some role →
           discord.Color role ≠ 0%Z ∧ (0 < discord.Position role)%Z) ∧
  ((∀ roleID role,
       In roleID (discord.RoleIDs member) →
       ningen.Role discordState guildID roleID = Some role →
       discord.Color role ≠ 0%Z → discord.Position role = 0%Z) →
   cmd.getRoleInfo discordState guildID member = None ∧
   ∀ members, In member members →
     ∃ bucket item,
       cmd.groupMembersByRole
         (Go.SortFunc slices _ (cmd.sortMembers strs)
            (cmd.buildMemberItems discordState guildID members)) !! "No Role" = Some bucket ∧
       In item bucket ∧ cmd.Member item = member).
Proof.
  split.
  - intros role Hget. apply getRoleInfo_Some in Hget as (? & ? & _). auto.
  - intros Hzero.
    assert (Hnone : cmd.getRoleInfo discordState guildID member = None).
    { destruct (cmd.getRoleInfo discordState guildID member) as [role|] eqn:Hget; [|reflexivity].
      apply getRoleInfo_Some in Hget as (Hc & Hp & roleID & Hin & Hrole).
      specialize (Hzero roleID role Hin Hrole Hc). lia. }
    split; [exact Hnone|].
    intros members Hin.
    set (item := {| cmd.Member := member;
                    cmd.Presence := cmd.getPresence discordState guildID
                                      (discord.UserID_ (discord.MemberUser member));
                    cmd.RoleInfo := cmd.getRoleInfo discordState guildID member |}).
    assert (Hitem : In item (Go.SortFunc slices _ (cmd.sortMembers strs)
                               (cmd.buildMemberItems discordState guildID members))).
    { eapply Permutation_in; [apply Go.SortFunc_perm|].
      unfold cmd.buildMemberItems. apply in_map_iff. now exists member. }
    apply groupMembersByRole_In in Hitem as (bucket & Hb & Hi).
    exists bucket, item. unfold bucketName in Hb. simpl in Hb. rewrite Hnone in Hb.
    repeat split; assumption.
Qed.

(** ** Members list: the sort *)

(** The two components of the sort key of [sortMembers]. *)
Definition statusRank (item : cmd.memberItem) : Z := cmd.statusOrder (cmd.statusOf item).
Definition nameKey (strs : Go.Strings) (item : cmd.memberItem) : string :=
  Go.ToLower strs (cmd.sortName item).

(** [a] may stand before [b]: lower status rank, or the same rank and a name
    that is not greater, bytewise, after lower-casing by [strings.ToLower]. *)
Definition memberBefore (strs : Go.Strings) (a b : cmd.memberItem) : Prop :=
  (statusRank a < statusRank b)%Z ∨
  (statusRank a = statusRank b ∧ (nameKey strs a <=? nameKey strs b)%string = true).

Lemma ascii_compare_trans_lt x y z :
  Ascii.compare x y = Lt → Ascii.compare y z = Lt → Ascii.compare x z = Lt.
Proof.
  unfold Ascii.compare. rewrite !N.compare_lt_iff. lia.
Qed.

Lemma string_compare_trans a :
  ∀ b c, String.compare a b ≠ Gt → String.compare b c ≠ Gt → String.compare a c ≠ Gt.
Proof.
  induction a as [|x a IH]; intros [|y b] [|z c]; simpl; try congruence.
  destruct (Ascii.compare x y) eqn:Hxy; try congruence.
  - apply Ascii.compare_eq_iff in Hxy as ->.
    destruct (Ascii.compare y z) eqn:Hyz; try congruence. apply IH.
  - destruct (Ascii.compare y z) eqn:Hyz; try congruence.
    + apply Ascii.compare_eq_iff in Hyz as ->. rewrite Hxy. congruence.
    + rewrite (ascii_compare_trans_lt x y z Hxy Hyz). congruence.
Qed.

Lemma of_comparison_neg c : (Go.of_comparison c < 0)%Z ↔ c = Lt.
Proof. destruct c; simpl; split; (congruence || lia). Qed.

Lemma of_comparison_pos c : (0 < Go.of_comparison c)%Z ↔ c = Gt.
Proof. destruct c; simpl; split; (congruence || lia). Qed.

Lemma of_comparison_le c : (Go.of_comparison c ≤ 0)%Z ↔ c ≠ Gt.
Proof. destruct c; simpl; split; (congruence || lia). Qed.

Lemma sortMembers_unfold strs a b :
  cmd.sortMembers strs a b =
  if (statusRank a =? statusRank b)%Z
  then Go.of_comparison (String.compare (nameKey strs a) (nameKey strs b))
  else Go.of_comparison (statusRank a ?= statusRank b)%Z.
Proof.
  unfold cmd.sortMembers, statusRank, nameKey, Go.CompareZ, Go.CompareString.
  now destruct (cmd.statusOrder (cmd.statusOf a) =? cmd.statusOrder (cmd.statusOf b))%Z.
Qed.

Lemma string_leb_compare a b : (a <=? b)%string = true ↔ String.compare a b ≠ Gt.
Proof. unfold String.leb. destruct (String.compare a b); split; congruence. Qed.

Lemma sortMembers_le strs a b : (cmd.sortMembers strs a b ≤ 0)%Z ↔ memberBefore strs a b.
Proof.
  rewrite sortMembers_unfold. unfold memberBefore.
  destruct (Z.eqb_spec (statusRank a) (statusRank b)) as [Heq|Hne].
  - rewrite of_comparison_le, string_leb_compare. intuition lia.
  - rewrite of_comparison_le, Z.compare_gt_iff. intuition lia.
Qed.

Lemma sortMembers_swo strs : Go.StrictWeakOrdering (cmd.sortMembers strs).
Proof.
  split.
  - intros a b. rewrite !sortMembers_unfold, (Z.eqb_sym (statusRank b)).
    destruct (statusRank a =? statusRank b)%Z.
    + rewrite of_comparison_neg, of_comparison_pos, (String.compare_antisym (nameKey strs a)).
      destruct (String.compare (nameKey strs b) (nameKey strs a)); simpl; split; congruence.
    + rewrite of_comparison_neg, of_comparison_pos, (Z.compare_antisym (statusRank a)).
      destruct (statusRank a ?= statusRank b)%Z; simpl; split; congruence.
  - intros a b c. rewrite !sortMembers_le. unfold memberBefore.
    rewrite !string_leb_compare.
    intros [Hab|[Hab Hn1]] [Hbc|[Hbc Hn2]]; try (left; lia).
    right. split; [lia|]. eapply string_compare_trans; eassumption.
Qed.

Lemma StronglySorted_weaken {A : Type} (R R' : A → A → Prop) (l : list A) :
  (∀ a b, R a b → R' a b) → StronglySorted R l → StronglySorted R' l.
Proof.
  intros Himpl. induction 1 as [|a l Hs IH Hall]; constructor; [exact IH|].
  eapply Forall_impl; [exact Hall|]. intros b. apply Himpl.
Qed.

(** Two sorted arrangements of the same elements agree when no two distinct
    elements are each allowed before the other. *)
Lemma sorted_arrangement_unique {A : Type} (R : A → A → Prop) (l1 : list A) :
  ∀ l2,
    (∀ a b, In a l1 → In b l1 → R a b → R b a → a = b) →
    StronglySorted R l1 → StronglySorted R l2 → Permutation l1 l2 → l1 = l2.
Proof.
  induction l1 as [|a l1 IH]; intros l2 Hanti Hs1 Hs2 Hperm.
  - apply Permutation_nil in Hperm. now subst.
  - destruct l2 as [|b l2]; [apply Permutation_sym, Permutation_nil in Hperm; discriminate|].
    apply StronglySorted_inv in Hs1 as [Hs1 Ha]. apply StronglySorted_inv in Hs2 as [Hs2 Hb].
    rewrite Forall_forall in Ha. rewrite Forall_forall in Hb.
    assert (Hab : a = b).
    { assert (Hin1 : In a (b :: l2)) by (eapply Permutation_in; [exact Hperm|now left]).
      assert (Hin2 : In b (a :: l1))
        by (eapply Permutation_in; [apply Permutation_sym; exact Hperm|now left]).
      destruct Hin1 as [->|Hin1]; [reflexivity|].
      destruct Hin2 as [->|Hin2]; [reflexivity|].
      apply Hanti; [now left|now right|..].
      - apply Ha. now apply list_elem_of_In.
      - apply Hb. now apply list_elem_of_In. }
    subst b. f_equal. apply IH; try assumption.
    + intros x y Hx Hy. apply Hanti; now right.
    + eapply Permutation_cons_inv. exact Hperm.
Qed.

(** The members of the example: Alice is online, bob offline, Carl idle. *)
Definition exampleMember (id : discord.UserID) (name status : string) : cmd.memberItem :=
  {| cmd.Member :=
       {| discord.MemberUser :=
            {| discord.UserID_ := id; discord.Username := name; discord.DisplayName := name |};
          discord.Nick := ""; discord.RoleIDs := [] |};
     cmd.Presence := Some {| discord.PresenceUserID := id; discord.PresenceStatus := status |};
     cmd.RoleInfo := None |}.

Definition Alice : cmd.memberItem := exampleMember 1 "Alice" discord.OnlineStatus.
Definition bob : cmd.memberItem := exampleMember 2 "bob" discord.OfflineStatus.
Definition Carl : cmd.memberItem := exampleMember 3 "Carl" discord.IdleStatus.

(** Two online members whose names differ in the case of the first letter:
    as bytes, "Bea" stands before "amy". *)
Definition amy : cmd.memberItem := exampleMember 4 "amy" discord.OnlineStatus.
Definition Bea : cmd.memberItem := exampleMember 5 "Bea" discord.OnlineStatus.

(** On ASCII names the sort key is the name with A to Z lower-cased. *)
Lemma nameKey_ASCII (strs : Go.Strings) (item : cmd.memberItem) :
  Go.isASCII (cmd.sortName item) = true →
  nameKey strs item = Go.lowerASCII (cmd.sortName item).
Proof. intros Hascii. unfold nameKey. now apply Go.ToLower_ASCII. Qed.

Lemma string_compare_refl (s : string) : String.compare s s = Eq.
Proof.
  pose proof (String.compare_antisym s s) as Hanti.
  destruct (String.compare s s); simpl in Hanti; congruence.
Qed.

Lemma example_sorted (strs : Go.Strings) : StronglySorted (memberBefore strs) [Alice; Carl; bob].
Proof.
  repeat constructor; left; vm_compute; reflexivity.
Qed.

Lemma example_antisym (strs : Go.Strings) a b :
  In a [Alice; bob; Carl] → In b [Alice; bob; Carl] →
  memberBefore strs a b → memberBefore strs b a → a = b.
Proof.
  unfold memberBefore.
  intros [<-|[<-|[<-|[]]]] [<-|[<-|[<-|[]]]]; try reflexivity;
    intros [H1|[H1 _]] [H2|[H2 _]]; vm_compute in H1, H2; discriminate.
Qed.

Lemma example_case_sorted (strs : Go.Strings) : StronglySorted (memberBefore strs) [amy; Bea].
Proof.
  apply SSorted_cons; [apply SSorted_cons; [apply SSorted_nil|apply List.Forall_nil]|].
  apply List.Forall_cons; [|apply List.Forall_nil].
  right. split; [reflexivity|].
  rewrite !nameKey_ASCII by reflexivity. reflexivity.
Qed.

Lemma example_case_antisym (strs : Go.Strings) a b :
  In a [amy; Bea] → In b [amy; Bea] →
  memberBefore strs a b → memberBefore strs b a → a = b.
Proof.
  unfold memberBefore.
  intros [<-|[<-|[]]] [<-|[<-|[]]]; try reflexivity;
    intros [H1|[_ H1]] [H2|[_ H2]];
    try (vm_compute in H1; discriminate); try (vm_compute in H2; discriminate);
    rewrite !nameKey_ASCII in H1, H2 by reflexivity; vm_compute in H1, H2; discriminate.
Qed.

(** C5.  The sort of the members-list build returns the snapshot rearranged
    so that a member never stands after one of higher status rank, nor, at
    equal rank, after one whose display name, lower-cased by
    [strings.ToLower], is greater as a byte string.  Ranks: online 0, idle 1,
    do-not-disturb 2, offline and invisible 3, a missing presence counts as
    offline.  The display name is the nickname when it is set and the
    platform display name otherwise.  The comparison of names ignores case:
    at equal rank two ASCII names are compared by their bytes after A to Z
    are lower-cased, so names that differ only in case compare equal, and
    amy and Bea (both online) come out as amy, Bea although "Bea" precedes
    "amy" as bytes.  Alice (online), bob (offline), Carl (idle) come out as
    Alice, Carl, bob from every input order. *)
Theorem sortMembers_by_status_then_name
    (slices : Go.Slices) (strs : Go.Strings) (items : list cmd.memberItem) :
  let sorted := Go.SortFunc slices _ (cmd.sortMembers strs) items in
  Permutation items sorted ∧
  StronglySorted (memberBefore strs) sorted ∧
  (cmd.statusOrder discord.OnlineStatus = 0%Z ∧
   cmd.statusOrder discord.IdleStatus = 1%Z ∧
   cmd.statusOrder discord.DoNotDisturbStatus = 2%Z ∧
   cmd.statusOrder discord.OfflineStatus = 3%Z ∧
   cmd.statusOrder discord.InvisibleStatus = 3%Z) ∧
  (∀ item, cmd.Presence item = None → statusRank item = 3%Z) ∧
  (∀ item,
     cmd.sortName item =
     if String.eqb (discord.Nick (cmd.Member item)) ""
     then discord.DisplayOrUsername (discord.MemberUser (cmd.Member item))
     else discord.Nick (cmd.Member item)) ∧
  (∀ a b, statusRank a = statusRank b →
          Go.ToLower strs (cmd.sortName a) = Go.ToLower strs (cmd.sortName b) →
          cmd.sortMembers strs a b = 0%Z) ∧
  (∀ a b, statusRank a = statusRank b →
          Go.isASCII (cmd.sortName a) = true → Go.isASCII (cmd.sortName b) = true →
          cmd.sortMembers strs a b =
          Go.CompareString (Go.lowerASCII (cmd.sortName a)) (Go.lowerASCII (cmd.sortName b))) ∧
  (∀ a b, statusRank a = statusRank b →
          Go.isASCII (cmd.sortName a) = true → Go.isASCII (cmd.sortName b) = true →
          Go.lowerASCII (cmd.sortName a) = Go.lowerASCII (cmd.sortName b) →
          cmd.sortMembers strs a b = 0%Z) ∧
  (∀ input, Permutation [amy; Bea] input →
            Go.SortFunc slices _ (cmd.sortMembers strs) input = [amy; Bea]) ∧
  Go.CompareString (cmd.sortName Bea) (cmd.sortName amy) = (-1)%Z ∧
  (∀ input, Permutation [Alice; bob; Carl] input →
            Go.SortFunc slices _ (cmd.sortMembers strs) input = [Alice; Carl; bob]).
Proof.
  intros sorted.
  assert (Hsorted : ∀ l, StronglySorted (memberBefore strs)
                           (Go.SortFunc slices _ (cmd.sortMembers strs) l)).
  { intros l. eapply StronglySorted_weaken.
    2: apply Go.SortFunc_sorted, sortMembers_swo.
    intros a b Hle. now apply sortMembers_le. }
  assert (Hascii : ∀ a b, statusRank a = statusRank b →
            Go.isASCII (cmd.sortName a) = true → Go.isASCII (cmd.sortName b) = true →
            cmd.sortMembers strs a b =
            Go.CompareString (Go.lowerASCII (cmd.sortName a)) (Go.lowerASCII (cmd.sortName b))).
  { intros a b Hrank Ha Hb. rewrite sortMembers_unfold, Hrank, Z.eqb_refl.
    now rewrite !nameKey_ASCII. }
  split; [apply Go.SortFunc_perm|].
  split; [apply Hsorted|].
  split; [repeat split|].
  split; [intros item Hnone; unfold statusRank, cmd.statusOf; now rewrite Hnone|].
  split; [reflexivity|].
  split.
  { intros a b Hrank Hname. rewrite sortMembers_unfold, Hrank, Z.eqb_refl.
    unfold nameKey. now rewrite Hname, string_compare_refl. }
  split; [exact Hascii|].
  split.
  { intros a b Hrank Ha Hb Hname. rewrite (Hascii a b Hrank Ha Hb), Hname.
    unfold Go.CompareString. now rewrite string_compare_refl. }
  split.
  { intros input Hperm. symmetry.
    apply (sorted_arrangement_unique (memberBefore strs)).
    - intros a b Ha Hb. now apply example_case_antisym.
    - apply example_case_sorted.
    - apply Hsorted.
    - now rewrite <- (Go.SortFunc_perm slices). }
  split; [reflexivity|].
  intros input Hperm. symmetry.
  apply (sorted_arrangement_unique (memberBefore strs)).
  - intros a b Ha Hb. apply example_antisym.
    + destruct Ha as [<-|[<-|[<-|[]]]]; simpl; auto.
    + destruct Hb as [<-|[<-|[<-|[]]]]; simpl; auto.
  - apply example_sorted.
  - apply Hsorted.
  - rewrite <- (Go.SortFunc_perm slices), <- Hperm.
    apply perm_skip, perm_swap.
Qed.

(** ** Members list: degenerate builds and row selection *)

Lemma groupMembersByRole_nil : cmd.groupMembersByRole [] = ∅.
Proof. reflexivity. Qed.

Lemma SortFunc_nil (slices : Go.Slices) {A : Type} (cmp : A → A → Z) :
  Go.SortFunc slices A cmp [] = [].
Proof.
  apply Permutation_nil. apply Go.SortFunc_perm.
Qed.

(** The two degenerate builds, on a list that is visible and has a valid
    guild: no row at all for an empty snapshot, one error row when the
    snapshot cannot be read. *)
Definition emptySnapshotState (guildID : discord.GuildID) (base : ningen.State) : ningen.State :=
  {| ningen.Guild := ningen.Guild base; ningen.Channel := ningen.Channel base;
     ningen.Members := λ g, if (g =? guildID)%N then Some [] else ningen.Members base g;
     ningen.Presence := ningen.Presence base; ningen.Role := ningen.Role base;
     ningen.ChannelIsUnread := ningen.ChannelIsUnread base;
     ningen.GuildIsUnread := ningen.GuildIsUnread base;
     ningen.HasViewPermission := ningen.HasViewPermission base;
     ningen.PrivateChannels := ningen.PrivateChannels base;
     ningen.SearchLimit := ningen.SearchLimit base;
     ningen.SearchFrequency := ningen.SearchFrequency base |}.

Definition blankState : ningen.State :=
  {| ningen.Guild := λ _, None; ningen.Channel := λ _, None;
     ningen.Members := λ _, None;
     ningen.Presence := λ _ _, None; ningen.Role := λ _ _, None;
     ningen.ChannelIsUnread := λ _, ningen.ChannelRead;
     ningen.GuildIsUnread := λ _, ningen.ChannelRead;
     ningen.HasViewPermission := λ _, true;
     ningen.PrivateChannels := None;
     ningen.SearchLimit := 50%N;
     ningen.SearchFrequency := 1000%Z |}.

Definition plainFormat : ui.Format :=
  {| ui.ChannelToString := discord.ChannelName;
     ui.HexColorString := λ _, "#5865F2";
     ui.ColorString := λ _, "#5865F2" |}.

Definition shownList (guildID : discord.GuildID) (rows : list string) : cmd.membersList :=
  {| cmd.items := rows; cmd.currentGuildID := guildID; cmd.visible := true;
     cmd.memberItems := ∅ |}.

(** C7, as the code has it.  On a visible list with a valid guild: when the
    member snapshot is empty the rebuilt list has no row, and when the
    snapshot cannot be read the rebuilt list is the single row
    "Failed to load members". *)
Theorem rebuildList_degenerate_cases
    (slices : Go.Slices) (strs : Go.Strings) (discordState : ningen.State) (fmt : ui.Format)
    (ml : cmd.membersList) :
  discord.IsValid (cmd.currentGuildID ml) = true →
  cmd.visible ml = true →
  (ningen.Members discordState (cmd.currentGuildID ml) = Some [] →
   cmd.items (cmd.rebuildList slices strs discordState fmt ml) = []) ∧
  (ningen.Members discordState (cmd.currentGuildID ml) = None →
   cmd.items (cmd.rebuildList slices strs discordState fmt ml) = ["Failed to load members"]).
Proof.
  intros Hvalid Hvisible. unfold cmd.rebuildList. rewrite Hvalid, Hvisible. simpl.
  split; intros ->.
  - unfold cmd.buildMemberItems. simpl.
    rewrite SortFunc_nil, groupMembersByRole_nil, map_to_list_empty. simpl.
    rewrite SortFunc_nil. reflexivity.
  - reflexivity.
Qed.

Lemma rebuildList_degenerate_cases_witness :
  cmd.items (cmd.rebuildList Go.insertionSlices Go.asciiStrings (emptySnapshotState 7 blankState) plainFormat
               (shownList 7 ["stale row"])) = [] ∧
  cmd.items (cmd.rebuildList Go.insertionSlices Go.asciiStrings blankState plainFormat
               (shownList 7 ["stale row"])) = ["Failed to load members"].
Proof.
  split.
  - apply (rebuildList_degenerate_cases Go.insertionSlices Go.asciiStrings (emptySnapshotState 7 blankState)
             plainFormat (shownList 7 ["stale row"])); reflexivity.
  - apply (rebuildList_degenerate_cases Go.insertionSlices Go.asciiStrings blankState
             plainFormat (shownList 7 ["stale row"])); reflexivity.
Defined.

(** C7 as stated fails on the empty snapshot: the rebuilt list has no row,
    not one explanatory row. *)
Lemma rebuildList_empty_snapshot_has_no_row :
  ningen.Members (emptySnapshotState 7 blankState) 7%N = Some [] ∧
  length (cmd.items (cmd.rebuildList Go.insertionSlices Go.asciiStrings (emptySnapshotState 7 blankState)
                       plainFormat (shownList 7 []))) = 0.
Proof. split; reflexivity. Qed.

(** The name a member row shows. *)
Definition shownName (item : cmd.memberItem) : string :=
  if negb (String.eqb (discord.Nick (cmd.Member item)) "")
  then discord.Nick (cmd.Member item)
  else discord.DisplayOrUsername (discord.MemberUser (cmd.Member item)).

Lemma prefix_empty s : String.prefix "" s = true.
Proof. now destruct s. Qed.

Lemma prefix_append x : ∀ s t, String.prefix x s = true → String.prefix x (s +:+ t) = true.
Proof.
  induction x as [|c x IH]; intros s t H; [apply prefix_empty|].
  destruct s as [|d s]; simpl in *; [discriminate|].
  destruct (ascii_dec c d); [now apply IH|discriminate].
Qed.

Lemma Contains_append_l s : ∀ t x, Go.Contains s x = true → Go.Contains (s +:+ t) x = true.
Proof.
  induction s as [|c s IH]; intros t x H; simpl in *.
  - rewrite orb_false_r in H. destruct x; [|discriminate].
    now destruct t.
  - apply orb_true_iff in H as [H|H]; apply orb_true_iff.
    + left. now apply (prefix_append x (String c s) t).
    + right. now apply IH.
Qed.

Lemma Contains_append_r s : ∀ t x, Go.Contains t x = true → Go.Contains (s +:+ t) x = true.
Proof.
  induction s as [|c s IH]; intros t x H; simpl; [exact H|].
  apply orb_true_iff. right. now apply IH.
Qed.

Lemma roleHeader_has_glyph roleName : Go.Contains (cmd.roleHeader roleName) "─" = true.
Proof. reflexivity. Qed.

Lemma formatMemberText_keeps_glyph fmt item :
  Go.Contains (shownName item) "─" = true →
  Go.Contains (cmd.formatMemberText fmt item) "─" = true.
Proof.
  intros Hname. unfold cmd.formatMemberText. fold (shownName item).
  assert (Hbody :
    Go.Contains
      match cmd.RoleInfo item with
      | Some role =>
          if negb (discord.Color role =? 0)%Z
          then "[" +:+ ui.HexColorString fmt (discord.Color role) +:+ "]" +:+
               shownName item +:+ "[-]"
          else shownName item
      | None => shownName item
      end "─" = true).
  { destruct (cmd.RoleInfo item) as [role|]; [|exact Hname].
    destruct (negb (discord.Color role =? 0)%Z); [|exact Hname].
    do 3 apply Contains_append_r. now apply Contains_append_l. }
  destruct (_ || _).
  - apply Contains_append_r, Contains_append_l. do 2 apply Contains_append_r. exact Hbody.
  - do 2 apply Contains_append_r. exact Hbody.
Qed.

Lemma indexed_user_found (m : gmap N Z) (index : Z) (u : N) :
  m !! u = Some index →
  (∀ u', m !! u' = Some index → u' = u) →
  match List.filter (λ kv : N * Z, (snd kv =? index)%Z) (map_to_list m) with
  | (id, _) :: _ => id
  | [] => 0%N
  end = u.
Proof.
  intros Hu Huniq.
  destruct (List.filter _ _) as [|[id v] rest] eqn:Hf.
  - assert (Hin : In (u, index) (List.filter (λ kv : N * Z, (snd kv =? index)%Z) (map_to_list m))).
    { apply filter_In. split; [|simpl; apply Z.eqb_refl].
      apply list_elem_of_In, elem_of_map_to_list. exact Hu. }
    rewrite Hf in Hin. destruct Hin.
  - assert (Hin : In (id, v) (List.filter (λ kv : N * Z, (snd kv =? index)%Z) (map_to_list m)))
      by (rewrite Hf; now left).
    apply filter_In in Hin as [Hin Hv]. simpl in Hv. apply Z.eqb_eq in Hv as ->.
    apply Huniq. apply elem_of_map_to_list, list_elem_of_In. exact Hin.
Qed.

(** C4, as the code has it.  A row is taken for a role header when its text
    contains the glyph: selecting such a row does nothing.  Header rows
    contain the glyph, and so does the row of a member whose shown name
    contains it.  Selecting a row without the glyph that the index cache
    gives to exactly one user, of valid id, initiates a DM with that user. *)
Theorem onSelected_skips_rows_with_glyph (fmt : ui.Format) (ml : cmd.membersList) (index : Z) :
  (Go.Contains (nth (Z.to_nat index) (cmd.items ml) "") "─" = true →
   cmd.onSelected ml index = []) ∧
  (∀ roleName, Go.Contains (cmd.roleHeader roleName) "─" = true) ∧
  (∀ item, Go.Contains (shownName item) "─" = true →
           Go.Contains (cmd.formatMemberText fmt item) "─" = true) ∧
  (∀ userID,
     (0 ≤ index < Z.of_nat (length (cmd.items ml)))%Z →
     Go.Contains (nth (Z.to_nat index) (cmd.items ml) "") "─" = false →
     cmd.memberItems ml !! userID = Some index →
     (∀ u', cmd.memberItems ml !! u' = Some index → u' = userID) →
     discord.IsValid userID = true →
     cmd.onSelected ml index = [cmd.InitiateDM userID]).
Proof.
  split; [|split; [|split]].
  - intros Hglyph. unfold cmd.onSelected. destruct (_ || _); [reflexivity|].
    now rewrite Hglyph.
  - apply roleHeader_has_glyph.
  - apply formatMemberText_keeps_glyph.
  - intros userID Hrange Hplain Hidx Huniq Hvalid. unfold cmd.onSelected.
    replace ((index <? 0)%Z || (Z.of_nat (length (cmd.items ml)) <=? index)%Z) with false
      by (symmetry; apply orb_false_iff; split; [apply Z.ltb_ge|apply Z.leb_gt]; lia).
    rewrite Hplain, (indexed_user_found _ _ _ Hidx Huniq), Hvalid. reflexivity.
Qed.

(** A guild with two members without roles: one named "Ann", one whose
    nickname holds the glyph. *)
Definition glyphGuildState : ningen.State :=
  {| ningen.Guild := λ _, None; ningen.Channel := λ _, None;
     ningen.Members := λ _,
       Some [ {| discord.MemberUser :=
                   {| discord.UserID_ := 5; discord.Username := "box";
                      discord.DisplayName := "" |};
                 discord.Nick := "a─b"; discord.RoleIDs := [] |};
              {| discord.MemberUser :=
                   {| discord.UserID_ := 6; discord.Username := "ann";
                      discord.DisplayName := "Ann" |};
                 discord.Nick := ""; discord.RoleIDs := [] |} ];
     ningen.Presence := λ _ userID,
       Some {| discord.PresenceUserID := userID; discord.PresenceStatus := discord.OnlineStatus |};
     ningen.Role := λ _ _, None;
     ningen.ChannelIsUnread := λ _, ningen.ChannelRead;
     ningen.GuildIsUnread := λ _, ningen.ChannelRead;
     ningen.HasViewPermission := λ _, true;
     ningen.PrivateChannels := None;
     ningen.SearchLimit := 50%N;
     ningen.SearchFrequency := 1000%Z |}.

Definition glyphGuildList : cmd.membersList :=
  cmd.rebuildList Go.insertionSlices Go.asciiStrings glyphGuildState plainFormat (shownList 7 []).

Lemma onSelected_skips_rows_with_glyph_witness :
  cmd.onSelected glyphGuildList 0 = [] ∧
  cmd.onSelected glyphGuildList 2 = [] ∧
  cmd.onSelected glyphGuildList 1 = [cmd.InitiateDM 6].
Proof.
  pose proof (onSelected_skips_rows_with_glyph plainFormat glyphGuildList) as H.
  split; [|split].
  - apply (H 0%Z). reflexivity.
  - apply (H 2%Z). reflexivity.
  - apply (H 1%Z); try reflexivity.
    + split; vm_compute; congruence.
    + intros u' Hu'.
      assert (Hin : (u', 1%Z) ∈ map_to_list (cmd.memberItems glyphGuildList))
        by now apply elem_of_map_to_list.
      vm_compute in Hin. apply list_elem_of_In in Hin.
      destruct Hin as [Heq|[Heq|[]]]; congruence.
Defined.

(** C4 as stated fails: the row of the member whose nickname holds the glyph
    is row 2 of the built list, the index cache gives row 2 to that member,
    and selecting row 2 initiates no DM. *)
Lemma onSelected_skips_member_named_with_glyph :
  cmd.items glyphGuildList =
    ["─ No Role ─"; "[green::b]•[-:-:-] Ann"; "[green::b]•[-:-:-] a─b"] ∧
  cmd.memberItems glyphGuildList !! 5%N = Some 2%Z ∧
  discord.IsValid 5 = true ∧
  cmd.onSelected glyphGuildList 2 = [].
Proof. repeat split; vm_compute; reflexivity. Qed.

(** ** Member search *)

Lemma dropLast_append_byte s c : Go.dropLast (s +:+ String c "") = s.
Proof.
  induction s as [|d s IH]; [reflexivity|].
  change (String d s +:+ String c "") with (String d (s +:+ String c "")).
  destruct (s +:+ String c "") as [|e rest] eqn:Happ.
  - destruct s; discriminate.
  - change (Go.dropLast (String d (String e rest)))
      with (String d (Go.dropLast (String e rest))).
    now rewrite IH.
Qed.

Lemma append_assoc (a b c : string) : (a +:+ b) +:+ c = a +:+ (b +:+ c).
Proof.
  induction a as [|x a IH]; [reflexivity|].
  change (String x ((a +:+ b) +:+ c) = String x (a +:+ (b +:+ c))). now rewrite IH.
Qed.

(** The key of a query one byte longer, cut by one byte, is the key of the
    query. *)
Lemma searchKey_dropLast gID prefix c :
  Go.dropLast (cmd.searchKey gID (prefix +:+ String c "")) = cmd.searchKey gID prefix.
Proof.
  unfold cmd.searchKey.
  rewrite <- (append_assoc " " prefix), <- (append_assoc (discord.SnowflakeString gID)).
  apply dropLast_append_byte.
Qed.

Lemma cache_Exists_true (c : gmap string N) key v : c !! key = Some v → cache.Exists c key = true.
Proof. intros H. unfold cache.Exists. apply bool_decide_eq_true. now exists v. Qed.

Lemma cache_Exists_false (c : gmap string N) key : c !! key = None → cache.Exists c key = false.
Proof.
  intros H. unfold cache.Exists. apply bool_decide_eq_false. rewrite H. now intros [? ?].
Qed.

(** C6, as the code has it.  When the search for the query without its last
    byte is cached with fewer results than the search limit, searching the
    query asks the gateway for nothing and leaves the time of the last search
    alone; the count of the shorter query is stored under the key of the
    query, unless that key is cached already, and then the cache is left as
    it is. *)
Theorem searchMember_prefix_hit_issues_no_fetch
    (discordState : ningen.State) (now now' : Z) (chunk : N)
    (gID : discord.GuildID) (prefix : string) (last : ascii)
    (mi : cmd.messageInput) (count : N) :
  cmd.cache mi !! cmd.searchKey gID prefix = Some count →
  (count < ningen.SearchLimit discordState)%N →
  let name := prefix +:+ String last "" in
  let result := cmd.searchMember discordState now now' chunk gID name mi in
  snd result = [] ∧
  cmd.lastSearch (fst result) = cmd.lastSearch mi ∧
  cmd.cache (fst result) =
    match cmd.cache mi !! cmd.searchKey gID name with
    | Some _ => cmd.cache mi
    | None => <[cmd.searchKey gID name := count]> (cmd.cache mi)
    end.
Proof.
  intros Hprefix Hlimit name result. subst result. unfold cmd.searchMember.
  destruct (cmd.cache mi !! cmd.searchKey gID name) as [v|] eqn:Hkey.
  - rewrite (cache_Exists_true _ _ _ Hkey). auto.
  - rewrite (cache_Exists_false _ _ Hkey). unfold name.
    rewrite searchKey_dropLast, (cache_Exists_true _ _ _ Hprefix).
    unfold cache.Get. rewrite Hprefix. simpl.
    apply N.ltb_lt in Hlimit. rewrite Hlimit. simpl. auto.
Qed.

Definition searchedAb : cmd.messageInput :=
  {| cmd.cache := {[ "1 ab" := 3%N ]}; cmd.lastSearch := 0%Z |}.

Lemma searchMember_prefix_hit_issues_no_fetch_witness :
  snd (cmd.searchMember blankState 5 6 9 1 "abc" searchedAb) = [] ∧
  cmd.cache (fst (cmd.searchMember blankState 5 6 9 1 "abc" searchedAb)) =
    <["1 abc" := 3%N]> (cmd.cache searchedAb).
Proof.
  destruct (searchMember_prefix_hit_issues_no_fetch blankState 5 6 9 1 "ab" "c" searchedAb 3)
    as (Hfetch & _ & Hcache).
  - reflexivity.
  - reflexivity.
  - split; [exact Hfetch|exact Hcache].
Defined.

(** C6 as stated fails where the longer query is cached already: "abc" was
    searched first and gave 2 members, "ab" later and gave 5, below the limit
    of 50.  Searching "abc" again asks the gateway for nothing, but the count
    under "abc" stays 2: the count of "ab" is not copied. *)
Definition searchedAbcThenAb : cmd.messageInput :=
  {| cmd.cache := <[ "1 ab" := 5%N ]> {[ "1 abc" := 2%N ]}; cmd.lastSearch := 0%Z |}.

Lemma searchMember_keeps_cached_longer_key :
  cmd.cache searchedAbcThenAb !! cmd.searchKey 1 "ab" = Some 5%N ∧
  (5 < ningen.SearchLimit blankState)%N ∧
  snd (cmd.searchMember blankState 5 6 9 1 "abc" searchedAbcThenAb) = [] ∧
  cmd.cache (fst (cmd.searchMember blankState 5 6 9 1 "abc" searchedAbcThenAb))
    !! cmd.searchKey 1 "abc" = Some 2%N.
Proof. repeat split; vm_compute; reflexivity. Qed.

(** ** The Ready handler *)

Lemma createGuildNode_initialized discordState n guild app :
  cmd.guildsTreeInitialized (cmd.createGuildNode discordState n guild app) =
  cmd.guildsTreeInitialized app.
Proof. reflexivity. Qed.

Lemma createFolderNode_initialized discordState fmt cfg folder app :
  cmd.guildsTreeInitialized (cmd.createFolderNode discordState fmt cfg folder app) =
  cmd.guildsTreeInitialized app.
Proof.
  unfold cmd.createFolderNode.
  set (folderNode := tview.SetExpanded _ _).
  set (app1 := cmd.addNewChild _ _ app).
  change (cmd.guildsTreeInitialized app) with (cmd.guildsTreeInitialized app1).
  generalize app1. clear app1.
  induction (gateway.FolderGuildIDs folder) as [|gID ids IH]; intros app1; simpl;
    [reflexivity|].
  rewrite IH. now destruct (ningen.Guild discordState gID).
Qed.

Lemma onReady_initialized discordState fmt cfg r app :
  cmd.guildsTreeInitialized (cmd.onReady discordState fmt cfg r app) = true.
Proof.
  unfold cmd.onReady. destruct (cmd.guildsTreeInitialized app) eqn:Hinit; [exact Hinit|].
  simpl.
  match goal with
  | |- cmd.guildsTreeInitialized (fold_left ?f _ ?a) = true =>
      assert (Hfold : ∀ folders app1, cmd.guildsTreeInitialized app1 = true →
                cmd.guildsTreeInitialized (fold_left f folders app1) = true)
  end.
  { induction folders as [|folder folders IH]; intros app1 H1; simpl; [exact H1|].
    apply IH. destruct (_ && _).
    - destruct (ningen.Guild discordState _); [|exact H1].
      now rewrite createGuildNode_initialized.
    - now rewrite createFolderNode_initialized. }
  now apply Hfold.
Qed.

Lemma handle_initialized discordState fmt cfg app e :
  cmd.guildsTreeInitialized app = true →
  cmd.guildsTreeInitialized (cmd.handle discordState fmt cfg app e) = true.
Proof.
  intros Hinit. destruct e as [r|c|m|u]; simpl.
  - apply onReady_initialized.
  - unfold cmd.onChannelCreate. destruct (negb _); [exact Hinit|].
    destruct (cmd.findDirectMessages _); [|exact Hinit].
    destruct (cmd.find _ _); [exact Hinit|].
    unfold cmd.createChannelNode. now destruct (_ && _).
  - unfold cmd.onMessageCreate, cmd.updateDMStyleAndMove, cmd.moveDMToTopOnMessage,
      cmd.updateChannelStyle.
    repeat match goal with
           | |- context [match ?x with _ => _ end] => destruct x; simpl; try exact Hinit
           end.
  - unfold cmd.onReadUpdate.
    destruct (tview.Walk _ _ _ _) as [root1 [guildNode found]].
    destruct guildNode as [g|]; [destruct (tview.expanded g)|]; exact Hinit.
Qed.

Lemma run_initialized fmt cfg events :
  ∀ app, cmd.guildsTreeInitialized app = true →
         cmd.guildsTreeInitialized (cmd.run fmt cfg events app) = true.
Proof.
  induction events as [|e events IH]; intros app Hinit; simpl; [exact Hinit|].
  apply IH. now apply handle_initialized.
Qed.

(** C9.  Only the first Ready event builds the tree.  In every run of the
    client, whatever events come before the first Ready event and between it
    and a later one, the handler of the later Ready event returns the state
    it was given: the root and all nodes below it are as before. *)
Theorem onReady_after_first_changes_nothing
    (fmt : ui.Format) (cfg : config.Config)
    (before between : list (ningen.State * cmd.Event))
    (s1 s2 : ningen.State) (first later : gateway.ReadyEvent) (app : cmd.App) :
  let reached := cmd.run fmt cfg (before ++ (s1, cmd.Ready first) :: between) app in
  cmd.onReady s2 fmt cfg later reached = reached ∧
  cmd.root (cmd.onReady s2 fmt cfg later reached) = cmd.root reached.
Proof.
  intros reached.
  assert (Hinit : cmd.guildsTreeInitialized reached = true).
  { subst reached. unfold cmd.run. rewrite fold_left_app. simpl.
    apply (run_initialized fmt cfg between). apply onReady_initialized. }
  assert (Hsame : cmd.onReady s2 fmt cfg later reached = reached).
  { unfold cmd.onReady. now rewrite Hinit. }
  split; [exact Hsame|now rewrite Hsame].
Qed.

(** A client that has not seen a Ready event yet: the tree is the empty root
    that [newGuildsTree] sets. *)
Definition freshApp : cmd.App :=
  {| cmd.root := tview.NewTreeNode 1 ""; cmd.currentNode := None;
     cmd.selectedChannel := None; cmd.guildsTreeInitialized := false;
     cmd.nextAddr := 2%positive; cmd.effects := [] |}.

Definition oneGuildState : ningen.State :=
  {| ningen.Guild := λ g, if (g =? 40)%N
                          then Some {| discord.GuildID_ := 40; discord.GuildName := "C1" |}
                          else None;
     ningen.Channel := λ _, None; ningen.Members := λ _, None;
     ningen.Presence := λ _ _, None; ningen.Role := λ _ _, None;
     ningen.ChannelIsUnread := λ _, ningen.ChannelRead;
     ningen.GuildIsUnread := λ _, ningen.ChannelUnread;
     ningen.HasViewPermission := λ _, true;
     ningen.PrivateChannels := None;
     ningen.SearchLimit := 50%N;
     ningen.SearchFrequency := 1000%Z |}.

Definition oneGuildReady : gateway.ReadyEvent :=
  {| gateway.GuildFolders :=
       [ {| gateway.FolderID := 0; gateway.FolderName := ""; gateway.FolderColor := 0;
            gateway.FolderGuildIDs := [40%N] |} ] |}.

Definition defaultConfig : config.Config := {| config.AutoExpandFolders := true |}.

(** The first Ready event, with one community outside any folder, builds the
    root with the Direct Messages node and the node of the community. *)
Example onReady_first_builds_tree :
  cmd.root (cmd.onReady oneGuildState plainFormat defaultConfig oneGuildReady freshApp) =
  tview.mkTreeNode 1 "" tview.RefNil tcell.StyleDefault true
    [ tview.mkTreeNode 2 "Direct Messages" tview.RefNil tcell.StyleDefault true [];
      tview.mkTreeNode 3 "C1" (tview.RefGuild 40)
        (tcell.Bold tcell.StyleDefault true) true [] ].
Proof. reflexivity. Qed.

(** ** Promotion of a child *)

Lemma SetChildren_SetChildren cs cs' n :
  tview.SetChildren cs (tview.SetChildren cs' n) = tview.SetChildren cs n.
Proof. reflexivity. Qed.

Lemma SetChildren_children n : tview.SetChildren (tview.children n) n = n.
Proof. now destruct n. Qed.

(** Removing the children one by one, along a snapshot, empties the front of
    the child list. *)
Lemma remove_snapshot (snapshot : list tview.TreeNode) :
  ∀ n rest,
    tview.children n = snapshot ++ rest →
    fold_left (λ n child, tview.RemoveChild (tview.address child) n) snapshot n =
    tview.SetChildren rest n.
Proof.
  induction snapshot as [|c snapshot IH]; intros n rest Hch; simpl.
  - simpl in Hch. rewrite <- Hch. symmetry. apply SetChildren_children.
  - rewrite (IH _ rest).
    + apply SetChildren_SetChildren.
    + unfold tview.RemoveChild. rewrite Hch. simpl. now rewrite Pos.eqb_refl.
Qed.

(** Adding back the children of the snapshot that are not the node [p]. *)
Lemma add_back_snapshot (p : tview.addr) (snapshot : list tview.TreeNode) :
  ∀ n,
    fold_left
      (λ n child,
         if negb (tview.address child =? p)%positive then tview.AddChild child n else n)
      snapshot n =
    tview.SetChildren
      (tview.children n ++
       List.filter (λ child, negb (tview.address child =? p)%positive) snapshot) n.
Proof.
  induction snapshot as [|c snapshot IH]; intros n; simpl.
  - rewrite app_nil_r. symmetry. apply SetChildren_children.
  - rewrite IH. destruct (negb (tview.address c =? p)%positive); [|reflexivity].
    unfold tview.AddChild. rewrite SetChildren_SetChildren. simpl.
    now rewrite <- app_assoc.
Qed.

Lemma indexOfChild_found (p : tview.addr) (pre : list tview.TreeNode) :
  ∀ c post i,
    tview.address c = p →
    ¬ In p (List.map tview.address pre) →
    cmd.indexOfChild p (pre ++ c :: post) i = Some (i + length pre, c).
Proof.
  induction pre as [|d pre IH]; intros c post i Hc Hpre; simpl.
  - rewrite Hc, Pos.eqb_refl. do 2 f_equal. lia.
  - simpl in Hpre. destruct (Pos.eqb_spec (tview.address d) p) as [Heq|Hne].
    + exfalso. apply Hpre. now left.
    + rewrite IH; [|exact Hc|tauto]. do 2 f_equal. lia.
Qed.

Lemma filter_others (p : tview.addr) (l : list tview.TreeNode) :
  ¬ In p (List.map tview.address l) →
  List.filter (λ child, negb (tview.address child =? p)%positive) l = l.
Proof.
  induction l as [|d l IH]; intros Hl; simpl; [reflexivity|].
  simpl in Hl. destruct (Pos.eqb_spec (tview.address d) p) as [Heq|Hne]; simpl.
  - exfalso. apply Hl. now left.
  - rewrite IH; [reflexivity|tauto].
Qed.

(** What [promoteChild] computes when the node is a child, once. *)
Lemma promoteChild_children (parent : tview.TreeNode) (pre post : list tview.TreeNode)
    (c : tview.TreeNode) :
  tview.children parent = pre ++ c :: post →
  List.NoDup (List.map tview.address (tview.children parent)) →
  cmd.promoteChild (tview.address c) parent = tview.SetChildren (c :: pre ++ post) parent.
Proof.
  intros Hch Hnodup. rewrite Hch, map_app in Hnodup. simpl in Hnodup.
  apply NoDup_remove in Hnodup as [Hnodup Hnotin].
  assert (Hpre : ¬ In (tview.address c) (List.map tview.address pre))
    by (intros H; apply Hnotin, in_or_app; now left).
  assert (Hpost : ¬ In (tview.address c) (List.map tview.address post))
    by (intros H; apply Hnotin, in_or_app; now right).
  unfold cmd.promoteChild.
  rewrite Hch, (indexOfChild_found (tview.address c) pre c post 0 eq_refl Hpre).
  destruct pre as [|d pre]; simpl length.
  - simpl in *. rewrite <- Hch. symmetry. apply SetChildren_children.
  - cbv beta iota zeta.
    rewrite (remove_snapshot ((d :: pre) ++ c :: post) parent []).
    2: now rewrite app_nil_r.
    rewrite add_back_snapshot. unfold tview.AddChild.
    rewrite !SetChildren_SetChildren. f_equal.
    cbn [tview.children tview.SetChildren app].
    change (d :: pre ++ c :: post) with ((d :: pre) ++ c :: post).
    rewrite List.filter_app, (filter_others _ (d :: pre) Hpre).
    cbn [List.filter]. rewrite Pos.eqb_refl. cbn [negb].
    rewrite (filter_others _ post Hpost). reflexivity.
Qed.

Definition dmLeaf (a : tview.addr) (name : string) (c : discord.ChannelID) : tview.TreeNode :=
  tview.mkTreeNode a name (tview.RefChannel c) tcell.StyleDefault true [].

Definition nodeA : tview.TreeNode := dmLeaf 11 "A" 101.
Definition nodeB : tview.TreeNode := dmLeaf 12 "B" 102.
Definition nodeC : tview.TreeNode := dmLeaf 13 "C" 103.
Definition nodeD : tview.TreeNode := dmLeaf 14 "D" 104.

Definition dmGroupABCD : tview.TreeNode :=
  tview.mkTreeNode 2 "Direct Messages" tview.RefNil tcell.StyleDefault true
    [nodeA; nodeB; nodeC; nodeD].

(** C2.  Promoting a child [c] of a parent whose children are distinct nodes
    leaves the parent with [c] first and the other children behind it in
    their order: a rearrangement of the same children, and nothing else of
    the parent changes.  Promoting the first child changes nothing.
    Promoting C in [A, B, C, D] gives [C, A, B, D]. *)
Theorem promoteChild_moves_child_to_front
    (parent : tview.TreeNode) (pre post : list tview.TreeNode) (c : tview.TreeNode) :
  tview.children parent = pre ++ c :: post →
  List.NoDup (List.map tview.address (tview.children parent)) →
  let promoted := cmd.promoteChild (tview.address c) parent in
  tview.children promoted = c :: pre ++ post ∧
  Permutation (tview.children parent) (tview.children promoted) ∧
  promoted = tview.SetChildren (c :: pre ++ post) parent ∧
  (pre = [] → promoted = parent) ∧
  tview.children (cmd.promoteChild (tview.address nodeC) dmGroupABCD) =
    [nodeC; nodeA; nodeB; nodeD].
Proof.
  intros Hch Hnodup promoted. subst promoted.
  rewrite (promoteChild_children parent pre post c Hch Hnodup).
  split; [reflexivity|]. split; [|split; [reflexivity|split]].
  - rewrite Hch. simpl. symmetry. apply Permutation_middle.
  - intros ->. simpl in *. rewrite <- Hch. apply SetChildren_children.
  - reflexivity.
Qed.

Lemma promoteChild_moves_child_to_front_witness :
  tview.children (cmd.promoteChild 14 dmGroupABCD) = [nodeD; nodeA; nodeB; nodeC] ∧
  cmd.promoteChild 11 dmGroupABCD = dmGroupABCD.
Proof.
  assert (Hnodup : List.NoDup (List.map tview.address (tview.children dmGroupABCD))).
  { simpl. repeat (constructor; [simpl; intuition discriminate|]). constructor. }
  split.
  - apply (promoteChild_moves_child_to_front dmGroupABCD [nodeA; nodeB; nodeC] [] nodeD);
      [reflexivity|exact Hnodup].
  - apply (promoteChild_moves_child_to_front dmGroupABCD [] [nodeB; nodeC; nodeD] nodeA);
      [reflexivity|exact Hnodup|reflexivity].
Defined.

(** ** The tree: induction, walks and pointer writes *)

(** Induction on a tree, with the property known of all children. *)
Lemma TreeNode_children_ind (P : tview.TreeNode → Prop) :
  (∀ a tx r st e cs, Forall P cs → P (tview.mkTreeNode a tx r st e cs)) →
  ∀ n, P n.
Proof.
  intros Hnode. fix IH 1. intros [a tx r st e cs]. apply Hnode.
  induction cs as [|c cs IHcs]; constructor; [apply IH|exact IHcs].
Qed.

Lemma Walk_unfold {S : Type} (cb : tview.TreeNode → option tview.addr → S → S * tcell.Style * bool)
    (n : tview.TreeNode) (parent : option tview.addr) (s : S) :
  tview.Walk cb n parent s =
  let '(s1, st1, descend) := cb n parent s in
  if descend then
    let '(cs', s2) := tview.walkChildren cb (tview.address n) (tview.children n) s1 in
    (tview.SetChildren cs' (tview.SetTextStyle st1 n), s2)
  else (tview.SetTextStyle st1 n, s1).
Proof.
  destruct n as [a tx r st e cs]. simpl.
  destruct (cb _ parent s) as [[s1 st1] descend]. destruct descend; [|reflexivity].
  match goal with
  | |- (let '(_, _) := ?F cs s1 in _) = _ =>
      assert (Hsame : ∀ l s0, F l s0 = tview.walkChildren cb a l s0)
  end.
  { induction l as [|c l IHl]; intros s0; simpl; [reflexivity|].
    destruct (tview.Walk cb c (Some a) s0) as [c' s']. now rewrite IHl. }
  now rewrite Hsame.
Qed.

(** The nodes and addresses of a tree. *)
Definition nodesOf (cs : list tview.TreeNode) : list tview.TreeNode :=
  List.concat (List.map tview.nodes cs).

Lemma nodes_unfold n : tview.nodes n = n :: nodesOf (tview.children n).
Proof. now destruct n. Qed.

Lemma nodesOf_cons c cs : nodesOf (c :: cs) = tview.nodes c ++ nodesOf cs.
Proof. reflexivity. Qed.

Lemma nodesOf_app l1 l2 : nodesOf (l1 ++ l2) = nodesOf l1 ++ nodesOf l2.
Proof. unfold nodesOf. now rewrite List.map_app, List.concat_app. Qed.

Lemma modify_unfold p f n :
  tview.modify p f n =
  let n' := tview.SetChildren (List.map (tview.modify p f) (tview.children n)) n in
  if (tview.address n =? p)%positive then f n' else n'.
Proof. now destruct n. Qed.

(** A write through a pointer the tree does not hold changes nothing. *)
Lemma modify_absent p f :
  ∀ n, ¬ In p (tview.addresses n) → tview.modify p f n = n.
Proof.
  induction n as [a tx r st e cs IH] using TreeNode_children_ind. intros Hp.
  unfold tview.addresses in Hp. rewrite nodes_unfold in Hp. simpl in Hp.
  rewrite modify_unfold. simpl.
  assert (Hcs : List.map (tview.modify p f) cs = cs).
  { assert (Hp' : ¬ In p (List.map tview.address (nodesOf cs))) by tauto.
    clear Hp. induction cs as [|c cs IHcs]; simpl; [reflexivity|].
    rewrite nodesOf_cons, List.map_app in Hp'.
    apply Forall_inv in IH as Hc. apply Forall_inv_tail in IH.
    rewrite Hc, IHcs; [reflexivity|exact IH|..].
    - intros H. apply Hp', in_or_app. now right.
    - intros H. apply Hp', in_or_app. now left. }
  unfold tview.SetChildren. simpl. rewrite Hcs.
  destruct (Pos.eqb_spec a p) as [->|_]; [|reflexivity]. tauto.
Qed.

Lemma modify_absent_list p f cs :
  ¬ In p (List.map tview.address (nodesOf cs)) → List.map (tview.modify p f) cs = cs.
Proof.
  induction cs as [|c cs IH]; intros Hp; simpl; [reflexivity|].
  rewrite nodesOf_cons, List.map_app in Hp.
  rewrite modify_absent, IH; [reflexivity|..].
  - intros H. apply Hp, in_or_app. now right.
  - intros H. apply Hp, in_or_app. now left.
Qed.

(** Dereferencing. *)
Fixpoint derefList (p : tview.addr) (l : list tview.TreeNode) : option tview.TreeNode :=
  match l with
  | [] => None
  | c :: l' => match tview.deref p c with Some n => Some n | None => derefList p l' end
  end.

Lemma deref_unfold p n :
  tview.deref p n =
  if (tview.address n =? p)%positive then Some n else derefList p (tview.children n).
Proof.
  destruct n as [a tx r st e cs]. simpl. destruct (a =? p)%positive; [reflexivity|].
  induction cs as [|c cs IH]; simpl; [reflexivity|]. now rewrite IH.
Qed.

Lemma deref_absent p :
  ∀ n, ¬ In p (tview.addresses n) → tview.deref p n = None.
Proof.
  induction n as [a tx r st e cs IH] using TreeNode_children_ind. intros Hp.
  unfold tview.addresses in Hp. rewrite nodes_unfold in Hp. simpl in Hp.
  rewrite deref_unfold. simpl.
  destruct (Pos.eqb_spec a p) as [->|_]; [tauto|].
  assert (Hp' : ¬ In p (List.map tview.address (nodesOf cs))) by tauto. clear Hp.
  induction cs as [|c cs IHcs]; simpl; [reflexivity|].
  rewrite nodesOf_cons, List.map_app in Hp'.
  apply Forall_inv in IH as Hc. apply Forall_inv_tail in IH.
  rewrite Hc, IHcs; [reflexivity|exact IH|..].
  - intros H. apply Hp', in_or_app. now right.
  - intros H. apply Hp', in_or_app. now left.
Qed.

Lemma derefList_absent p cs :
  ¬ In p (List.map tview.address (nodesOf cs)) → derefList p cs = None.
Proof.
  induction cs as [|c cs IH]; intros Hp; simpl; [reflexivity|].
  rewrite nodesOf_cons, List.map_app in Hp.
  rewrite deref_absent, IH; [reflexivity|..].
  - intros H. apply Hp, in_or_app. now right.
  - intros H. apply Hp, in_or_app. now left.
Qed.

Lemma NoDup_app_disjoint {A : Type} (l1 l2 : list A) (a : A) :
  List.NoDup (l1 ++ l2) → In a l1 → In a l2 → False.
Proof.
  intros Hnodup H1 H2. apply in_split in H2 as (x & y & ->).
  rewrite app_assoc in Hnodup. apply NoDup_remove_2 in Hnodup.
  apply Hnodup. apply in_or_app. left. apply in_or_app. now left.
Qed.

(** With distinct addresses, a pointer to a node of the tree dereferences to
    that node. *)
Lemma deref_node :
  ∀ t n, List.NoDup (tview.addresses t) → In n (tview.nodes t) →
         tview.deref (tview.address n) t = Some n.
Proof.
  induction t as [a tx r st e cs IH] using TreeNode_children_ind. intros n Hnodup Hin.
  unfold tview.addresses in Hnodup. rewrite nodes_unfold in Hnodup, Hin.
  simpl in Hnodup, Hin. rewrite deref_unfold. simpl.
  apply NoDup_cons_iff in Hnodup as [Ha Hnodup].
  destruct Hin as [<-|Hin]; [simpl; now rewrite Pos.eqb_refl|].
  destruct (Pos.eqb_spec a (tview.address n)) as [Heq|_].
  { exfalso. apply Ha. rewrite Heq. now apply in_map. }
  clear Ha. induction cs as [|c cs IHcs]; simpl; [destruct Hin|].
  rewrite nodesOf_cons in Hin, Hnodup. rewrite List.map_app in Hnodup.
  apply Forall_inv in IH as Hc. apply Forall_inv_tail in IH.
  apply in_app_or in Hin as [Hin|Hin].
  - rewrite (Hc n); [reflexivity| |exact Hin].
    eapply NoDup_app_remove_r. exact Hnodup.
  - rewrite deref_absent.
    + apply IHcs; [exact IH| |exact Hin]. eapply NoDup_app_remove_l. exact Hnodup.
    + intros Hc'. eapply NoDup_app_disjoint; [exact Hnodup|exact Hc'|].
      now apply in_map.
Qed.

(** The nodes of a subtree stand together among the nodes of the tree. *)
Lemma nodes_of_node :
  ∀ t n, In n (tview.nodes t) → ∃ l1 l2, tview.nodes t = l1 ++ tview.nodes n ++ l2.
Proof.
  induction t as [a tx r st e cs IH] using TreeNode_children_ind. intros n Hin.
  rewrite nodes_unfold in Hin. simpl in Hin. destruct Hin as [<-|Hin].
  { exists [], []. now rewrite app_nil_r. }
  rewrite nodes_unfold. simpl.
  assert (Hcs : ∃ l1 l2, nodesOf cs = l1 ++ tview.nodes n ++ l2).
  { induction cs as [|c cs IHcs]; [destruct Hin|].
    rewrite nodesOf_cons in Hin |- *.
    apply Forall_inv in IH as Hc. apply Forall_inv_tail in IH.
    apply in_app_or in Hin as [Hin|Hin].
    - destruct (Hc n Hin) as (l1 & l2 & ->). exists l1, (l2 ++ nodesOf cs).
      now rewrite <- !app_assoc.
    - destruct (IHcs IH Hin) as (l1 & l2 & ->). exists (tview.nodes c ++ l1), l2.
      now rewrite <- !app_assoc. }
  destruct Hcs as (l1 & l2 & ->). now exists (tview.mkTreeNode a tx r st e cs :: l1), l2.
Qed.

Lemma NoDup_addresses_node t n :
  List.NoDup (tview.addresses t) → In n (tview.nodes t) → List.NoDup (tview.addresses n).
Proof.
  intros Hnodup Hin. destruct (nodes_of_node t n Hin) as (l1 & l2 & Heq).
  unfold tview.addresses in *. rewrite Heq, !List.map_app in Hnodup.
  apply NoDup_app_remove_l, NoDup_app_remove_r in Hnodup. exact Hnodup.
Qed.

(** *** Walks that look for a node *)

Definition findFrom (test : tview.TreeNode → option tview.addr → bool)
    (n : tview.TreeNode) (parent : option tview.addr) (found : option tview.TreeNode)
  : option tview.TreeNode :=
  snd (tview.Walk (cmd.findCallback test) n parent found).

Definition findAmong (test : tview.TreeNode → option tview.addr → bool)
    (a : tview.addr) (cs : list tview.TreeNode) (found : option tview.TreeNode)
  : option tview.TreeNode :=
  snd (tview.walkChildren (cmd.findCallback test) a cs found).

Lemma findAmong_cons test a c cs found :
  findAmong test a (c :: cs) found = findAmong test a cs (findFrom test c (Some a) found).
Proof.
  unfold findAmong, findFrom. simpl.
  destruct (tview.Walk _ c (Some a) found) as [c' s']. simpl.
  now destruct (tview.walkChildren _ a cs s') as [l'' s''].
Qed.

Lemma findFrom_unfold test n parent found :
  findFrom test n parent found =
  if test n parent then Some n else findAmong test (tview.address n) (tview.children n) found.
Proof.
  unfold findFrom, findAmong. rewrite Walk_unfold. unfold cmd.findCallback.
  destruct (test n parent); [reflexivity|].
  now destruct (tview.walkChildren _ _ _ found) as [cs' s2].
Qed.

(** The node a walk finds is the one it started with or a node of the tree. *)
Lemma findFrom_In test :
  ∀ n parent found m,
    findFrom test n parent found = Some m → found = Some m ∨ In m (tview.nodes n).
Proof.
  induction n as [a tx r st e cs IH] using TreeNode_children_ind.
  intros parent found m. rewrite findFrom_unfold, nodes_unfold. simpl.
  destruct (test _ parent).
  - intros [= <-]. right. now left.
  - intros Hfind.
    assert (Hcs : found = Some m ∨ In m (nodesOf cs)).
    { revert found Hfind. induction cs as [|c cs IHcs]; intros found Hfind.
      - now left.
      - rewrite findAmong_cons in Hfind. rewrite nodesOf_cons.
        apply Forall_inv in IH as Hc. apply Forall_inv_tail in IH.
        destruct (IHcs IH _ Hfind) as [Hc'|Hin].
        + destruct (Hc _ _ _ Hc') as [?|?]; [now left|right; apply in_or_app; now left].
        + right. apply in_or_app. now right. }
    destruct Hcs; [now left|right; now right].
Qed.

(** A test that reads the address, the text and the reference of a node
    only. *)
Definition readsHeader (test : tview.TreeNode → option tview.addr → bool) : Prop :=
  ∀ n n' parent,
    tview.address n = tview.address n' → tview.text n = tview.text n' →
    tview.reference n = tview.reference n' → test n parent = test n' parent.

Lemma hasReference_readsHeader r : readsHeader (cmd.hasReference r).
Proof. intros n n' parent _ _ Href. unfold cmd.hasReference. now rewrite Href. Qed.


(** Setting the style of the node at [p]. *)
Definition restyle (p : tview.addr) (st : tcell.Style) : tview.TreeNode → tview.TreeNode :=
  tview.modify p (tview.SetTextStyle st).

Lemma restyle_unfold p st n :
  restyle p st n =
  tview.mkTreeNode (tview.address n) (tview.text n) (tview.reference n)
    (if (tview.address n =? p)%positive then st else tview.textStyle n)
    (tview.expanded n) (List.map (restyle p st) (tview.children n)).
Proof.
  unfold restyle. rewrite modify_unfold. destruct n as [a tx r s e cs]. simpl.
  now destruct (a =? p)%positive.
Qed.


Lemma restyle_address p st n : tview.address (restyle p st n) = tview.address n.
Proof. now rewrite restyle_unfold. Qed.

Lemma deref_present p :
  ∀ n, tview.deref p n = None → ¬ In p (tview.addresses n).
Proof.
  induction n as [a tx r st e cs IH] using TreeNode_children_ind.
  rewrite deref_unfold. unfold tview.addresses. rewrite nodes_unfold. simpl.
  destruct (Pos.eqb_spec a p) as [->|Hne]; [discriminate|].
  intros Hnone [Heq|Hin]; [contradiction|].
  induction cs as [|c cs IHcs]; [destruct Hin|].
  apply Forall_inv in IH as Hc. apply Forall_inv_tail in IH.
  simpl in Hnone. destruct (tview.deref p c) eqn:Hderef; [discriminate|].
  rewrite nodesOf_cons, List.map_app in Hin. apply in_app_or in Hin as [Hin|Hin].
  - now apply (Hc eq_refl).
  - now apply IHcs.
Qed.

(** Dereferencing after a write through the same pointer gives the written
    node. *)
Lemma deref_modify p f :
  (∀ m, tview.address (f m) = tview.address m) →
  ∀ t n,
    tview.deref p t = Some n →
    ¬ In p (List.map tview.address (nodesOf (tview.children n))) →
    tview.deref p (tview.modify p f t) = Some (f n).
Proof.
  intros Hf. induction t as [a tx r st e cs IH] using TreeNode_children_ind.
  intros n Hderef Hbelow. rewrite deref_unfold in Hderef. rewrite modify_unfold.
  simpl in Hderef |- *. destruct (Pos.eqb_spec a p) as [->|Hne].
  - injection Hderef as <-. simpl in Hbelow.
    rewrite (modify_absent_list p f cs Hbelow). unfold tview.SetChildren. simpl.
    rewrite deref_unfold, Hf. simpl. now rewrite Pos.eqb_refl.
  - rewrite deref_unfold. simpl. destruct (Pos.eqb_spec a p) as [|_]; [contradiction|].
    clear Hne. induction cs as [|c cs IHcs]; [discriminate|].
    apply Forall_inv in IH as Hc. apply Forall_inv_tail in IH.
    simpl in Hderef |- *. destruct (tview.deref p c) as [m|] eqn:Hm.
    + injection Hderef as <-. now rewrite (Hc m eq_refl Hbelow).
    + rewrite (modify_absent p f c (deref_present p c Hm)), Hm. now apply IHcs.
Qed.

Lemma deref_restyle q p st :
  ∀ t, tview.deref q (restyle p st t) = option_map (restyle p st) (tview.deref q t).
Proof.
  induction t as [a tx r s e cs IH] using TreeNode_children_ind.
  rewrite !deref_unfold, restyle_address. simpl.
  destruct (a =? q)%positive; [reflexivity|].
  rewrite restyle_unfold. simpl.
  induction cs as [|c cs IHcs]; [reflexivity|].
  apply Forall_inv in IH as Hc. apply Forall_inv_tail in IH.
  simpl. rewrite Hc. destruct (tview.deref q c); [reflexivity|]. now apply IHcs.
Qed.

Lemma addresses_restyle p st :
  ∀ t, tview.addresses (restyle p st t) = tview.addresses t.
Proof.
  induction t as [a tx r s e cs IH] using TreeNode_children_ind.
  unfold tview.addresses. rewrite restyle_unfold, !nodes_unfold. simpl. f_equal.
  induction cs as [|c cs IHcs]; [reflexivity|].
  apply Forall_inv in IH as Hc. apply Forall_inv_tail in IH.
  simpl List.map. rewrite !nodesOf_cons, !List.map_app. f_equal; [exact Hc|]. now apply IHcs.
Qed.

Lemma addresses_restyle_list p st cs :
  List.map tview.address (nodesOf (List.map (restyle p st) cs)) =
  List.map tview.address (nodesOf cs).
Proof.
  induction cs as [|c cs IH]; [reflexivity|].
  simpl List.map. rewrite !nodesOf_cons, !List.map_app, IH. f_equal.
  apply addresses_restyle.
Qed.

Lemma In_nodesOf c cs : In c cs → In c (nodesOf cs).
Proof.
  induction cs as [|d cs IH]; intros Hin; [destruct Hin|].
  rewrite nodesOf_cons. apply in_or_app. destruct Hin as [->|Hin].
  - left. rewrite nodes_unfold. now left.
  - right. now apply IH.
Qed.

(** Children with distinct addresses below them have distinct addresses. *)
Lemma NoDup_children cs :
  List.NoDup (List.map tview.address (nodesOf cs)) → List.NoDup (List.map tview.address cs).
Proof.
  induction cs as [|c cs IH]; intros Hnodup; [constructor|].
  rewrite nodesOf_cons, List.map_app in Hnodup. simpl. constructor.
  - intros Hin. apply in_map_iff in Hin as (c' & Haddr & Hin).
    eapply NoDup_app_disjoint; [exact Hnodup| |].
    + rewrite nodes_unfold. now left.
    + rewrite <- Haddr. apply in_map. now apply In_nodesOf.
  - apply IH. eapply NoDup_app_remove_l. exact Hnodup.
Qed.


(** ** Message-create for a closed DM *)


(** A tree with three DMs under the Direct Messages node and a guild. *)
Definition threeDMs : tview.TreeNode :=
  tview.mkTreeNode 2 "Direct Messages" tview.RefNil tcell.StyleDefault true
    [nodeA; nodeB; nodeC].

Definition appWithDMs : cmd.App :=
  {| cmd.root :=
       tview.mkTreeNode 1 "" tview.RefNil tcell.StyleDefault true
         [ threeDMs;
           tview.mkTreeNode 3 "G" (tview.RefGuild 40) tcell.StyleDefault true [] ];
     cmd.currentNode := None; cmd.selectedChannel := None;
     cmd.guildsTreeInitialized := true; cmd.nextAddr := 20%positive; cmd.effects := [] |}.

(** The local cache knows channel 103 as a DM and reports it as read. *)
Definition dmState : ningen.State :=
  {| ningen.Guild := λ _, None;
     ningen.Channel := λ c,
       Some {| discord.ChannelID_ := c; discord.ChannelGuildID := 0;
               discord.Type_ := discord.DirectMessage; discord.ParentID := 0;
               discord.LastMessageID := 0; discord.ChannelName := "dm" |};
     ningen.Members := λ _, None;
     ningen.Presence := λ _ _, None; ningen.Role := λ _ _, None;
     ningen.ChannelIsUnread := λ _, ningen.ChannelRead;
     ningen.GuildIsUnread := λ _, ningen.ChannelRead;
     ningen.HasViewPermission := λ _, true;
     ningen.PrivateChannels := None;
     ningen.SearchLimit := 50%N;
     ningen.SearchFrequency := 1000%Z |}.

Definition messageForC : gateway.MessageCreateEvent :=
  {| gateway.MessageID_ := 900; gateway.MessageChannelID := 103;
     gateway.MessageGuildID := 0 |}.

(** *** When the lookups of the handler succeed *)

Lemma findAmong_app test a l1 l2 found :
  findAmong test a (l1 ++ l2) found = findAmong test a l2 (findAmong test a l1 found).
Proof.
  revert found. induction l1 as [|c l1 IH]; intros found; [reflexivity|].
  simpl app. now rewrite !findAmong_cons, IH.
Qed.

(** Below a node that is not the root, nothing passes the test of
    [findDirectMessages]. *)
Lemma isDirectMessages_below ra :
  ∀ n parent found,
    parent ≠ Some ra → ¬ In ra (tview.addresses n) →
    findFrom (cmd.isDirectMessages ra) n parent found = found.
Proof.
  induction n as [a tx r st e cs IH] using TreeNode_children_ind.
  intros parent found Hparent Hra. rewrite findFrom_unfold.
  unfold tview.addresses in Hra. rewrite nodes_unfold in Hra. simpl in Hra.
  assert (Htest : cmd.isDirectMessages ra (tview.mkTreeNode a tx r st e cs) parent = false).
  { unfold cmd.isDirectMessages. destruct parent as [p|]; [|apply andb_false_r].
    destruct (Pos.eqb_spec p ra) as [->|_]; [congruence|apply andb_false_r]. }
  rewrite Htest. simpl.
  assert (Ha : Some a ≠ Some ra) by (intros [= ->]; tauto).
  assert (Hcs : ¬ In ra (List.map tview.address (nodesOf cs))) by tauto.
  clear Hra Htest. revert found. induction cs as [|c cs IHcs]; intros found; [reflexivity|].
  rewrite findAmong_cons. rewrite nodesOf_cons, List.map_app in Hcs.
  apply Forall_inv in IH as Hc. apply Forall_inv_tail in IH.
  rewrite Hc; [apply IHcs; [exact IH|]|exact Ha|].
  - intros H. apply Hcs, in_or_app. now right.
  - intros H. apply Hcs, in_or_app. now left.
Qed.

Lemma isDirectMessages_child ra c found :
  ¬ In ra (tview.addresses c) →
  findFrom (cmd.isDirectMessages ra) c (Some ra) found =
  if String.eqb (tview.text c) "Direct Messages" then Some c else found.
Proof.
  intros Hra. rewrite findFrom_unfold. unfold cmd.isDirectMessages at 1.
  rewrite Pos.eqb_refl, andb_true_r.
  destruct (String.eqb (tview.text c) "Direct Messages"); [reflexivity|].
  unfold tview.addresses in Hra. rewrite nodes_unfold in Hra. simpl in Hra.
  assert (Ha : Some (tview.address c) ≠ Some ra) by (intros [= Heq]; tauto).
  assert (Hcs : ¬ In ra (List.map tview.address (nodesOf (tview.children c)))) by tauto.
  clear Hra. revert found. induction (tview.children c) as [|k ks IH]; intros found;
    [reflexivity|].
  rewrite findAmong_cons. rewrite nodesOf_cons, List.map_app in Hcs.
  rewrite isDirectMessages_below; [apply IH|exact Ha|].
  - intros H. apply Hcs, in_or_app. now right.
  - intros H. apply Hcs, in_or_app. now left.
Qed.

(** The lookup by title gives the last child of the root with the title
    "Direct Messages".  [onReady] puts the Direct Messages node first; the
    lookup gives that node when no node added after it under the root has
    the same title. *)
Lemma findDirectMessages_last_titled (r g : tview.TreeNode) (l1 l2 : list tview.TreeNode) :
  List.NoDup (tview.addresses r) →
  tview.children r = l1 ++ g :: l2 →
  tview.text g = "Direct Messages" →
  (∀ c, In c l2 → tview.text c ≠ "Direct Messages") →
  cmd.findDirectMessages r = Some g.
Proof.
  intros Hnodup Hch Htext Hl2.
  unfold cmd.findDirectMessages, cmd.find.
  fold (findFrom (cmd.isDirectMessages (tview.address r)) r None None).
  rewrite findFrom_unfold. unfold cmd.isDirectMessages at 1. rewrite andb_false_r.
  unfold tview.addresses in Hnodup. rewrite nodes_unfold, Hch in Hnodup. simpl in Hnodup.
  apply NoDup_cons_iff in Hnodup as [Hra _].
  rewrite nodesOf_app, nodesOf_cons, !List.map_app in Hra.
  rewrite Hch, findAmong_app, findAmong_cons, isDirectMessages_child.
  2: { intros H. apply Hra, in_or_app. right. apply in_or_app. now left. }
  rewrite Htext. simpl.
  assert (Hra2 : ¬ In (tview.address r) (List.map tview.address (nodesOf l2)))
    by (intros H; apply Hra, in_or_app; right; apply in_or_app; now right).
  clear Hch Hra. induction l2 as [|c l2 IH]; [reflexivity|].
  rewrite findAmong_cons. rewrite nodesOf_cons, List.map_app in Hra2.
  rewrite isDirectMessages_child.
  2: { intros H. apply Hra2, in_or_app. now left. }
  assert (Hc : String.eqb (tview.text c) "Direct Messages" = false)
    by (apply String.eqb_neq, Hl2; now left).
  rewrite Hc. apply IH.
  - intros k Hk. apply Hl2. now right.
  - intros H. apply Hra2, in_or_app. now right.
Qed.

(** The lookup by channel id gives the node of the channel when that node is
    the only one with this reference. *)
Lemma find_hasReference_only (ref : tview.Reference) (d : tview.TreeNode) :
  tview.reference d = ref →
  ∀ n parent found,
    (∀ m, In m (tview.nodes n) → tview.reference m = ref → m = d) →
    (findFrom (cmd.hasReference ref) n parent found = found ∨
     findFrom (cmd.hasReference ref) n parent found = Some d) ∧
    (In d (tview.nodes n) → findFrom (cmd.hasReference ref) n parent found = Some d).
Proof.
  intros Hd. induction n as [a tx r st e cs IH] using TreeNode_children_ind.
  intros parent found Honly. rewrite findFrom_unfold, nodes_unfold in *. simpl in *.
  unfold cmd.hasReference at 1 3 5. simpl.
  destruct (tview.Reference_eqb r ref) eqn:Href.
  - assert (Hself : tview.mkTreeNode a tx r st e cs = d).
    { apply Honly; [now left|]. simpl.
      destruct r, ref; simpl in Href; try discriminate; try reflexivity;
        apply N.eqb_eq in Href; now subst. }
    rewrite Hself. split; [now right|reflexivity].
  - assert (Hnot : d ≠ tview.mkTreeNode a tx r st e cs).
    { intros ->. simpl in Hd. subst ref.
      destruct r; simpl in Href; try discriminate; now rewrite N.eqb_refl in Href. }
    assert (Hcs : ∀ found,
      (findAmong (cmd.hasReference ref) a cs found = found ∨
       findAmong (cmd.hasReference ref) a cs found = Some d) ∧
      (In d (nodesOf cs) → findAmong (cmd.hasReference ref) a cs found = Some d)).
    { assert (Honly' : ∀ m, In m (nodesOf cs) → tview.reference m = ref → m = d)
        by (intros m Hm; apply Honly; now right).
      clear Honly Hnot. induction cs as [|c cs IHcs]; intros found0.
      - split; [now left|intros []].
      - rewrite findAmong_cons. rewrite nodesOf_cons in Honly' |- *.
        apply Forall_inv in IH as Hc. apply Forall_inv_tail in IH.
        assert (Hc1 : ∀ m, In m (tview.nodes c) → tview.reference m = ref → m = d)
          by (intros m Hm; apply Honly', in_or_app; now left).
        assert (Hc2 : ∀ m, In m (nodesOf cs) → tview.reference m = ref → m = d)
          by (intros m Hm; apply Honly', in_or_app; now right).
        destruct (Hc (Some a) found0 Hc1) as [Hc_or Hc_in].
        destruct (IHcs IH Hc2 (findFrom (cmd.hasReference ref) c (Some a) found0))
          as [Hcs_or Hcs_in].
        split.
        + destruct Hcs_or as [->| ->]; [exact Hc_or|now right].
        + intros Hin. apply in_app_or in Hin as [Hin|Hin]; [|now apply Hcs_in].
          rewrite (Hc_in Hin).
          destruct (IHcs IH Hc2 (Some d)) as [[->| ->] _]; reflexivity. }
    destruct (Hcs found) as [Hor Hin]. split; [exact Hor|].
    intros [Heq|Hin']; [now symmetry in Heq|now apply Hin].
Qed.

(** ** Read-state update *)

(** [restyled allowed t t']: [t'] is [t] with other styles, and only on nodes
    whose reference is [allowed].  Nodes, order, addresses, texts, references
    and expansion are those of [t]. *)
#[warnings="-register-all"]
Inductive restyled (allowed : tview.Reference → bool) : tview.TreeNode → tview.TreeNode → Prop :=
  | restyled_node a tx r st st' e cs cs' :
      (allowed r = false → st' = st) →
      Forall2 (restyled allowed) cs cs' →
      restyled allowed (tview.mkTreeNode a tx r st e cs) (tview.mkTreeNode a tx r st' e cs').

Lemma restyled_refl allowed : ∀ t, restyled allowed t t.
Proof.
  induction t as [a tx r st e cs IH] using TreeNode_children_ind.
  constructor; [reflexivity|].
  induction cs as [|c cs IHcs]; constructor.
  - now apply Forall_inv in IH.
  - apply IHcs. now apply Forall_inv_tail in IH.
Qed.

Lemma restyled_trans allowed :
  ∀ t1 t2 t3, restyled allowed t1 t2 → restyled allowed t2 t3 → restyled allowed t1 t3.
Proof.
  induction t1 as [a tx r st e cs IH] using TreeNode_children_ind.
  intros t2 t3 H12 H23. inversion H12 as [? ? ? ? st2 ? ? cs2 Hst12 Hcs12]; subst.
  inversion H23 as [? ? ? ? st3 ? ? cs3 Hst23 Hcs23]; subst.
  constructor.
  - intros Hallowed. rewrite Hst23, Hst12; auto.
  - clear H12 H23 Hst12 Hst23. revert cs2 cs3 Hcs12 Hcs23.
    induction cs as [|c cs IHcs]; intros cs2 cs3 Hcs12 Hcs23.
    + inversion Hcs12; subst. inversion Hcs23; subst. constructor.
    + inversion Hcs12 as [|? c2 ? cs2' Hc12 Hrest12]; subst.
      inversion Hcs23 as [|? c3 ? cs3' Hc23 Hrest23]; subst.
      constructor.
      * apply Forall_inv in IH. eapply IH; eassumption.
      * apply Forall_inv_tail in IH. eapply IHcs; eassumption.
Qed.

(** A walk whose callback sets styles on allowed references only. *)
Lemma Walk_restyled {S : Type} (allowed : tview.Reference → bool)
    (cb : tview.TreeNode → option tview.addr → S → S * tcell.Style * bool) :
  (∀ n parent s, allowed (tview.reference n) = false →
                 snd (fst (cb n parent s)) = tview.textStyle n) →
  ∀ n parent s, restyled allowed n (fst (tview.Walk cb n parent s)).
Proof.
  intros Hcb. induction n as [a tx r st e cs IH] using TreeNode_children_ind.
  intros parent s. rewrite Walk_unfold.
  specialize (Hcb (tview.mkTreeNode a tx r st e cs) parent s).
  destruct (cb _ parent s) as [[s1 st1] descend]. simpl in Hcb.
  destruct descend.
  - simpl tview.address. simpl tview.children.
    assert (Hcs : ∀ s0, Forall2 (restyled allowed) cs
                          (fst (tview.walkChildren cb a cs s0))).
    { clear Hcb. induction cs as [|c cs IHcs]; intros s0; simpl; [constructor|].
      apply Forall_inv in IH as Hc. apply Forall_inv_tail in IH.
      specialize (Hc (Some a) s0).
      destruct (tview.Walk cb c (Some a) s0) as [c' s']. simpl in Hc.
      specialize (IHcs IH s').
      destruct (tview.walkChildren cb a cs s') as [l'' s'']. simpl in *.
      now constructor. }
    specialize (Hcs s1). destruct (tview.walkChildren cb a cs s1) as [cs' s2].
    simpl in *. now constructor.
  - simpl. constructor; [exact Hcb|].
    clear. induction cs; constructor; [apply restyled_refl|assumption].
Qed.

(** A write through a pointer that restyles. *)
Lemma modify_restyled (allowed : tview.Reference → bool) p f :
  (∀ n, restyled allowed n (f n)) →
  ∀ t, restyled allowed t (tview.modify p f t).
Proof.
  intros Hf. induction t as [a tx r st e cs IH] using TreeNode_children_ind.
  rewrite modify_unfold. simpl.
  assert (Hinner : restyled allowed (tview.mkTreeNode a tx r st e cs)
                     (tview.mkTreeNode a tx r st e (List.map (tview.modify p f) cs))).
  { constructor; [reflexivity|].
    induction cs as [|c cs IHcs]; simpl; constructor.
    - now apply Forall_inv in IH.
    - apply IHcs. now apply Forall_inv_tail in IH. }
  destruct (a =? p)%positive; [|exact Hinner].
  eapply restyled_trans; [exact Hinner|]. apply Hf.
Qed.

(** The references [onReadUpdate] may restyle: the guild and the channel of
    the event. *)
Definition readUpdateTargets (event : ningen.UpdateEvent) (r : tview.Reference) : bool :=
  tview.Reference_eqb r (tview.RefGuild (ningen.ReadGuildID event)) ||
  tview.Reference_eqb r (tview.RefChannel (ningen.ReadChannelID event)).

(** A guild with one channel, open in the client; the read state reports the
    guild as unread and the channel as read. *)
Definition guildChannelNode : tview.TreeNode :=
  tview.mkTreeNode 4 "#general" (tview.RefChannel 500) tcell.StyleDefault true [].

Definition guildNodeWith (style : tcell.Style) (channel : tview.TreeNode) : tview.TreeNode :=
  tview.mkTreeNode 3 "G" (tview.RefGuild 40) style true [channel].

Definition generalChannel : discord.Channel :=
  {| discord.ChannelID_ := 500; discord.ChannelGuildID := 40;
     discord.Type_ := discord.GuildText; discord.ParentID := 0;
     discord.LastMessageID := 0; discord.ChannelName := "general" |}.

Definition appWithOpenGuildChannel : cmd.App :=
  {| cmd.root :=
       tview.mkTreeNode 1 "" tview.RefNil tcell.StyleDefault true
         [ tview.mkTreeNode 2 "Direct Messages" tview.RefNil tcell.StyleDefault true [];
           guildNodeWith tcell.StyleDefault guildChannelNode ];
     cmd.currentNode := None; cmd.selectedChannel := Some generalChannel;
     cmd.guildsTreeInitialized := true; cmd.nextAddr := 20%positive; cmd.effects := [] |}.

Definition readUpdateOfGeneral : ningen.UpdateEvent :=
  {| ningen.ReadChannelID := 500; ningen.ReadGuildID := 40 |}.

(** ** First expand of the Direct Messages node *)

(** The comparison of the sort of the fetched channels. *)
Definition byRecencyDescending (a b : discord.Channel) : Z :=
  Go.CompareN (cmd.msgID b) (cmd.msgID a).

Lemma byRecencyDescending_le a b :
  (byRecencyDescending a b ≤ 0)%Z ↔ (cmd.msgID b ≤ cmd.msgID a)%N.
Proof.
  unfold byRecencyDescending, Go.CompareN. rewrite of_comparison_le.
  rewrite N.compare_gt_iff. lia.
Qed.

Lemma byRecencyDescending_swo : Go.StrictWeakOrdering byRecencyDescending.
Proof.
  split.
  - intros a b. unfold byRecencyDescending, Go.CompareN.
    rewrite of_comparison_neg, of_comparison_pos, N.compare_lt_iff, N.compare_gt_iff. lia.
  - intros a b c. rewrite !byRecencyDescending_le. lia.
Qed.

(** The addresses the allocator hands out: [n] addresses from [a] on. *)
Fixpoint freshFrom (a : tview.addr) (n : nat) : list tview.addr :=
  match n with
  | O => []
  | S n' => a :: freshFrom (Pos.succ a) n'
  end.

Lemma freshFrom_ge a n p : In p (freshFrom a n) → (a ≤ p)%positive.
Proof.
  revert a. induction n as [|n IH]; intros a Hin; [destruct Hin|].
  destruct Hin as [<-|Hin]; [lia|]. apply IH in Hin. lia.
Qed.

Lemma freshFrom_NoDup a n : List.NoDup (freshFrom a n).
Proof.
  revert a. induction n as [|n IH]; intros a; simpl; constructor; [|apply IH].
  intros Hin. apply freshFrom_ge in Hin. lia.
Qed.

(** The node [createDMNodes] makes for a channel at address [a], and the
    same node once the second update has set its style. *)
Definition newDMNode (fmt : ui.Format) (ac : tview.addr * discord.Channel) : tview.TreeNode :=
  tview.mkTreeNode (fst ac) (ui.ChannelToString fmt (snd ac))
    (tview.RefChannel (discord.ChannelID_ (snd ac))) tcell.StyleDefault true [].

Definition styledDMNode (discordState : ningen.State) (fmt : ui.Format)
    (ac : tview.addr * discord.Channel) : tview.TreeNode :=
  tview.SetTextStyle (cmd.getChannelNodeStyle discordState (discord.ChannelID_ (snd ac)))
    (newDMNode fmt ac).

Lemma deref_In p : ∀ t n, tview.deref p t = Some n → In n (tview.nodes t) ∧ tview.address n = p.
Proof.
  induction t as [a tx r st e cs IH] using TreeNode_children_ind.
  intros n. rewrite deref_unfold, nodes_unfold. simpl.
  destruct (Pos.eqb_spec a p) as [->|_].
  - intros [= <-]. split; [now left|reflexivity].
  - intros Hderef. enough (In n (nodesOf cs) ∧ tview.address n = p) by (split; [right|]; tauto).
    induction cs as [|c cs IHcs]; [discriminate|].
    apply Forall_inv in IH as Hc. apply Forall_inv_tail in IH.
    simpl in Hderef. rewrite nodesOf_cons. destruct (tview.deref p c) as [m|] eqn:Hm.
    + injection Hderef as <-. destruct (Hc m eq_refl). split; [apply in_or_app; now left|easy].
    + destruct (IHcs IH Hderef). split; [apply in_or_app; now right|easy].
Qed.

(** The body of the loop of the first update. *)
Definition createDMNodesStep (fmt : ui.Format) (node : tview.addr)
    (acc : cmd.App * list tview.addr) (c : discord.Channel) : cmd.App * list tview.addr :=
  let '(app, nodeRefs) := acc in
  let channelNode :=
    tview.SetReference (tview.RefChannel (discord.ChannelID_ c))
      (tview.NewTreeNode (cmd.nextAddr app) (ui.ChannelToString fmt c)) in
  (cmd.addNewChild node channelNode app, nodeRefs ++ [tview.address channelNode]).

(** The loop of the first update: every channel gets a node at the next free
    address, appended under [node]. *)
Lemma createDMNodes_loop (fmt : ui.Format) (node : tview.addr) :
  ∀ (channels : list discord.Channel) (app : cmd.App) (refs : list tview.addr)
    (parent : tview.TreeNode),
    tview.deref node (cmd.root app) = Some parent →
    ¬ In node (List.map tview.address (nodesOf (tview.children parent))) →
    (node < cmd.nextAddr app)%positive →
    snd (fold_left (createDMNodesStep fmt node) channels (app, refs)) =
      refs ++ freshFrom (cmd.nextAddr app) (length channels) ∧
    cmd.nextAddr (fst (fold_left (createDMNodesStep fmt node) channels (app, refs))) =
      Pos.of_nat (Pos.to_nat (cmd.nextAddr app) + length channels) ∧
    tview.deref node (cmd.root (fst (fold_left (createDMNodesStep fmt node) channels (app, refs)))) =
      Some (tview.SetChildren
              (tview.children parent ++
               List.map (newDMNode fmt)
                 (combine (freshFrom (cmd.nextAddr app) (length channels)) channels))
              parent).
Proof.
  induction channels as [|c channels IH]; intros app refs parent Hderef Hbelow Hfresh.
  - simpl. rewrite !app_nil_r. split; [reflexivity|]. split; [lia|].
    rewrite Hderef. f_equal. symmetry. apply SetChildren_children.
  - cbn [fold_left length freshFrom combine List.map].
    unfold createDMNodesStep at 2 4 6.
    set (channelNode := tview.SetReference _ _).
    assert (Hstep : tview.deref node (cmd.root (cmd.addNewChild node channelNode app)) =
                    Some (tview.AddChild channelNode parent)).
    { unfold cmd.addNewChild. simpl. now apply deref_modify. }
    specialize (IH (cmd.addNewChild node channelNode app)
                  (refs ++ [tview.address channelNode])
                  (tview.AddChild channelNode parent) Hstep).
    destruct IH as (IHrefs & IHnext & IHderef).
    + simpl. rewrite nodesOf_app, List.map_app. intros Hin.
      apply in_app_or in Hin as [Hin|Hin]; [now apply Hbelow|].
      simpl in Hin. destruct Hin as [Hin|[]]. lia.
    + simpl. lia.
    + split; [|split].
      * rewrite IHrefs. simpl. now rewrite <- app_assoc.
      * rewrite IHnext. simpl. lia.
      * rewrite IHderef. simpl. f_equal. unfold tview.SetChildren. simpl.
        now rewrite <- app_assoc.
Qed.

(** The second update, on the tree: the styles applied one after the other
    through the kept pointers. *)
Definition applyStyles (l : list (tview.addr * tcell.Style)) (t : tview.TreeNode)
  : tview.TreeNode :=
  fold_left (λ t rs, restyle (fst rs) (snd rs) t) l t.

Lemma applyDMStyles_root nodeRefs styles app :
  cmd.applyDMStyles nodeRefs styles app =
  cmd.withRoot (applyStyles (combine nodeRefs styles) (cmd.root app)) app.
Proof.
  unfold cmd.applyDMStyles, applyStyles.
  assert (Hgen : ∀ l app0,
    fold_left
      (λ app (rs : tview.addr * tcell.Style),
         cmd.withRoot (tview.modify (fst rs) (tview.SetTextStyle (snd rs)) (cmd.root app)) app)
      l app0 =
    cmd.withRoot (fold_left (λ t rs, restyle (fst rs) (snd rs) t) l (cmd.root app0)) app0).
  { induction l as [|rs l IH]; intros app0; simpl; [now destruct app0|].
    now rewrite IH. }
  apply Hgen.
Qed.

Lemma deref_applyStyles q l :
  ∀ t, tview.deref q (applyStyles l t) = option_map (applyStyles l) (tview.deref q t).
Proof.
  induction l as [|rs l IH]; intros t; simpl; [now destruct (tview.deref q t)|].
  unfold applyStyles in *. simpl. rewrite IH, deref_restyle.
  now destruct (tview.deref q t).
Qed.

Lemma applyStyles_absent l :
  ∀ t, (∀ a, In a (List.map fst l) → ¬ In a (tview.addresses t)) → applyStyles l t = t.
Proof.
  induction l as [|rs l IH]; intros t Habsent; [reflexivity|].
  unfold applyStyles in *. simpl. unfold restyle at 2.
  rewrite modify_absent by (apply Habsent; now left).
  apply IH. intros a Ha. apply Habsent. now right.
Qed.

Lemma applyStyles_node l :
  ∀ a tx r st e cs,
    ¬ In a (List.map fst l) →
    applyStyles l (tview.mkTreeNode a tx r st e cs) =
    tview.mkTreeNode a tx r st e (List.map (applyStyles l) cs).
Proof.
  induction l as [|rs l IH]; intros a tx r st e cs Ha.
  - simpl. now rewrite List.map_id.
  - unfold applyStyles in *. simpl in *. rewrite restyle_unfold. simpl.
    destruct (Pos.eqb_spec a (fst rs)) as [->|_]; [tauto|].
    rewrite IH by tauto. now rewrite List.map_map.
Qed.

Lemma newDMNode_addresses fmt ac : tview.addresses (newDMNode fmt ac) = [fst ac].
Proof. reflexivity. Qed.

(** Applied to the fresh nodes, the second update gives each node the style
    computed for its channel. *)
Lemma applyStyles_new_nodes (discordState : ningen.State) (fmt : ui.Format) :
  ∀ (channels : list discord.Channel) (addrs : list tview.addr),
    List.NoDup addrs →
    List.map (applyStyles (combine addrs (cmd.computeDMStyles discordState channels)))
      (List.map (newDMNode fmt) (combine addrs channels)) =
    List.map (styledDMNode discordState fmt) (combine addrs channels).
Proof.
  induction channels as [|c channels IH]; intros [|a addrs] Hnodup; try reflexivity.
  apply NoDup_cons_iff in Hnodup as [Ha Hnodup].
  cbn [cmd.computeDMStyles List.map combine].
  change (List.map (λ c0, cmd.getChannelNodeStyle discordState (discord.ChannelID_ c0)) channels)
    with (cmd.computeDMStyles discordState channels).
  f_equal.
  - unfold applyStyles. simpl fold_left. rewrite restyle_unfold. simpl.
    rewrite Pos.eqb_refl.
    apply (applyStyles_absent (combine addrs (cmd.computeDMStyles discordState channels))).
    intros b Hb Hin. simpl in Hin. destruct Hin as [<-|[]].
    apply Ha. clear -Hb. revert Hb. generalize (cmd.computeDMStyles discordState channels).
    induction addrs as [|x addrs IHa]; intros [|s styles] Hb; simpl in *; try tauto.
    destruct Hb as [->|Hb]; [now left|right; eauto].
  - rewrite <- (IH addrs Hnodup). apply List.map_ext_in.
    intros n Hn.
    change (applyStyles (combine addrs (cmd.computeDMStyles discordState channels))
              (tview.modify a
                 (tview.SetTextStyle (cmd.getChannelNodeStyle discordState (discord.ChannelID_ c)))
                 n) =
            applyStyles (combine addrs (cmd.computeDMStyles discordState channels)) n).
    rewrite modify_absent; [reflexivity|].
    apply in_map_iff in Hn as (ac & <- & Hac). rewrite newDMNode_addresses.
    destruct ac as [x ch]. apply in_combine_l in Hac.
    intros [Heq|[]]. apply Ha. now rewrite <- Heq.
Qed.

Lemma In_fst_combine {A B : Type} (la : list A) :
  ∀ (lb : list B) x, In x (List.map fst (combine la lb)) → In x la.
Proof.
  induction la as [|y la IH]; intros [|z lb] x Hx; simpl in *; try tauto.
  destruct Hx as [->|Hx]; [now left|right; eauto].
Qed.

Lemma In_nodes_node t n m : In n (tview.nodes t) → In m (tview.nodes n) → In m (tview.nodes t).
Proof.
  intros Hn Hm. destruct (nodes_of_node t n Hn) as (l1 & l2 & ->).
  apply in_or_app. right. apply in_or_app. now left.
Qed.

(** C8.  The first expand of the Direct Messages node [node]: the fetched
    private channels are rearranged in descending order of their recency
    surrogate (the id of the last message when the channel has one, the id of
    the channel otherwise).  The first update appends one node per channel,
    in that order, each with the default style, and expands [node]; the
    second update then gives every one of these nodes the style computed for
    its channel.  The two updates together are what the handler does. *)
Theorem onSelectedDirectMessages_sorted_then_styled
    (slices : Go.Slices) (discordState : ningen.State) (fmt : ui.Format)
    (node : tview.addr) (app : cmd.App) (parent : tview.TreeNode)
    (fetched : list discord.Channel) :
  List.NoDup (tview.addresses (cmd.root app)) →
  (∀ a, In a (tview.addresses (cmd.root app)) → (a < cmd.nextAddr app)%positive) →
  tview.deref node (cmd.root app) = Some parent →
  ningen.PrivateChannels discordState = Some fetched →
  let channels := cmd.sortPrivateChannels slices fetched in
  let fresh := combine (freshFrom (cmd.nextAddr app) (length channels)) channels in
  let phase1 :=
    cmd.createDMNodes fmt node channels
      (cmd.withRoot (tview.modify node (tview.SetExpanded true) (cmd.root app)) app) in
  let phase2 :=
    cmd.applyDMStyles (snd phase1) (cmd.computeDMStyles discordState channels) (fst phase1) in
  Permutation fetched channels ∧
  StronglySorted (λ a b, (cmd.msgID b ≤ cmd.msgID a)%N) channels ∧
  (∀ ch, cmd.msgID ch =
         if discord.IsValid (discord.LastMessageID ch) then discord.LastMessageID ch
         else discord.ChannelID_ ch) ∧
  tview.deref node (cmd.root (fst phase1)) =
    Some (tview.SetExpanded true
            (tview.SetChildren (tview.children parent ++ List.map (newDMNode fmt) fresh) parent)) ∧
  tview.deref node (cmd.root phase2) =
    Some (tview.SetExpanded true
            (tview.SetChildren
               (tview.children parent ++ List.map (styledDMNode discordState fmt) fresh)
               parent)) ∧
  cmd.onSelectedDirectMessages slices discordState fmt node app = phase2.
Proof.
  intros Hnodup Hfresh Hderef Hfetch channels fresh phase1 phase2.
  destruct (deref_In node _ _ Hderef) as [Hparent Haddr].
  pose proof (NoDup_addresses_node _ _ Hnodup Hparent) as Hnodupp.
  unfold tview.addresses in Hnodupp. rewrite nodes_unfold in Hnodupp. simpl in Hnodupp.
  apply NoDup_cons_iff in Hnodupp as [Hbelow _]. rewrite Haddr in Hbelow.
  assert (Hnode : (node < cmd.nextAddr app)%positive).
  { apply Hfresh. rewrite <- Haddr. apply in_map. exact Hparent. }
  assert (Hold : ∀ a, In a (List.map tview.address (nodesOf (tview.children parent))) →
                      (a < cmd.nextAddr app)%positive).
  { intros a Ha. apply Hfresh. apply in_map_iff in Ha as (m & <- & Hm). apply in_map.
    eapply In_nodes_node; [exact Hparent|]. rewrite nodes_unfold. now right. }
  split; [apply Go.SortFunc_perm|].
  split.
  { eapply StronglySorted_weaken; [|apply Go.SortFunc_sorted, byRecencyDescending_swo].
    intros a b. apply byRecencyDescending_le. }
  split; [reflexivity|].
  (* the first update *)
  set (app0 := cmd.withRoot (tview.modify node (tview.SetExpanded true) (cmd.root app)) app)
    in *.
  assert (Hderef0 : tview.deref node (cmd.root app0) = Some (tview.SetExpanded true parent)).
  { unfold app0. simpl. now apply deref_modify. }
  destruct (createDMNodes_loop fmt node channels app0 [] (tview.SetExpanded true parent)
              Hderef0 Hbelow Hnode) as (Hrefs & _ & Hloop).
  assert (Hphase1 : tview.deref node (cmd.root (fst phase1)) =
                    Some (tview.SetExpanded true
                            (tview.SetChildren
                               (tview.children parent ++ List.map (newDMNode fmt) fresh)
                               parent))).
  { unfold phase1, cmd.createDMNodes.
    change (fold_left _ channels (app0, [])) with
      (fold_left (createDMNodesStep fmt node) channels (app0, [])).
    destruct (fold_left (createDMNodesStep fmt node) channels (app0, [])) as [app1 refs].
    simpl in Hloop |- *.
    rewrite (deref_modify node (tview.SetExpanded true) (λ m, eq_refl) _ _ Hloop);
      [reflexivity|].
    simpl. rewrite nodesOf_app, List.map_app. intros Hin.
    apply in_app_or in Hin as [Hin|Hin]; [now apply Hbelow|].
    apply in_map_iff in Hin as (m & Hm & Hin).
    assert (Hleaf : ∀ l, In m (nodesOf (List.map (newDMNode fmt) l)) →
                         In (tview.address m) (List.map fst l)).
    { induction l as [|ac l IHl]; [intros []|]. simpl List.map. rewrite nodesOf_cons.
      intros H. apply in_app_or in H as [[<-|[]]|H]; [now left|right; now apply IHl]. }
    apply Hleaf in Hin. rewrite Hm in Hin.
    apply In_fst_combine, freshFrom_ge in Hin. change (cmd.nextAddr app0) with (cmd.nextAddr app) in Hin.
    lia. }
  split; [exact Hphase1|].
  assert (Hsnd : snd phase1 = freshFrom (cmd.nextAddr app) (length channels)).
  { unfold phase1, cmd.createDMNodes.
    change (fold_left _ channels (app0, [])) with
      (fold_left (createDMNodesStep fmt node) channels (app0, [])).
    destruct (fold_left (createDMNodesStep fmt node) channels (app0, [])) as [app1 refs].
    simpl in Hrefs |- *. exact Hrefs. }
  split.
  - (* the second update *)
    unfold phase2. rewrite applyDMStyles_root. simpl cmd.root.
    rewrite deref_applyStyles, Hphase1, Hsnd. simpl option_map. f_equal.
    unfold tview.SetExpanded, tview.SetChildren. simpl.
    rewrite applyStyles_node.
    + f_equal. rewrite List.map_app. f_equal.
      * rewrite <- (List.map_id (tview.children parent)) at 2.
        apply List.map_ext_in. intros c Hc. apply applyStyles_absent.
        intros a Ha Hin. apply In_fst_combine, freshFrom_ge in Ha.
        assert (Hlt : (a < cmd.nextAddr app)%positive); [|lia].
        apply Hold. apply in_map_iff in Hin as (m & <- & Hm). apply in_map.
        clear -Hc Hm. induction (tview.children parent) as [|k ks IHk]; [destruct Hc|].
        rewrite nodesOf_cons. apply in_or_app.
        destruct Hc as [->|Hc]; [now left|right; now apply IHk].
      * apply applyStyles_new_nodes, freshFrom_NoDup.
    + intros Hin. apply In_fst_combine, freshFrom_ge in Hin. lia.
  - unfold cmd.onSelectedDirectMessages. rewrite Hfetch. fold channels. fold app0.
    unfold phase2. fold phase1. now destruct phase1.
Qed.

(** Three private channels: the second has no message yet. *)
Definition privateChannel (id last : N) (name : string) : discord.Channel :=
  {| discord.ChannelID_ := id; discord.ChannelGuildID := 0;
     discord.Type_ := discord.DirectMessage; discord.ParentID := 0;
     discord.LastMessageID := last; discord.ChannelName := name |}.

Definition fetchedDMs : list discord.Channel :=
  [privateChannel 10 50 "ann"; privateChannel 20 0 "bea"; privateChannel 30 70 "cy"].

Definition privateState : ningen.State :=
  {| ningen.Guild := λ _, None; ningen.Channel := λ _, None;
     ningen.Members := λ _, None;
     ningen.Presence := λ _ _, None; ningen.Role := λ _ _, None;
     ningen.ChannelIsUnread :=
       λ c, if (c =? 30)%N then ningen.ChannelUnread else ningen.ChannelRead;
     ningen.GuildIsUnread := λ _, ningen.ChannelRead;
     ningen.HasViewPermission := λ _, true;
     ningen.PrivateChannels := Some fetchedDMs;
     ningen.SearchLimit := 50%N;
     ningen.SearchFrequency := 1000%Z |}.

Definition emptyDMGroup : tview.TreeNode :=
  tview.mkTreeNode 2 "Direct Messages" tview.RefNil tcell.StyleDefault true [].

Definition appBeforeExpand : cmd.App :=
  {| cmd.root := tview.mkTreeNode 1 "" tview.RefNil tcell.StyleDefault true [emptyDMGroup];
     cmd.currentNode := Some 2%positive; cmd.selectedChannel := None;
     cmd.guildsTreeInitialized := true; cmd.nextAddr := 3%positive; cmd.effects := [] |}.

Lemma onSelectedDirectMessages_sorted_then_styled_witness :
  tview.deref 2
    (cmd.root (cmd.onSelectedDirectMessages Go.insertionSlices privateState plainFormat 2
                 appBeforeExpand)) =
  Some (tview.mkTreeNode 2 "Direct Messages" tview.RefNil tcell.StyleDefault true
          [ tview.mkTreeNode 3 "cy" (tview.RefChannel 30)
              (tcell.Bold tcell.StyleDefault true) true [];
            tview.mkTreeNode 4 "ann" (tview.RefChannel 10)
              (tcell.Dim tcell.StyleDefault true) true [];
            tview.mkTreeNode 5 "bea" (tview.RefChannel 20)
              (tcell.Dim tcell.StyleDefault true) true [] ]).
Proof.
  destruct (onSelectedDirectMessages_sorted_then_styled Go.insertionSlices privateState
              plainFormat 2 appBeforeExpand emptyDMGroup fetchedDMs)
    as (_ & _ & _ & _ & Hstyled & Hall).
  - simpl. repeat (constructor; [simpl; intuition discriminate|]). constructor.
  - simpl. intros a [<-|[<-|[]]]; reflexivity.
  - reflexivity.
  - reflexivity.
  - rewrite Hall. exact Hstyled.
Defined.

(** ** A guild with roles *)

(** Role 7 is coloured at position 0, role 8 has no colour at position 9,
    role 9 is coloured at position 5. *)
Definition rolesState : ningen.State :=
  {| ningen.Guild := λ _, None; ningen.Channel := λ _, None;
     ningen.Members := λ _, None;
     ningen.Presence := λ _ _, None;
     ningen.Role := λ _ r,
       if (r =? 7)%N
       then Some {| discord.RoleID_ := 7; discord.RoleName := "everyone-blue";
                    discord.Color := 255; discord.Position := 0 |}
       else if (r =? 8)%N
       then Some {| discord.RoleID_ := 8; discord.RoleName := "Helpers";
                    discord.Color := 0; discord.Position := 9 |}
       else if (r =? 9)%N
       then Some {| discord.RoleID_ := 9; discord.RoleName := "Mods";
                    discord.Color := 65280; discord.Position := 5 |}
       else None;
     ningen.ChannelIsUnread := λ _, ningen.ChannelRead;
     ningen.GuildIsUnread := λ _, ningen.ChannelRead;
     ningen.HasViewPermission := λ _, true;
     ningen.PrivateChannels := None;
     ningen.SearchLimit := 50%N;
     ningen.SearchFrequency := 1000%Z |}.

Definition memberWithRoles (id : discord.UserID) (name : string) (roles : list discord.RoleID)
  : discord.Member :=
  {| discord.MemberUser :=
       {| discord.UserID_ := id; discord.Username := name; discord.DisplayName := name |};
     discord.Nick := ""; discord.RoleIDs := roles |}.

Lemma getRoleInfo_needs_positive_colored_role_witness :
  cmd.getRoleInfo rolesState 1 (memberWithRoles 5 "dee" [7; 8]%N) = None ∧
  (∃ bucket item,
     cmd.groupMembersByRole
       (Go.SortFunc Go.insertionSlices _ (cmd.sortMembers Go.asciiStrings)
          (cmd.buildMemberItems rolesState 1
             [memberWithRoles 4 "mo" [9]%N; memberWithRoles 5 "dee" [7; 8]%N]))
       !! "No Role" = Some bucket ∧
     In item bucket ∧ cmd.Member item = memberWithRoles 5 "dee" [7; 8]%N) ∧
  discord.Color
    (default {| discord.RoleID_ := 0; discord.RoleName := ""; discord.Color := 0;
                discord.Position := 0 |}
       (cmd.getRoleInfo rolesState 1 (memberWithRoles 4 "mo" [9]%N))) ≠ 0%Z.
Proof.
  destruct (getRoleInfo_needs_positive_colored_role Go.insertionSlices Go.asciiStrings rolesState 1
              (memberWithRoles 5 "dee" [7; 8]%N)) as [_ Hnone].
  destruct Hnone as [Hnone Hbucket].
  - intros roleID role [<-|[<-|[]]] [= <-]; simpl; intros Hc; congruence.
  - split; [exact Hnone|]. split.
    + apply Hbucket. right. now left.
    + destruct (getRoleInfo_needs_positive_colored_role Go.insertionSlices Go.asciiStrings rolesState 1
                  (memberWithRoles 4 "mo" [9]%N)) as [Hsome _].
      destruct (cmd.getRoleInfo rolesState 1 (memberWithRoles 4 "mo" [9]%N)) as [role|] eqn:Hget;
        [|discriminate].
      simpl. now apply (Hsome role).
Defined.

(** ** Well-formed states *)

(** The tree of a well-formed state holds every node once, at an address the
    allocator has handed out already.  The theorems on the tree assume a
    well-formed state; the handlers keep states well formed. *)
Definition wellFormed (app : cmd.App) : Prop :=
  List.NoDup (tview.addresses (cmd.root app)) ∧
  ∀ a, In a (tview.addresses (cmd.root app)) → (a < cmd.nextAddr app)%positive.

Definition addressesOf (cs : list tview.TreeNode) : list tview.addr :=
  List.map tview.address (nodesOf cs).

Lemma addresses_unfold n :
  tview.addresses n = tview.address n :: addressesOf (tview.children n).
Proof. unfold tview.addresses, addressesOf. now rewrite nodes_unfold. Qed.

Lemma addressesOf_cons c cs : addressesOf (c :: cs) = tview.addresses c ++ addressesOf cs.
Proof. unfold addressesOf, tview.addresses. now rewrite nodesOf_cons, List.map_app. Qed.

Lemma addressesOf_app l1 l2 : addressesOf (l1 ++ l2) = addressesOf l1 ++ addressesOf l2.
Proof. unfold addressesOf. now rewrite nodesOf_app, List.map_app. Qed.

Lemma restyled_addresses allowed :
  ∀ t t', restyled allowed t t' → tview.addresses t' = tview.addresses t.
Proof.
  induction t as [a tx r st e cs IH] using TreeNode_children_ind.
  intros t' H. inversion H as [? ? ? ? st' ? ? cs' _ Hcs]; subst.
  rewrite !addresses_unfold. simpl. f_equal. clear H.
  revert cs' Hcs. induction cs as [|c cs IHcs]; intros cs' Hcs.
  - now inversion Hcs.
  - inversion Hcs as [|? c' ? cs'' Hc Hrest]; subst.
    rewrite !addressesOf_cons. f_equal.
    + apply Forall_inv in IH. now apply IH.
    + apply Forall_inv_tail in IH. now apply IHcs.
Qed.

(** A write that rearranges the addresses below the written node rearranges
    the addresses of the tree. *)
Lemma modify_addresses p f :
  (∀ n, List.NoDup (tview.addresses n) →
        Permutation (tview.addresses n) (tview.addresses (f n))) →
  ∀ t, List.NoDup (tview.addresses t) →
       Permutation (tview.addresses t) (tview.addresses (tview.modify p f t)).
Proof.
  intros Hf. induction t as [a tx r st e cs IH] using TreeNode_children_ind.
  intros Hnodup. rewrite modify_unfold. simpl.
  assert (Hcs : Permutation (addressesOf cs) (addressesOf (List.map (tview.modify p f) cs))).
  { rewrite addresses_unfold in Hnodup. simpl in Hnodup.
    apply NoDup_cons_iff in Hnodup as [_ Hnodup].
    induction cs as [|c cs IHcs]; [reflexivity|].
    simpl List.map. rewrite !addressesOf_cons. rewrite addressesOf_cons in Hnodup.
    apply Permutation_app.
    - apply Forall_inv in IH. apply IH. eapply NoDup_app_remove_r. exact Hnodup.
    - apply Forall_inv_tail in IH. apply IHcs; [exact IH|].
      eapply NoDup_app_remove_l. exact Hnodup. }
  assert (Hinner : Permutation (tview.addresses (tview.mkTreeNode a tx r st e cs))
                     (tview.addresses
                        (tview.mkTreeNode a tx r st e (List.map (tview.modify p f) cs)))).
  { rewrite !addresses_unfold. simpl. now apply perm_skip. }
  destruct (a =? p)%positive; [|exact Hinner].
  etransitivity; [exact Hinner|]. apply Hf.
  eapply Permutation_NoDup; [exact Hinner|exact Hnodup].
Qed.

Lemma indexOfChild_Some p :
  ∀ l i0 i c,
    cmd.indexOfChild p l i0 = Some (i, c) →
    ∃ pre post, l = pre ++ c :: post ∧ tview.address c = p.
Proof.
  induction l as [|d l IH]; intros i0 i c H; [discriminate|].
  simpl in H. destruct (Pos.eqb_spec (tview.address d) p) as [Heq|Hne].
  - injection H as <- <-. now exists [], l.
  - destruct (IH _ _ _ H) as (pre & post & -> & Hc). now exists (d :: pre), post.
Qed.

Lemma promoteChild_addresses p n :
  List.NoDup (tview.addresses n) →
  Permutation (tview.addresses n) (tview.addresses (cmd.promoteChild p n)).
Proof.
  intros Hnodup.
  destruct (cmd.indexOfChild p (tview.children n) 0) as [[i c]|] eqn:Hidx.
  - destruct (indexOfChild_Some _ _ _ _ _ Hidx) as (pre & post & Hch & <-).
    rewrite (promoteChild_children n pre post c Hch).
    + rewrite !addresses_unfold, Hch. simpl. apply perm_skip.
      rewrite addressesOf_app, !addressesOf_cons, addressesOf_app.
      apply Permutation_sym, Permutation_app_swap_app.
    + rewrite addresses_unfold in Hnodup. apply NoDup_cons_iff in Hnodup as [_ Hnodup].
      now apply NoDup_children.
  - unfold cmd.promoteChild. now rewrite Hidx.
Qed.

(** A node that was just allocated: a leaf at address [a]. *)
Definition isLeafAt (a : tview.addr) (n : tview.TreeNode) : Prop :=
  tview.address n = a ∧ tview.children n = [].

(** Adding a new leaf under the node at [p]: the tree gains the address of
    the leaf, or nothing when [p] is not in it. *)
Lemma addChild_addresses p a leaf :
  isLeafAt a leaf →
  ∀ t, List.NoDup (tview.addresses t) →
       tview.addresses (tview.modify p (tview.AddChild leaf) t) = tview.addresses t ∨
       Permutation (a :: tview.addresses t)
         (tview.addresses (tview.modify p (tview.AddChild leaf) t)).
Proof.
  intros [Hleaf Hnone].
  assert (Hleafaddr : tview.addresses leaf = [a]).
  { rewrite addresses_unfold, Hleaf, Hnone. reflexivity. }
  induction t as [b tx r st e cs IH] using TreeNode_children_ind.
  intros Hnodup. rewrite modify_unfold. simpl.
  rewrite addresses_unfold in Hnodup. simpl in Hnodup.
  apply NoDup_cons_iff in Hnodup as [Hb Hnodup].
  assert (Hcs : addressesOf (List.map (tview.modify p (tview.AddChild leaf)) cs) =
                addressesOf cs ∨
                Permutation (a :: addressesOf cs)
                  (addressesOf (List.map (tview.modify p (tview.AddChild leaf)) cs))).
  { clear Hb. induction cs as [|c cs IHcs]; [now left|].
    simpl List.map. rewrite !addressesOf_cons. rewrite addressesOf_cons in Hnodup.
    apply Forall_inv in IH as Hc. apply Forall_inv_tail in IH.
    specialize (Hc (NoDup_app_remove_r _ _ Hnodup)).
    specialize (IHcs IH (NoDup_app_remove_l _ _ Hnodup)).
    destruct (in_dec Pos.eq_dec p (tview.addresses c)) as [Hin|Hout].
    - (* [p] is below [c]: the other children do not hold it *)
      rewrite (modify_absent_list p _ cs).
      2: { intros Hp. eapply NoDup_app_disjoint; [exact Hnodup|exact Hin|exact Hp]. }
      destruct Hc as [-> | Hc]; [now left|right].
      change (a :: tview.addresses c ++ addressesOf cs)
        with ((a :: tview.addresses c) ++ addressesOf cs).
      now apply Permutation_app_tail.
    - rewrite (modify_absent p _ c Hout).
      destruct IHcs as [-> | IHcs]; [now left|right].
      etransitivity; [apply Permutation_middle|]. now apply Permutation_app_head. }
  destruct (Pos.eqb_spec b p) as [->|Hne].
  - rewrite (modify_absent_list p _ cs).
    2: { intros Hp. now apply Hb. }
    right. unfold tview.AddChild. rewrite !addresses_unfold. simpl.
    rewrite addressesOf_app, addressesOf_cons, Hleafaddr. simpl.
    etransitivity; [apply perm_swap|]. apply perm_skip.
    change (addressesOf []) with (@nil tview.addr). apply Permutation_cons_append.
  - rewrite !addresses_unfold. simpl.
    destruct Hcs as [-> | Hcs]; [now left|right].
    etransitivity; [apply perm_swap|]. now apply perm_skip.
Qed.

Lemma addNewChild_wellFormed p child app :
  isLeafAt (cmd.nextAddr app) child →
  wellFormed app → wellFormed (cmd.addNewChild p child app).
Proof.
  intros Hleaf [Hnodup Hbound]. unfold wellFormed, cmd.addNewChild. simpl.
  destruct (addChild_addresses p _ child Hleaf (cmd.root app) Hnodup) as [-> | Hperm].
  - split; [exact Hnodup|]. intros a Ha. apply Hbound in Ha. lia.
  - split.
    + eapply Permutation_NoDup; [exact Hperm|]. constructor; [|exact Hnodup].
      intros Hin. apply Hbound in Hin. lia.
    + intros a Ha. apply (Permutation_in _ (Permutation_sym Hperm)) in Ha.
      destruct Ha as [<-|Ha]; [lia|]. apply Hbound in Ha. lia.
Qed.

Lemma withRoot_wellFormed r app :
  Permutation (tview.addresses (cmd.root app)) (tview.addresses r) →
  wellFormed app → wellFormed (cmd.withRoot r app).
Proof.
  intros Hperm [Hnodup Hbound]. split; simpl.
  - eapply Permutation_NoDup; eassumption.
  - intros a Ha. apply Hbound. eapply Permutation_in; [apply Permutation_sym|]; eassumption.
Qed.

Lemma restyled_wellFormed allowed r app :
  restyled allowed (cmd.root app) r → wellFormed app → wellFormed (cmd.withRoot r app).
Proof.
  intros Hrestyled. apply withRoot_wellFormed.
  now rewrite (restyled_addresses allowed _ _ Hrestyled).
Qed.

Lemma everywhere_restyled {S : Type}
    (cb : tview.TreeNode → option tview.addr → S → S * tcell.Style * bool) n parent s :
  restyled (λ _, true) n (fst (tview.Walk cb n parent s)).
Proof. apply Walk_restyled. intros ? ? ? ?. discriminate. Qed.

Lemma createGuildNode_wellFormed discordState n guild app :
  wellFormed app → wellFormed (cmd.createGuildNode discordState n guild app).
Proof. apply addNewChild_wellFormed. split; reflexivity. Qed.

Lemma createFolderNode_wellFormed discordState fmt cfg folder app :
  wellFormed app → wellFormed (cmd.createFolderNode discordState fmt cfg folder app).
Proof.
  intros Hwf. unfold cmd.createFolderNode.
  set (folderNode := tview.SetExpanded _ _).
  assert (Hwf1 : wellFormed (cmd.addNewChild (tview.address (cmd.root app)) folderNode app))
    by (apply addNewChild_wellFormed; [split; reflexivity|exact Hwf]).
  revert Hwf1. generalize (cmd.addNewChild (tview.address (cmd.root app)) folderNode app).
  induction (gateway.FolderGuildIDs folder) as [|gID ids IH]; intros app1 Hwf1; simpl;
    [exact Hwf1|].
  apply IH. destruct (ningen.Guild discordState gID); [|exact Hwf1].
  now apply createGuildNode_wellFormed.
Qed.

Lemma onReady_wellFormed discordState fmt cfg r app :
  wellFormed app → wellFormed (cmd.onReady discordState fmt cfg r app).
Proof.
  intros Hwf. unfold cmd.onReady. destruct (cmd.guildsTreeInitialized app); [exact Hwf|].
  match goal with
  | |- wellFormed {| cmd.root := cmd.root (fold_left ?f ?l ?a) |} =>
      assert (Hfold : wellFormed (fold_left f l a))
  end.
  { match goal with |- wellFormed (fold_left ?f ?l ?a) => assert (Hstart : wellFormed a) end.
    { destruct Hwf as [Hnodup Hbound].
      assert (Hroot : (tview.address (cmd.root app) < cmd.nextAddr app)%positive)
        by (apply Hbound; rewrite addresses_unfold; now left).
      unfold wellFormed. cbn [cmd.root cmd.nextAddr].
      assert (Haddr :
        tview.addresses
          (tview.AddChild (tview.NewTreeNode (cmd.nextAddr app) "Direct Messages")
             (tview.ClearChildren (cmd.root app))) =
        [tview.address (cmd.root app); cmd.nextAddr app])
        by (rewrite addresses_unfold; reflexivity).
      rewrite Haddr. split.
      - constructor; [|repeat constructor; intros []]. intros [Heq|[]]. lia.
      - intros a [<-|[<-|[]]]; lia. }
    revert Hstart.
    match goal with |- wellFormed ?a → _ => generalize a end.
    induction (gateway.GuildFolders r) as [|folder folders IH]; intros app1 H1; simpl;
      [exact H1|].
    apply IH. destruct (_ && _).
    - destruct (ningen.Guild discordState _); [|exact H1].
      now apply createGuildNode_wellFormed.
    - now apply createFolderNode_wellFormed. }
  exact Hfold.
Qed.

Lemma onChannelCreate_wellFormed discordState fmt event app :
  wellFormed app → wellFormed (cmd.onChannelCreate discordState fmt event app).
Proof.
  intros Hwf. unfold cmd.onChannelCreate. destruct (negb _); [exact Hwf|].
  destruct (cmd.findDirectMessages _); [|exact Hwf].
  destruct (cmd.find _ _); [exact Hwf|].
  unfold cmd.createChannelNode. destruct (_ && _); [exact Hwf|].
  apply addNewChild_wellFormed; [split; reflexivity|exact Hwf].
Qed.

Lemma moveDMToTop_wellFormed p r app :
  wellFormed (cmd.withRoot r app) → wellFormed (cmd.withRoot (cmd.moveDMToTop p r) app).
Proof.
  intros Hwf. unfold cmd.moveDMToTop. destruct (cmd.findDirectMessages r); [|exact Hwf].
  change (cmd.withRoot (tview.modify (tview.address t) (cmd.promoteChild p) r) app)
    with (cmd.withRoot (tview.modify (tview.address t) (cmd.promoteChild p) r)
            (cmd.withRoot r app)).
  apply withRoot_wellFormed; [|exact Hwf]. simpl.
  apply modify_addresses; [apply promoteChild_addresses|apply Hwf].
Qed.

Lemma updateChannelStyle_wellFormed discordState channelID guildID app :
  wellFormed app → wellFormed (cmd.updateChannelStyle discordState channelID guildID app).
Proof.
  intros Hwf. unfold cmd.updateChannelStyle. destruct (discord.IsValid guildID).
  - destruct (cmd.find _ _); [|exact Hwf].
    apply (restyled_wellFormed (λ _, true)); [|exact Hwf].
    apply modify_restyled. intros n. apply everywhere_restyled.
  - apply (restyled_wellFormed (λ _, true)); [|exact Hwf]. apply everywhere_restyled.
Qed.

Lemma perform_wellFormed es app : wellFormed app → wellFormed (cmd.perform es app).
Proof. intros Hwf. exact Hwf. Qed.

Lemma onMessageCreate_wellFormed discordState message app :
  wellFormed app → wellFormed (cmd.onMessageCreate discordState message app).
Proof.
  intros Hwf. unfold cmd.onMessageCreate.
  set (isCurrentChannel := match cmd.selectedChannel app with Some _ => _ | None => _ end).
  set (app2 := cmd.perform _ _).
  assert (Hwf2 : wellFormed app2) by (unfold app2; destruct isCurrentChannel; exact Hwf).
  clearbody app2.
  destruct (match ningen.Channel discordState _ with Some _ => _ | None => _ end).
  - destruct (negb isCurrentChannel).
    + unfold cmd.updateDMStyleAndMove. destruct (cmd.find _ _) as [dmNode|]; [|exact Hwf2].
      apply moveDMToTop_wellFormed.
      apply withRoot_wellFormed; [|exact Hwf2].
      match goal with
      | |- Permutation _ (tview.addresses (tview.modify ?p (tview.SetTextStyle ?s) ?t)) =>
          pose proof (addresses_restyle p s t) as Hsame
      end.
      unfold restyle in Hsame. now rewrite Hsame.
    + unfold cmd.moveDMToTopOnMessage. destruct (cmd.find _ _) as [dmNode|]; [|exact Hwf2].
      apply moveDMToTop_wellFormed. now destruct app2.
  - now apply updateChannelStyle_wellFormed.
Qed.

Lemma onReadUpdate_wellFormed discordState event app :
  wellFormed app → wellFormed (cmd.onReadUpdate discordState event app).
Proof.
  intros Hwf. unfold cmd.onReadUpdate.
  pose proof (everywhere_restyled (cmd.readUpdateCallback discordState event)
                (cmd.root app) None (None, false)) as Hfirst.
  destruct (tview.Walk _ (cmd.root app) None (None, false)) as [root1 [guildNode found]].
  simpl in Hfirst.
  destruct guildNode as [g|]; [destruct (tview.expanded g)|];
    try (apply (restyled_wellFormed (λ _, true)); [exact Hfirst|exact Hwf]).
  apply (restyled_wellFormed (λ _, true)); [|exact Hwf].
  eapply restyled_trans; [exact Hfirst|].
  apply modify_restyled. intros n. apply everywhere_restyled.
Qed.

(** Every handler keeps the state well formed, and so does every run. *)
Lemma handle_wellFormed discordState fmt cfg app e :
  wellFormed app → wellFormed (cmd.handle discordState fmt cfg app e).
Proof.
  intros Hwf. destruct e; simpl.
  - now apply onReady_wellFormed.
  - now apply onChannelCreate_wellFormed.
  - now apply onMessageCreate_wellFormed.
  - now apply onReadUpdate_wellFormed.
Qed.

Lemma run_wellFormed fmt cfg events :
  ∀ app, wellFormed app → wellFormed (cmd.run fmt cfg events app).
Proof.
  induction events as [|e events IH]; intros app Hwf; simpl; [exact Hwf|].
  apply IH. now apply handle_wellFormed.
Qed.

Lemma freshApp_wellFormed : wellFormed freshApp.
Proof.
  split; simpl.
  - repeat constructor. intros [].
  - intros a [<-|[]]. reflexivity.
Qed.

(** The states the client reaches from its start are well formed. *)
Corollary reachable_wellFormed fmt cfg events : wellFormed (cmd.run fmt cfg events freshApp).
Proof. apply run_wellFormed, freshApp_wellFormed. Qed.

(** * Further properties of the embedded code *)

(** ** The highest coloured role *)

(** [role] was found at [rid], after [pre] and before [post]: the coloured
    roles before it sit lower, those after it not higher. *)
Definition bestAt (discordState : ningen.State) (guildID : discord.GuildID)
    (ids : list discord.RoleID) (role : discord.Role) : Prop :=
  ∃ pre rid post,
    ids = pre ++ rid :: post ∧
    ningen.Role discordState guildID rid = Some role ∧
    (∀ rid' r', In rid' pre → ningen.Role discordState guildID rid' = Some r' →
                discord.Color r' ≠ 0%Z → (discord.Position r' < discord.Position role)%Z) ∧
    (∀ rid' r', In rid' post → ningen.Role discordState guildID rid' = Some r' →
                discord.Color r' ≠ 0%Z → (discord.Position r' ≤ discord.Position role)%Z).

Definition roleLoopBest (discordState : ningen.State) (guildID : discord.GuildID)
    (ids : list discord.RoleID) (acc : option discord.Role * Z) : Prop :=
  match fst acc with
  | None =>
      snd acc = 0%Z ∧
      ∀ rid r, In rid ids → ningen.Role discordState guildID rid = Some r →
               discord.Color r ≠ 0%Z → (discord.Position r ≤ 0)%Z
  | Some role => snd acc = discord.Position role ∧ bestAt discordState guildID ids role
  end.

Lemma roleLoop_best discordState guildID ids :
  ∀ done acc,
    roleLoopBest discordState guildID done acc →
    roleLoopBest discordState guildID (done ++ ids)
      (fold_left (roleLoopStep discordState guildID) ids acc).
Proof.
  induction ids as [|roleID ids IH]; intros done acc Hinv; simpl.
  - now rewrite app_nil_r.
  - replace (done ++ roleID :: ids) with ((done ++ [roleID]) ++ ids)
      by now rewrite <- app_assoc.
    apply IH. clear IH. destruct acc as [highestRole highestPos].
    unfold roleLoopStep, roleLoopBest in *. simpl in Hinv.
    destruct (ningen.Role discordState guildID roleID) as [role|] eqn:Hrole.
    + destruct (negb (discord.Color role =? 0)%Z && (highestPos <? discord.Position role)%Z)
        eqn:Hupd.
      * apply andb_true_iff in Hupd as [_ Hpos]. apply Z.ltb_lt in Hpos. simpl.
        split; [reflexivity|]. exists done, roleID, []. split; [reflexivity|].
        split; [exact Hrole|]. split; [|intros ? ? []].
        intros rid' r' Hin Hr' Hc'.
        destruct highestRole as [best|].
        -- destruct Hinv as (-> & pre & rid & post & -> & Hbest & Hpre & Hpost).
           apply in_app_or in Hin as [Hin|[<-|Hin]].
           ++ specialize (Hpre _ _ Hin Hr' Hc'). lia.
           ++ rewrite Hbest in Hr'. injection Hr' as <-. lia.
           ++ specialize (Hpost _ _ Hin Hr' Hc'). lia.
        -- destruct Hinv as [-> Hlow]. specialize (Hlow _ _ Hin Hr' Hc'). lia.
      * simpl. apply andb_false_iff in Hupd.
        assert (Hnew : discord.Color role ≠ 0%Z → (discord.Position role ≤ highestPos)%Z).
        { intros Hc. destruct Hupd as [Hupd|Hupd].
          - apply negb_false_iff, Z.eqb_eq in Hupd. contradiction.
          - apply Z.ltb_ge in Hupd. exact Hupd. }
        destruct highestRole as [best|].
        -- destruct Hinv as (-> & pre & rid & post & -> & Hbest & Hpre & Hpost).
           split; [reflexivity|]. exists pre, rid, (post ++ [roleID]).
           split; [now rewrite <- app_assoc|]. split; [exact Hbest|]. split; [exact Hpre|].
           intros rid' r' Hin Hr' Hc'. apply in_app_or in Hin as [Hin|[<-|[]]].
           ++ now apply (Hpost rid').
           ++ rewrite Hrole in Hr'. injection Hr' as <-. now apply Hnew.
        -- destruct Hinv as [-> Hlow]. split; [reflexivity|].
           intros rid r Hin Hr Hc. apply in_app_or in Hin as [Hin|[<-|[]]].
           ++ now apply (Hlow rid).
           ++ rewrite Hrole in Hr. injection Hr as <-. now apply Hnew.
    + simpl. destruct highestRole as [best|].
      * destruct Hinv as (-> & pre & rid & post & -> & Hbest & Hpre & Hpost).
        split; [reflexivity|]. exists pre, rid, (post ++ [roleID]).
        split; [now rewrite <- app_assoc|]. split; [exact Hbest|]. split; [exact Hpre|].
        intros rid' r' Hin Hr' Hc'. apply in_app_or in Hin as [Hin|[<-|[]]].
        -- now apply (Hpost rid').
        -- congruence.
      * destruct Hinv as [-> Hlow]. split; [reflexivity|].
        intros rid r Hin Hr Hc. apply in_app_or in Hin as [Hin|[<-|[]]].
        -- now apply (Hlow rid).
        -- congruence.
Qed.

(** X1.  The role [getRoleInfo] returns is a highest coloured role of the
    member: no coloured role of the member that the cache knows sits higher,
    and of several at the same height the first in the order of the role ids
    is returned.  A role is returned whenever the member has a coloured role
    above position 0. *)
Theorem getRoleInfo_highest_first
    (discordState : ningen.State) (guildID : discord.GuildID) (member : discord.Member) :
  (∀ role, cmd.getRoleInfo discordState guildID member = Some role →
           bestAt discordState guildID (discord.RoleIDs member) role) ∧
  (∀ rid r, In rid (discord.RoleIDs member) →
            ningen.Role discordState guildID rid = Some r →
            discord.Color r ≠ 0%Z → (0 < discord.Position r)%Z →
            ∃ role, cmd.getRoleInfo discordState guildID member = Some role ∧
                    (discord.Position r ≤ discord.Position role)%Z).
Proof.
  pose proof (roleLoop_best discordState guildID (discord.RoleIDs member) [] (None, 0%Z)) as Hinv.
  simpl in Hinv.
  assert (Hstart : roleLoopBest discordState guildID [] (None, 0%Z))
    by (split; [reflexivity|intros ? ? []]).
  specialize (Hinv Hstart). clear Hstart.
  assert (Hget : cmd.getRoleInfo discordState guildID member =
                 fst (fold_left (roleLoopStep discordState guildID) (discord.RoleIDs member)
                        (None, 0%Z))).
  { unfold cmd.getRoleInfo.
    destruct (discord.RoleIDs member) as [|x l]; reflexivity. }
  rewrite Hget. unfold roleLoopBest in Hinv.
  destruct (fst (fold_left _ _ _)) as [best|].
  - destruct Hinv as [_ Hbest]. split.
    + intros role [= <-]. exact Hbest.
    + intros rid r Hin Hr Hc Hp. exists best. split; [reflexivity|].
      destruct Hbest as (pre & rid0 & post & Heq & Hr0 & Hpre & Hpost).
      rewrite Heq in Hin. apply in_app_or in Hin as [Hin|[<-|Hin]].
      * specialize (Hpre _ _ Hin Hr Hc). lia.
      * rewrite Hr0 in Hr. injection Hr as <-. lia.
      * now apply (Hpost rid).
  - destruct Hinv as [_ Hlow]. split; [discriminate|].
    intros rid r Hin Hr Hc Hp. specialize (Hlow _ _ Hin Hr Hc). lia.
Qed.

Lemma getRoleInfo_highest_first_witness :
  bestAt rolesState 1 [7; 9; 8]%N
    {| discord.RoleID_ := 9; discord.RoleName := "Mods";
       discord.Color := 65280; discord.Position := 5 |}.
Proof.
  apply (proj1 (getRoleInfo_highest_first rolesState 1 (memberWithRoles 4 "mo" [7; 9; 8]%N))).
  reflexivity.
Defined.

(** ** The layout of the members list *)

(** The members of a list that fall into the bucket [name], in their order. *)
Definition bucketOf (name : string) (items : list cmd.memberItem) : list cmd.memberItem :=
  List.filter (λ item, String.eqb (bucketName item) name) items.

Lemma groupMembersByRole_fold (items : list cmd.memberItem) :
  ∀ (grouped : gmap string (list cmd.memberItem)) name,
    fold_left
      (λ (grouped : gmap string (list cmd.memberItem)) member,
         let roleName :=
           match cmd.RoleInfo member with
           | Some role => discord.RoleName role
           | None => "No Role"
           end in
         <[roleName := default [] (grouped !! roleName) ++ [member]]> grouped)
      items grouped !! name =
    match bucketOf name items with
    | [] => grouped !! name
    | l => Some (default [] (grouped !! name) ++ l)
    end.
Proof.
  induction items as [|m items IH]; intros grouped name; [reflexivity|].
  cbn [fold_left]. rewrite IH. fold (bucketName m). unfold bucketOf. cbn [List.filter].
  destruct (String.eqb_spec (bucketName m) name) as [->|Hne].
  - rewrite lookup_insert_eq. simpl.
    destruct (List.filter _ items); [reflexivity|]. now rewrite <- app_assoc.
  - now rewrite lookup_insert_ne.
Qed.

(** X2.  [groupMembersByRole] splits the members by bucket name and keeps
    their order: the bucket of a name holds exactly the members with that
    bucket name, in the order of the input, and there is no empty bucket. *)
Theorem groupMembersByRole_stable_partition (items : list cmd.memberItem) (name : string) :
  cmd.groupMembersByRole items !! name =
  match bucketOf name items with
  | [] => None
  | l => Some l
  end.
Proof.
  unfold cmd.groupMembersByRole. rewrite groupMembersByRole_fold.
  now rewrite lookup_empty.
Qed.

Lemma bucket_default items name :
  default [] (cmd.groupMembersByRole items !! name) = bucketOf name items.
Proof. rewrite groupMembersByRole_stable_partition. now destruct (bucketOf name items). Qed.

(** The rows of a role section: the header, then one row per member, each
    with the user the index cache records for it. *)
Definition sectionEntries (fmt : ui.Format) (sorted : list cmd.memberItem) (name : string)
  : list (string * option N) :=
  (cmd.roleHeader name, None) ::
  List.map
    (λ member, (cmd.formatMemberText fmt member,
                Some (discord.UserID_ (discord.MemberUser (cmd.Member member)))))
    (bucketOf name sorted).

(** Writing the index cache for rows numbered from [index] on. *)
Fixpoint recordRows (entries : list (string * option N)) (index : Z) (cache : gmap N Z)
  : gmap N Z :=
  match entries with
  | [] => cache
  | (_, Some userID) :: rest => recordRows rest (index + 1) (<[userID := index]> cache)
  | (_, None) :: rest => recordRows rest (index + 1) cache
  end.

Lemma recordRows_app l1 l2 index cache :
  recordRows (l1 ++ l2) index cache =
  recordRows l2 (index + Z.of_nat (length l1)) (recordRows l1 index cache).
Proof.
  revert index cache. induction l1 as [|[t [u|]] l1 IH]; intros index cache; simpl length.
  - simpl. f_equal. lia.
  - simpl. rewrite IH. f_equal. lia.
  - simpl. rewrite IH. f_equal. lia.
Qed.

Lemma memberRows_fold (fmt : ui.Format) (bucket : list cmd.memberItem) :
  ∀ (its0 : list string) (cache0 : gmap N Z) (index0 : Z),
    fold_left
      (λ (acc : list string * gmap N Z * Z) member,
         let '(its, cache, itemIndex) := acc in
         (its ++ [cmd.formatMemberText fmt member],
          <[discord.UserID_ (discord.MemberUser (cmd.Member member)) := itemIndex]> cache,
          (itemIndex + 1)%Z))
      bucket (its0, cache0, index0) =
    (its0 ++ List.map (cmd.formatMemberText fmt) bucket,
     recordRows
       (List.map
          (λ member, (cmd.formatMemberText fmt member,
                      Some (discord.UserID_ (discord.MemberUser (cmd.Member member)))))
          bucket) index0 cache0,
     (index0 + Z.of_nat (length bucket))%Z).
Proof.
  induction bucket as [|m bucket IH]; intros its0 cache0 index0.
  - simpl. rewrite app_nil_r. f_equal. lia.
  - cbn [fold_left List.map recordRows length]. rewrite IH.
    rewrite <- app_assoc. simpl. f_equal. lia.
Qed.

Lemma addRoleSection_entries (fmt : ui.Format) (sorted : list cmd.memberItem) name its cache index :
  cmd.addRoleSection fmt (cmd.groupMembersByRole sorted) (its, cache, index) name =
  (its ++ List.map fst (sectionEntries fmt sorted name),
   recordRows (sectionEntries fmt sorted name) index cache,
   (index + Z.of_nat (length (sectionEntries fmt sorted name)))%Z).
Proof.
  unfold cmd.addRoleSection, sectionEntries. rewrite bucket_default.
  rewrite memberRows_fold.
  cbn [List.map fst recordRows length]. rewrite List.map_map. cbn [fst].
  rewrite <- app_assoc. cbn [app]. rewrite List.length_map. f_equal. lia.
Qed.

(** All rows of the list, section after section. *)
Definition listEntries (fmt : ui.Format) (sorted : list cmd.memberItem) (names : list string)
  : list (string * option N) :=
  List.flat_map (sectionEntries fmt sorted) names.

Lemma addRoleSection_fold (fmt : ui.Format) (sorted : list cmd.memberItem) (names : list string) :
  ∀ its cache index,
    fold_left (cmd.addRoleSection fmt (cmd.groupMembersByRole sorted)) names (its, cache, index) =
    (its ++ List.map fst (listEntries fmt sorted names),
     recordRows (listEntries fmt sorted names) index cache,
     (index + Z.of_nat (length (listEntries fmt sorted names)))%Z).
Proof.
  induction names as [|name names IH]; intros its cache index.
  - simpl. rewrite app_nil_r. f_equal. lia.
  - cbn [fold_left]. rewrite addRoleSection_entries, IH.
    unfold listEntries. cbn [List.flat_map].
    rewrite List.map_app, recordRows_app, List.length_app, <- app_assoc.
    f_equal. lia.
Qed.

Lemma CompareString_swo : Go.StrictWeakOrdering Go.CompareString.
Proof.
  unfold Go.CompareString. split.
  - intros a b. rewrite of_comparison_neg, of_comparison_pos, (String.compare_antisym a).
    destruct (String.compare b a); simpl; split; congruence.
  - intros a b c. rewrite !of_comparison_le. apply string_compare_trans.
Qed.

(** The member items of a snapshot in the order [rebuildList] shows them, and
    the names of the sections it builds. *)
Definition sortedMembers (slices : Go.Slices) (strs : Go.Strings) (discordState : ningen.State)
    (guildID : discord.GuildID) (members : list discord.Member) : list cmd.memberItem :=
  Go.SortFunc slices _ (cmd.sortMembers strs) (cmd.buildMemberItems discordState guildID members).

Definition sectionNames (slices : Go.Slices) (sorted : list cmd.memberItem) : list string :=
  Go.SortFunc slices _ Go.CompareString
    (List.map fst (map_to_list (cmd.groupMembersByRole sorted))).

Lemma rebuildList_rows (slices : Go.Slices) (strs : Go.Strings) (discordState : ningen.State) (fmt : ui.Format)
    (ml : cmd.membersList) (members : list discord.Member) :
  discord.IsValid (cmd.currentGuildID ml) = true →
  cmd.visible ml = true →
  ningen.Members discordState (cmd.currentGuildID ml) = Some members →
  let sorted := sortedMembers slices strs discordState (cmd.currentGuildID ml) members in
  let entries := listEntries fmt sorted (sectionNames slices sorted) in
  cmd.rebuildList slices strs discordState fmt ml =
  {| cmd.items := List.map fst entries;
     cmd.currentGuildID := cmd.currentGuildID ml;
     cmd.visible := cmd.visible ml;
     cmd.memberItems := recordRows entries 0 ∅ |}.
Proof.
  intros Hvalid Hvisible Hmembers sorted entries.
  unfold cmd.rebuildList. rewrite Hvalid, Hvisible, Hmembers. cbn [negb].
  fold (sortedMembers slices strs discordState (cmd.currentGuildID ml) members). fold sorted.
  fold (sectionNames slices sorted).
  rewrite addRoleSection_fold. reflexivity.
Qed.

Lemma fst_map_to_list_In (grouped : gmap string (list cmd.memberItem)) name :
  In name (List.map fst (map_to_list grouped)) ↔ is_Some (grouped !! name).
Proof.
  rewrite in_map_iff. split.
  - intros [[k v] [<- Hin]]. apply list_elem_of_In, elem_of_map_to_list in Hin.
    now exists v.
  - intros [v Hv]. exists (name, v). split; [reflexivity|].
    now apply list_elem_of_In, elem_of_map_to_list.
Qed.

Lemma fst_map_to_list_NoDup (grouped : gmap string (list cmd.memberItem)) :
  List.NoDup (List.map fst (map_to_list grouped)).
Proof.
  exact (proj1 (NoDup_ListNoDup _) (NoDup_fst_map_to_list grouped)).
Qed.

Lemma bucketOf_In name items item :
  In item (bucketOf name items) ↔ In item items ∧ bucketName item = name.
Proof.
  unfold bucketOf. rewrite List.filter_In. now rewrite String.eqb_eq.
Qed.

Lemma sectionNames_In (slices : Go.Slices) (sorted : list cmd.memberItem) name :
  In name (sectionNames slices sorted) ↔ ∃ item, In item sorted ∧ bucketName item = name.
Proof.
  unfold sectionNames.
  rewrite <- (Permutation_in' (eq_refl name) (Go.SortFunc_perm slices _ _ _)).
  rewrite fst_map_to_list_In, groupMembersByRole_stable_partition.
  destruct (bucketOf name sorted) as [|item l] eqn:Hbucket.
  - split; [intros [? [=]]|]. intros [item Hitem].
    apply bucketOf_In in Hitem. rewrite Hbucket in Hitem. destruct Hitem.
  - split; [|now eexists]. intros _. exists item. apply bucketOf_In.
    rewrite Hbucket. now left.
Qed.

Lemma sectionNames_NoDup (slices : Go.Slices) (sorted : list cmd.memberItem) :
  List.NoDup (sectionNames slices sorted).
Proof.
  unfold sectionNames. eapply Permutation_NoDup; [apply Go.SortFunc_perm|].
  apply fst_map_to_list_NoDup.
Qed.

Lemma sectionNames_ascending (slices : Go.Slices) (sorted : list cmd.memberItem) :
  StronglySorted (λ a b, String.compare a b = Lt) (sectionNames slices sorted).
Proof.
  pose proof (sectionNames_NoDup slices sorted) as Hnodup.
  assert (Hsorted : StronglySorted (λ a b, (Go.CompareString a b ≤ 0)%Z)
                      (sectionNames slices sorted))
    by apply Go.SortFunc_sorted, CompareString_swo.
  induction Hsorted as [|name names Hs IH Hall]; [constructor|].
  apply NoDup_cons_iff in Hnodup as [Hnotin Hnodup].
  constructor; [now apply IH|].
  apply List.Forall_forall. intros b Hb.
  rewrite List.Forall_forall in Hall. specialize (Hall b Hb).
  unfold Go.CompareString in Hall. apply (proj1 (of_comparison_le _)) in Hall.
  destruct (String.compare name b) eqn:Hcmp; [|reflexivity|congruence].
  apply String.compare_eq_iff in Hcmp. congruence.
Qed.

(** The buckets of distinct names that cover the items hold every item
    once. *)
Lemma buckets_Permutation (names : list string) (items : list cmd.memberItem) :
  List.NoDup names →
  (∀ item, In item items → In (bucketName item) names) →
  Permutation (List.flat_map (λ name, bucketOf name items) names) items.
Proof.
  intros Hnodup. induction items as [|x items IH]; intros Hcover.
  - clear. induction names as [|n names IHn]; [reflexivity|]. exact IHn.
  - assert (Hin : In (bucketName x) names) by (apply Hcover; now left).
    apply in_split in Hin as (n1 & n2 & Hnames).
    assert (Hrest : ∀ ns, ¬ In (bucketName x) ns →
              List.flat_map (λ name, bucketOf name (x :: items)) ns =
              List.flat_map (λ name, bucketOf name items) ns).
    { induction ns as [|n ns IHns]; intros Hnot; [reflexivity|]. cbn [List.flat_map].
      rewrite IHns by (intros H; apply Hnot; now right). f_equal.
      unfold bucketOf. cbn [List.filter].
      destruct (String.eqb_spec (bucketName x) n) as [Heq|Hne]; [|reflexivity].
      exfalso. apply Hnot. now left. }
    rewrite <- IH by (intros item Hitem; apply Hcover; now right).
    rewrite Hnames in Hnodup |- *.
    pose proof (NoDup_remove_2 _ _ _ Hnodup) as Hnot.
    rewrite !List.flat_map_app. cbn [List.flat_map].
    rewrite !Hrest by (intros H; apply Hnot, in_or_app; tauto).
    unfold bucketOf at 2. cbn [List.filter]. rewrite String.eqb_refl.
    fold (bucketOf (bucketName x) items).
    symmetry. apply Permutation_middle.
Qed.

Lemma listEntries_length (fmt : ui.Format) (sorted : list cmd.memberItem) (names : list string) :
  length (listEntries fmt sorted names) =
  (length names + length (List.flat_map (λ name, bucketOf name sorted) names))%nat.
Proof.
  unfold listEntries. induction names as [|n names IH]; [reflexivity|].
  cbn [List.flat_map]. rewrite !List.length_app, IH.
  unfold sectionEntries. cbn [length]. rewrite List.length_map. lia.
Qed.

Lemma listEntries_rows (fmt : ui.Format) (sorted : list cmd.memberItem) (names : list string) :
  List.map fst (listEntries fmt sorted names) =
  List.flat_map
    (λ name, cmd.roleHeader name :: List.map (cmd.formatMemberText fmt) (bucketOf name sorted))
    names.
Proof.
  unfold listEntries. induction names as [|n names IH]; [reflexivity|].
  cbn [List.flat_map]. rewrite List.map_app, IH. f_equal.
  unfold sectionEntries. cbn [List.map fst]. now rewrite List.map_map.
Qed.

(** X3.  The layout of a rebuilt members list.  On a visible list with a
    valid guild whose snapshot can be read, the rows are one section per
    bucket name: the header of the name, then the members of the bucket in
    sorted order.  The names are those of the members' buckets, each once, in
    strictly ascending byte order, and the list has one row per member and
    one per section. *)
Theorem rebuildList_sections
    (slices : Go.Slices) (strs : Go.Strings) (discordState : ningen.State) (fmt : ui.Format)
    (ml : cmd.membersList) (members : list discord.Member) :
  discord.IsValid (cmd.currentGuildID ml) = true →
  cmd.visible ml = true →
  ningen.Members discordState (cmd.currentGuildID ml) = Some members →
  let sorted := sortedMembers slices strs discordState (cmd.currentGuildID ml) members in
  ∃ names,
    StronglySorted (λ a b, String.compare a b = Lt) names ∧
    (∀ name, In name names ↔
             ∃ item, In item (cmd.buildMemberItems discordState (cmd.currentGuildID ml) members) ∧
                     bucketName item = name) ∧
    cmd.items (cmd.rebuildList slices strs discordState fmt ml) =
      List.flat_map
        (λ name, cmd.roleHeader name ::
                 List.map (cmd.formatMemberText fmt) (bucketOf name sorted))
        names ∧
    length (cmd.items (cmd.rebuildList slices strs discordState fmt ml)) =
      (length members + length names)%nat.
Proof.
  intros Hvalid Hvisible Hmembers sorted.
  rewrite (rebuildList_rows slices strs discordState fmt ml members Hvalid Hvisible Hmembers).
  cbn [cmd.items]. fold sorted.
  exists (sectionNames slices sorted).
  assert (Hperm : Permutation
            (cmd.buildMemberItems discordState (cmd.currentGuildID ml) members) sorted)
    by apply Go.SortFunc_perm.
  split; [apply sectionNames_ascending|].
  split.
  - intros name. rewrite sectionNames_In. split; intros (item & Hin & Hname);
      exists item; (split; [|exact Hname]).
    + eapply Permutation_in; [symmetry; exact Hperm|exact Hin].
    + eapply Permutation_in; [exact Hperm|exact Hin].
  - split; [apply listEntries_rows|].
    rewrite List.length_map, listEntries_length.
    rewrite (Permutation_length
               (buckets_Permutation (sectionNames slices sorted) sorted
                  (sectionNames_NoDup slices sorted)
                  (λ item Hin, proj2 (sectionNames_In slices sorted (bucketName item))
                                 (ex_intro _ item (conj Hin eq_refl))))).
    rewrite <- (Permutation_length Hperm).
    unfold cmd.buildMemberItems. rewrite List.length_map. lia.
Qed.

(** A guild with three members: two moderators and one member whose roles
    give no colour above position 0. *)
Definition rosterState : ningen.State :=
  {| ningen.Guild := ningen.Guild rolesState; ningen.Channel := ningen.Channel rolesState;
     ningen.Members := λ _,
       Some [memberWithRoles 5 "dee" [7; 8]%N; memberWithRoles 4 "mo" [9]%N;
             memberWithRoles 6 "al" [8; 9]%N];
     ningen.Presence := ningen.Presence rolesState; ningen.Role := ningen.Role rolesState;
     ningen.ChannelIsUnread := ningen.ChannelIsUnread rolesState;
     ningen.GuildIsUnread := ningen.GuildIsUnread rolesState;
     ningen.HasViewPermission := ningen.HasViewPermission rolesState;
     ningen.PrivateChannels := ningen.PrivateChannels rolesState;
     ningen.SearchLimit := ningen.SearchLimit rolesState;
     ningen.SearchFrequency := ningen.SearchFrequency rolesState |}.

Lemma rebuildList_sections_witness :
  ∃ names,
    StronglySorted (λ a b, String.compare a b = Lt) names ∧
    (∀ name, In name names ↔
             ∃ item, In item (cmd.buildMemberItems rosterState 1
                                [memberWithRoles 5 "dee" [7; 8]%N; memberWithRoles 4 "mo" [9]%N;
                                 memberWithRoles 6 "al" [8; 9]%N]) ∧
                     bucketName item = name) ∧
    cmd.items (cmd.rebuildList Go.insertionSlices Go.asciiStrings rosterState plainFormat (shownList 1 [])) =
      List.flat_map
        (λ name, cmd.roleHeader name ::
                 List.map (cmd.formatMemberText plainFormat)
                   (bucketOf name
                      (sortedMembers Go.insertionSlices Go.asciiStrings rosterState 1
                         [memberWithRoles 5 "dee" [7; 8]%N; memberWithRoles 4 "mo" [9]%N;
                          memberWithRoles 6 "al" [8; 9]%N])))
        names ∧
    length (cmd.items (cmd.rebuildList Go.insertionSlices Go.asciiStrings rosterState plainFormat
                         (shownList 1 []))) =
      (3 + length names)%nat.
Proof.
  apply (rebuildList_sections Go.insertionSlices Go.asciiStrings rosterState plainFormat (shownList 1 [])
           [memberWithRoles 5 "dee" [7; 8]%N; memberWithRoles 4 "mo" [9]%N;
            memberWithRoles 6 "al" [8; 9]%N]); reflexivity.
Defined.

(** ** The index cache of the members list *)

Lemma recordRows_lookup (entries : list (string * option N)) :
  ∀ (index : Z) (cache : gmap N Z) (userID : N) (i : Z),
    recordRows entries index cache !! userID = Some i →
    cache !! userID = Some i ∨
    ((index ≤ i)%Z ∧
     ∃ text, nth_error entries (Z.to_nat (i - index)) = Some (text, Some userID)).
Proof.
  induction entries as [|[text [u|]] entries IH]; intros index cache userID i H.
  - now left.
  - cbn [recordRows] in H. apply IH in H as [H|[Hle [text' H]]].
    + destruct (N.eq_dec u userID) as [->|Hne].
      * rewrite lookup_insert_eq in H. injection H as <-. right.
        split; [lia|]. exists text. now rewrite Z.sub_diag.
      * rewrite lookup_insert_ne in H by exact Hne. now left.
    + right. split; [lia|]. exists text'.
      replace (Z.to_nat (i - index)) with (S (Z.to_nat (i - (index + 1)))) by lia.
      exact H.
  - cbn [recordRows] in H. apply IH in H as [H|[Hle [text' H]]]; [now left|].
    right. split; [lia|]. exists text'.
    replace (Z.to_nat (i - index)) with (S (Z.to_nat (i - (index + 1)))) by lia.
    exact H.
Qed.

Lemma recordRows_written (entries : list (string * option N)) :
  ∀ (index : Z) (cache : gmap N Z) (userID : N),
    is_Some (cache !! userID) ∨ (∃ text, In (text, Some userID) entries) →
    is_Some (recordRows entries index cache !! userID).
Proof.
  induction entries as [|[text [u|]] entries IH]; intros index cache userID H.
  - destruct H as [H|[? []]]. exact H.
  - cbn [recordRows]. apply IH.
    destruct (N.eq_dec u userID) as [->|Hne].
    + left. rewrite lookup_insert_eq. now eexists.
    + rewrite lookup_insert_ne by exact Hne.
      destruct H as [H|[text' [H|H]]]; [now left|congruence|right; now exists text'].
  - cbn [recordRows]. apply IH.
    destruct H as [H|[text' [H|H]]]; [now left|congruence|right; now exists text'].
Qed.

Lemma listEntries_member (fmt : ui.Format) (sorted : list cmd.memberItem) (names : list string)
    (text : string) (userID : N) :
  In (text, Some userID) (listEntries fmt sorted names) →
  ∃ item, In item sorted ∧
          discord.UserID_ (discord.MemberUser (cmd.Member item)) = userID ∧
          text = cmd.formatMemberText fmt item.
Proof.
  unfold listEntries. rewrite in_flat_map. intros (name & _ & [H|H]); [discriminate|].
  apply in_map_iff in H as (item & [= <- <-] & Hin).
  apply bucketOf_In in Hin as [Hin _]. now exists item.
Qed.

Lemma listEntries_has_member (fmt : ui.Format) (sorted : list cmd.memberItem)
    (names : list string) (item : cmd.memberItem) :
  In item sorted → In (bucketName item) names →
  In (cmd.formatMemberText fmt item,
      Some (discord.UserID_ (discord.MemberUser (cmd.Member item))))
    (listEntries fmt sorted names).
Proof.
  intros Hitem Hname. unfold listEntries. apply in_flat_map.
  exists (bucketName item). split; [exact Hname|]. right.
  apply in_map_iff. exists item. split; [reflexivity|]. now apply bucketOf_In.
Qed.

Lemma listEntries_first_row (fmt : ui.Format) (sorted : list cmd.memberItem)
    (names : list string) (text : string) (userID : N) :
  nth_error (listEntries fmt sorted names) 0 ≠ Some (text, Some userID).
Proof. destruct names; simpl; congruence. Qed.

(** The rows recorded in the index cache of a rebuilt list. *)
Lemma rebuildList_cache_row
    (slices : Go.Slices) (strs : Go.Strings) (discordState : ningen.State) (fmt : ui.Format)
    (ml : cmd.membersList) (members : list discord.Member) (userID : N) (i : Z) :
  discord.IsValid (cmd.currentGuildID ml) = true →
  cmd.visible ml = true →
  ningen.Members discordState (cmd.currentGuildID ml) = Some members →
  cmd.memberItems (cmd.rebuildList slices strs discordState fmt ml) !! userID = Some i →
  (1 ≤ i < Z.of_nat (length (cmd.items (cmd.rebuildList slices strs discordState fmt ml))))%Z ∧
  ∃ item,
    In item (cmd.buildMemberItems discordState (cmd.currentGuildID ml) members) ∧
    discord.UserID_ (discord.MemberUser (cmd.Member item)) = userID ∧
    nth_error (listEntries fmt
                 (sortedMembers slices strs discordState (cmd.currentGuildID ml) members)
                 (sectionNames slices
                    (sortedMembers slices strs discordState (cmd.currentGuildID ml) members)))
      (Z.to_nat i) = Some (cmd.formatMemberText fmt item, Some userID).
Proof.
  intros Hvalid Hvisible Hmembers.
  rewrite (rebuildList_rows slices strs discordState fmt ml members Hvalid Hvisible Hmembers).
  cbn [cmd.items cmd.memberItems]. intros Hrow.
  apply recordRows_lookup in Hrow as [Hrow|[Hle [text Hrow]]];
    [now rewrite lookup_empty in Hrow|].
  rewrite Z.sub_0_r in Hrow.
  assert (Hlt : (Z.to_nat i < length (listEntries fmt
                   (sortedMembers slices strs discordState (cmd.currentGuildID ml) members)
                   (sectionNames slices
                      (sortedMembers slices strs discordState (cmd.currentGuildID ml) members))))%nat)
    by (apply nth_error_Some; congruence).
  assert (Hpos : i ≠ 0%Z).
  { intros ->. now apply listEntries_first_row in Hrow. }
  rewrite List.length_map. split; [lia|].
  destruct (listEntries_member fmt _ _ text userID (nth_error_In _ _ Hrow))
    as (item & Hin & Huid & ->).
  exists item. split; [|split; [exact Huid|exact Hrow]].
  eapply Permutation_in; [symmetry; apply Go.SortFunc_perm|exact Hin].
Qed.

(** X4.  The index cache of a rebuilt members list.  On a visible list with
    a valid guild whose snapshot can be read: every user of the snapshot has
    an entry; an entry points at a row after the first, inside the list,
    that shows a member of the snapshot with that user id; and no two users
    share a row. *)
Theorem rebuildList_index_cache
    (slices : Go.Slices) (strs : Go.Strings) (discordState : ningen.State) (fmt : ui.Format)
    (ml : cmd.membersList) (members : list discord.Member) :
  discord.IsValid (cmd.currentGuildID ml) = true →
  cmd.visible ml = true →
  ningen.Members discordState (cmd.currentGuildID ml) = Some members →
  let ml' := cmd.rebuildList slices strs discordState fmt ml in
  (∀ member, In member members →
             is_Some (cmd.memberItems ml' !! discord.UserID_ (discord.MemberUser member))) ∧
  (∀ userID i,
     cmd.memberItems ml' !! userID = Some i →
     (1 ≤ i < Z.of_nat (length (cmd.items ml')))%Z ∧
     ∃ item, In item (cmd.buildMemberItems discordState (cmd.currentGuildID ml) members) ∧
             discord.UserID_ (discord.MemberUser (cmd.Member item)) = userID ∧
             nth (Z.to_nat i) (cmd.items ml') "" = cmd.formatMemberText fmt item) ∧
  (∀ userID userID' i,
     cmd.memberItems ml' !! userID = Some i →
     cmd.memberItems ml' !! userID' = Some i → userID = userID').
Proof.
  intros Hvalid Hvisible Hmembers ml'. subst ml'. split; [|split].
  - intros member Hin.
    rewrite (rebuildList_rows slices strs discordState fmt ml members Hvalid Hvisible Hmembers).
    cbn [cmd.memberItems].
    set (item := {| cmd.Member := member;
                    cmd.Presence := cmd.getPresence discordState (cmd.currentGuildID ml)
                                      (discord.UserID_ (discord.MemberUser member));
                    cmd.RoleInfo := cmd.getRoleInfo discordState (cmd.currentGuildID ml)
                                      member |}).
    assert (Hitem : In item (sortedMembers slices strs discordState (cmd.currentGuildID ml) members)).
    { eapply Permutation_in; [apply Go.SortFunc_perm|].
      unfold cmd.buildMemberItems. apply in_map_iff. now exists member. }
    apply recordRows_written. right. exists (cmd.formatMemberText fmt item).
    apply (listEntries_has_member fmt _ _ item Hitem).
    apply sectionNames_In. now exists item.
  - intros userID i Hrow.
    destruct (rebuildList_cache_row slices strs discordState fmt ml members userID i
                Hvalid Hvisible Hmembers Hrow) as [Hrange (item & Hin & Huid & Hnth)].
    split; [exact Hrange|]. exists item. split; [exact Hin|]. split; [exact Huid|].
    rewrite (rebuildList_rows slices strs discordState fmt ml members Hvalid Hvisible Hmembers).
    cbn [cmd.items].
    apply nth_error_nth. rewrite nth_error_map, Hnth. reflexivity.
  - intros userID userID' i Hrow Hrow'.
    destruct (rebuildList_cache_row slices strs discordState fmt ml members userID i
                Hvalid Hvisible Hmembers Hrow) as [_ (item & _ & _ & Hnth)].
    destruct (rebuildList_cache_row slices strs discordState fmt ml members userID' i
                Hvalid Hvisible Hmembers Hrow') as [_ (item' & _ & _ & Hnth')].
    congruence.
Qed.

Lemma rebuildList_index_cache_witness :
  cmd.memberItems (cmd.rebuildList Go.insertionSlices Go.asciiStrings rosterState plainFormat (shownList 1 []))
    !! 5%N = Some 4%Z ∧
  ∀ userID,
    cmd.memberItems (cmd.rebuildList Go.insertionSlices Go.asciiStrings rosterState plainFormat (shownList 1 []))
      !! userID = Some 4%Z → 5%N = userID.
Proof.
  split; [reflexivity|]. intros userID.
  apply (rebuildList_index_cache Go.insertionSlices Go.asciiStrings rosterState plainFormat (shownList 1 [])
           [memberWithRoles 5 "dee" [7; 8]%N; memberWithRoles 4 "mo" [9]%N;
            memberWithRoles 6 "al" [8; 9]%N]); reflexivity.
Defined.

(** X5.  Selecting a row of a rebuilt members list.  When [onSelected] starts
    a direct message, the selected row shows a member of the snapshot and the
    message goes to that member's user; and every user of the snapshot with a
    valid id has a row whose selection starts a direct message with that
    user, unless the text of the row holds the glyph of the headers. *)
Theorem onSelected_after_rebuildList
    (slices : Go.Slices) (strs : Go.Strings) (discordState : ningen.State) (fmt : ui.Format)
    (ml : cmd.membersList) (members : list discord.Member) :
  discord.IsValid (cmd.currentGuildID ml) = true →
  cmd.visible ml = true →
  ningen.Members discordState (cmd.currentGuildID ml) = Some members →
  let ml' := cmd.rebuildList slices strs discordState fmt ml in
  (∀ index effects,
     cmd.onSelected ml' index = effects → effects ≠ [] →
     ∃ item, In item (cmd.buildMemberItems discordState (cmd.currentGuildID ml) members) ∧
             nth (Z.to_nat index) (cmd.items ml') "" = cmd.formatMemberText fmt item ∧
             effects =
               [cmd.InitiateDM (discord.UserID_ (discord.MemberUser (cmd.Member item)))]) ∧
  (∀ member,
     In member members →
     discord.IsValid (discord.UserID_ (discord.MemberUser member)) = true →
     ∃ index,
       cmd.memberItems ml' !! discord.UserID_ (discord.MemberUser member) = Some index ∧
       (Go.Contains (nth (Z.to_nat index) (cmd.items ml') "") "─" = false →
        cmd.onSelected ml' index =
          [cmd.InitiateDM (discord.UserID_ (discord.MemberUser member))])).
Proof.
  intros Hvalid Hvisible Hmembers ml'.
  destruct (rebuildList_index_cache slices strs discordState fmt ml members
              Hvalid Hvisible Hmembers) as (Hall & Hrows & Hinj).
  fold ml' in Hall, Hrows, Hinj.
  assert (Hhead : ∀ index userID,
            cmd.memberItems ml' !! userID = Some index →
            List.filter (λ kv : N * Z, (snd kv =? index)%Z) (map_to_list (cmd.memberItems ml')) =
            [(userID, index)]).
  { intros index userID Hrow.
    assert (Hnodup : List.NoDup
              (List.filter (λ kv : N * Z, (snd kv =? index)%Z)
                 (map_to_list (cmd.memberItems ml')))).
    { apply List.NoDup_filter. apply NoDup_ListNoDup, NoDup_map_to_list. }
    assert (Hin : In (userID, index)
              (List.filter (λ kv : N * Z, (snd kv =? index)%Z)
                 (map_to_list (cmd.memberItems ml')))).
    { apply List.filter_In. split; [|apply Z.eqb_refl].
      now apply list_elem_of_In, elem_of_map_to_list. }
    assert (Honly : ∀ kv, In kv (List.filter (λ kv : N * Z, (snd kv =? index)%Z)
                                   (map_to_list (cmd.memberItems ml'))) →
                          kv = (userID, index)).
    { intros [k v] Hkv. apply List.filter_In in Hkv as [Hkv Hv].
      apply Z.eqb_eq in Hv. simpl in Hv. subst v.
      apply list_elem_of_In, elem_of_map_to_list in Hkv.
      now rewrite (Hinj _ _ _ Hrow Hkv). }
    destruct (List.filter _ _) as [|kv [|kv' l]]; [destruct Hin| |].
    - now rewrite (Honly kv (or_introl eq_refl)).
    - exfalso. apply NoDup_cons_iff in Hnodup as [Hnot _]. apply Hnot.
      rewrite (Honly kv (or_introl eq_refl)), (Honly kv' (or_intror (or_introl eq_refl))).
      now left. }
  split.
  - intros index effects Hsel Hsome. unfold cmd.onSelected in Hsel.
    destruct (_ || _); [congruence|].
    destruct (Go.Contains _ _); [congruence|].
    destruct (List.filter _ _) as [|[id v] l] eqn:Hfilter.
    + simpl in Hsel. congruence.
    + destruct (negb (discord.IsValid id)); [congruence|].
      assert (Hin : In (id, v) (List.filter (λ kv : N * Z, (snd kv =? index)%Z)
                                  (map_to_list (cmd.memberItems ml'))))
        by (rewrite Hfilter; now left).
      apply List.filter_In in Hin as [Hin Hv]. apply Z.eqb_eq in Hv. simpl in Hv. subst v.
      apply list_elem_of_In, elem_of_map_to_list in Hin.
      destruct (Hrows id index Hin) as [_ (item & Hitem & Huid & Hnth)].
      exists item. split; [exact Hitem|]. split; [exact Hnth|]. now rewrite Huid.
  - intros member Hin Hid. destruct (Hall member Hin) as [index Hrow].
    exists index. split; [exact Hrow|]. intros Hplain.
    destruct (Hrows _ _ Hrow) as [Hrange _].
    unfold cmd.onSelected.
    replace (index <? 0)%Z with false by (symmetry; apply Z.ltb_ge; lia).
    replace (Z.of_nat (length (cmd.items ml')) <=? index)%Z with false
      by (symmetry; apply Z.leb_gt; lia).
    cbn [orb]. rewrite Hplain, (Hhead _ _ Hrow), Hid. reflexivity.
Qed.

Lemma onSelected_after_rebuildList_witness :
  ∃ index,
    cmd.memberItems (cmd.rebuildList Go.insertionSlices Go.asciiStrings rosterState plainFormat (shownList 1 []))
      !! 4%N = Some index ∧
    (Go.Contains
       (nth (Z.to_nat index)
          (cmd.items (cmd.rebuildList Go.insertionSlices Go.asciiStrings rosterState plainFormat
                        (shownList 1 []))) "") "─" = false →
     cmd.onSelected
       (cmd.rebuildList Go.insertionSlices Go.asciiStrings rosterState plainFormat (shownList 1 [])) index =
       [cmd.InitiateDM 4]).
Proof.
  apply (proj2 (onSelected_after_rebuildList Go.insertionSlices Go.asciiStrings rosterState plainFormat
                  (shownList 1 [])
                  [memberWithRoles 5 "dee" [7; 8]%N; memberWithRoles 4 "mo" [9]%N;
                   memberWithRoles 6 "al" [8; 9]%N] eq_refl eq_refl eq_refl)
           (memberWithRoles 4 "mo" [9]%N)).
  - right. now left.
  - reflexivity.
Defined.

(** ** Member search over time *)

(** One call of [searchMember]: the two readings of the clock, the size of
    the chunk that would answer a search, the guild and the query. *)
Record searchCall : Type := {
  callNow : Z;
  callAfter : Z;
  callChunk : N;
  callGuild : discord.GuildID;
  callName : string
}.

Definition callKey (call : searchCall) : string :=
  cmd.searchKey (callGuild call) (callName call).

Definition searchOnce (discordState : ningen.State) (call : searchCall) (mi : cmd.messageInput)
  : cmd.messageInput * list cmd.Effect :=
  cmd.searchMember discordState (callNow call) (callAfter call) (callChunk call)
    (callGuild call) (callName call) mi.

(** A sequence of calls, with the calls that asked the gateway, in order. *)
Fixpoint searchAll (discordState : ningen.State) (calls : list searchCall)
    (mi : cmd.messageInput) : cmd.messageInput * list searchCall :=
  match calls with
  | [] => (mi, [])
  | call :: rest =>
      let '(mi1, requests) := searchOnce discordState call mi in
      let '(mi2, fetched) := searchAll discordState rest mi1 in
      (mi2, match requests with [] => fetched | _ => call :: fetched end)
  end.

(** The three ways a call ends. *)
Lemma searchOnce_cases (discordState : ningen.State) (call : searchCall) (mi : cmd.messageInput) :
  (searchOnce discordState call mi = (mi, [])) ∨
  (∃ count,
     cmd.cache mi !! callKey call = None ∧
     searchOnce discordState call mi =
       ({| cmd.cache := <[callKey call := count]> (cmd.cache mi);
           cmd.lastSearch := cmd.lastSearch mi |}, [])) ∨
  (cmd.cache mi !! callKey call = None ∧
   (cmd.lastSearch mi + ningen.SearchFrequency discordState ≤ callNow call)%Z ∧
   searchOnce discordState call mi =
     ({| cmd.cache := <[callKey call := callChunk call]> (cmd.cache mi);
         cmd.lastSearch := callAfter call |},
      [cmd.WaitForChunkEvent; cmd.SetFetchingChunk true 0;
       cmd.SearchMember (callGuild call) (callName call); cmd.WaitForChunkEvent])).
Proof.
  unfold searchOnce, cmd.searchMember, callKey.
  destruct (cmd.cache mi !! cmd.searchKey (callGuild call) (callName call)) as [v|] eqn:Hkey.
  - left. now rewrite (cache_Exists_true _ _ _ Hkey).
  - rewrite (cache_Exists_false _ _ Hkey).
    destruct (_ && _).
    + right. left. eexists. split; reflexivity.
    + destruct (Z.ltb_spec (callNow call)
                  (cmd.lastSearch mi + ningen.SearchFrequency discordState)) as [Hlt|Hge].
      * now left.
      * right. right. split; [reflexivity|]. split; [exact Hge|reflexivity].
Qed.

Lemma searchOnce_keeps (discordState : ningen.State) (call : searchCall)
    (mi : cmd.messageInput) key count :
  cmd.cache mi !! key = Some count →
  cmd.cache (fst (searchOnce discordState call mi)) !! key = Some count.
Proof.
  intros Hkey.
  destruct (searchOnce_cases discordState call mi)
    as [-> | [(c & Hnone & ->) | (Hnone & _ & ->)]]; [exact Hkey| |];
    cbn [fst cmd.cache]; rewrite lookup_insert_ne; congruence.
Qed.

(** X6.  The search cache only grows, and a stored query is settled: a call
    of [searchMember] keeps every entry of the cache with its count, and once
    the key of a query is stored, searching that query again, at any time,
    changes nothing and asks the gateway for nothing. *)
Theorem searchMember_cache_grows_and_settles
    (discordState : ningen.State) (now now' : Z) (chunk : N)
    (gID : discord.GuildID) (name : string) (mi : cmd.messageInput) :
  let mi' := fst (cmd.searchMember discordState now now' chunk gID name mi) in
  (∀ key count, cmd.cache mi !! key = Some count → cmd.cache mi' !! key = Some count) ∧
  (is_Some (cmd.cache mi' !! cmd.searchKey gID name) →
   ∀ later later' chunk',
     cmd.searchMember discordState later later' chunk' gID name mi' = (mi', [])).
Proof.
  intros mi'. subst mi'. split.
  - intros key count.
    apply (searchOnce_keeps discordState
             {| callNow := now; callAfter := now'; callChunk := chunk;
                callGuild := gID; callName := name |}).
  - intros [count Hstored] later later' chunk'.
    unfold cmd.searchMember at 1. now rewrite (cache_Exists_true _ _ _ Hstored).
Qed.

(** Consecutive requests are at least the search frequency apart, counted
    from the reading of the clock that follows a request to the reading that
    precedes the next. *)
Fixpoint spaced (frequency last : Z) (fetched : list searchCall) : Prop :=
  match fetched with
  | [] => True
  | call :: rest => (last + frequency ≤ callNow call)%Z ∧ spaced frequency (callAfter call) rest
  end.

Lemma searchAll_spaced (discordState : ningen.State) (calls : list searchCall) :
  ∀ mi,
    spaced (ningen.SearchFrequency discordState) (cmd.lastSearch mi)
      (snd (searchAll discordState calls mi)) ∧
    (∀ call, In call (snd (searchAll discordState calls mi)) →
             cmd.cache mi !! callKey call = None) ∧
    List.NoDup (List.map callKey (snd (searchAll discordState calls mi))) ∧
    (∀ key count, cmd.cache mi !! key = Some count →
                  cmd.cache (fst (searchAll discordState calls mi)) !! key = Some count).
Proof.
  induction calls as [|call calls IH]; intros mi.
  - simpl. repeat split; [intros ? []|constructor|auto].
  - cbn [searchAll].
    destruct (searchOnce_cases discordState call mi)
      as [-> | [(c & Hnone & ->) | (Hnone & Hgap & ->)]].
    + specialize (IH mi). destruct (searchAll discordState calls mi) as [mi2 fetched].
      exact IH.
    + specialize (IH {| cmd.cache := <[callKey call := c]> (cmd.cache mi);
                        cmd.lastSearch := cmd.lastSearch mi |}).
      destruct (searchAll discordState calls _) as [mi2 fetched].
      cbn [fst snd cmd.cache cmd.lastSearch] in IH |- *.
      destruct IH as (Hspaced & Hnew & Hnodup & Hkeep).
      split; [exact Hspaced|]. split; [|split; [exact Hnodup|]].
      * intros call' Hin. specialize (Hnew call' Hin).
        apply lookup_insert_None in Hnew. tauto.
      * intros key count Hkey. apply Hkeep. rewrite lookup_insert_ne; congruence.
    + specialize (IH {| cmd.cache := <[callKey call := callChunk call]> (cmd.cache mi);
                        cmd.lastSearch := callAfter call |}).
      destruct (searchAll discordState calls _) as [mi2 fetched].
      cbn [fst snd cmd.cache cmd.lastSearch] in IH |- *.
      destruct IH as (Hspaced & Hnew & Hnodup & Hkeep).
      split; [split; [exact Hgap|exact Hspaced]|]. split; [|split].
      * intros call' [<-|Hin]; [exact Hnone|]. specialize (Hnew call' Hin).
        apply lookup_insert_None in Hnew. tauto.
      * cbn [List.map]. constructor; [|exact Hnodup].
        intros Hin. apply in_map_iff in Hin as (call' & Hkey & Hin).
        specialize (Hnew call' Hin). rewrite Hkey, lookup_insert_eq in Hnew. discriminate.
      * intros key count Hkey. apply Hkeep. rewrite lookup_insert_ne; congruence.
Qed.

(** X7.  Over any sequence of calls of [searchMember], whatever the clock
    reads: the gateway is asked at most once per key, and never for a key the
    cache held at the start; and two consecutive requests are at least
    [SearchFrequency] apart, the first of them that far from the last search
    before the sequence. *)
Theorem searchMember_requests_once_and_spaced
    (discordState : ningen.State) (calls : list searchCall) (mi : cmd.messageInput) :
  let fetched := snd (searchAll discordState calls mi) in
  List.NoDup (List.map callKey fetched) ∧
  (∀ call, In call fetched → cmd.cache mi !! callKey call = None) ∧
  spaced (ningen.SearchFrequency discordState) (cmd.lastSearch mi) fetched.
Proof.
  intros fetched. subst fetched.
  destruct (searchAll_spaced discordState calls mi) as (Hspaced & Hnew & Hnodup & _).
  auto.
Qed.

(** Three calls a second apart in a guild where every search fills the limit:
    the second comes too early and is dropped, the third is sent. *)
Definition threeSearches : list searchCall :=
  [ {| callNow := 2000; callAfter := 2001; callChunk := 50; callGuild := 1; callName := "a" |};
    {| callNow := 2100; callAfter := 2101; callChunk := 50; callGuild := 1; callName := "ab" |};
    {| callNow := 3500; callAfter := 3501; callChunk := 50; callGuild := 1; callName := "ab" |} ].

Lemma searchMember_requests_once_and_spaced_witness :
  spaced 1000 0
    [ {| callNow := 2000; callAfter := 2001; callChunk := 50; callGuild := 1; callName := "a" |};
      {| callNow := 3500; callAfter := 3501; callChunk := 50; callGuild := 1;
         callName := "ab" |} ].
Proof.
  exact (proj2 (proj2 (searchMember_requests_once_and_spaced blankState threeSearches
                         {| cmd.cache := ∅; cmd.lastSearch := 0 |}))).
Defined.

(** The queries typed after [name]: one more byte each time. *)
Fixpoint typed (name : string) (bytes : list ascii) : list string :=
  match bytes with
  | [] => []
  | c :: rest => (name +:+ String c "") :: typed (name +:+ String c "") rest
  end.

(** Searching every query of a list in turn; the clock and the chunk are
    given per query. *)
Fixpoint searchEach (discordState : ningen.State) (gID : discord.GuildID)
    (queries : list (string * (Z * Z * N))) (mi : cmd.messageInput)
  : cmd.messageInput * list cmd.Effect :=
  match queries with
  | [] => (mi, [])
  | (name, (now, now', chunk)) :: rest =>
      let '(mi1, requests) := cmd.searchMember discordState now now' chunk gID name mi in
      let '(mi2, requests') := searchEach discordState gID rest mi1 in
      (mi2, requests ++ requests')
  end.

Lemma string_length_append (a b : string) :
  String.length (a +:+ b) = (String.length a + String.length b)%nat.
Proof.
  induction a as [|x a IH]; [reflexivity|].
  change (String x a +:+ b) with (String x (a +:+ b)). simpl. now rewrite IH.
Qed.

Lemma typed_length name bytes : length (typed name bytes) = length bytes.
Proof. revert name. induction bytes as [|c bytes IH]; intros name; simpl; [|rewrite IH]; reflexivity. Qed.

Lemma typed_longer gID name bytes query :
  In query (typed name bytes) →
  (String.length (cmd.searchKey gID name) < String.length (cmd.searchKey gID query))%nat.
Proof.
  revert name. induction bytes as [|c bytes IH]; intros name; [intros []|].
  assert (Hstep : (String.length (cmd.searchKey gID name) <
                   String.length (cmd.searchKey gID (name +:+ String c "")))%nat).
  { unfold cmd.searchKey. rewrite !string_length_append. simpl. lia. }
  intros [<-|Hin]; [exact Hstep|]. specialize (IH _ Hin). lia.
Qed.

(** X8.  Typing on after a short answer.  When the search for [name] is
    stored with fewer results than the search limit and no longer query is
    stored, searching the queries typed after it, byte by byte, asks the
    gateway for nothing, leaves the time of the last search alone, and stores
    every one of them with the count of [name]. *)
Theorem searchMember_typing_after_short_answer
    (discordState : ningen.State) (gID : discord.GuildID) (name : string) (count : N) :
  (count < ningen.SearchLimit discordState)%N →
  ∀ (bytes : list ascii) (clock : list (Z * Z * N)) (mi : cmd.messageInput),
    length clock = length bytes →
    cmd.cache mi !! cmd.searchKey gID name = Some count →
    (∀ query, In query (typed name bytes) → cmd.cache mi !! cmd.searchKey gID query = None) →
    let result := searchEach discordState gID (combine (typed name bytes) clock) mi in
    snd result = [] ∧
    cmd.lastSearch (fst result) = cmd.lastSearch mi ∧
    ∀ query, In query (typed name bytes) →
             cmd.cache (fst result) !! cmd.searchKey gID query = Some count.
Proof.
  intros Hlimit bytes.
  assert (Hkeep : ∀ queries mi0 key v,
            cmd.cache mi0 !! key = Some v →
            cmd.cache (fst (searchEach discordState gID queries mi0)) !! key = Some v).
  { clear. induction queries as [|[q [[t t'] ch]] queries IHq]; intros mi0 key v Hkey;
      [exact Hkey|].
    cbn [searchEach].
    pose proof (searchOnce_keeps discordState
                  {| callNow := t; callAfter := t'; callChunk := ch;
                     callGuild := gID; callName := q |} mi0 key v Hkey) as Hgrow.
    unfold searchOnce in Hgrow. cbn [callNow callAfter callChunk callGuild callName] in Hgrow.
    destruct (cmd.searchMember discordState t t' ch gID q mi0) as [mi1 r1].
    specialize (IHq mi1 key v Hgrow).
    destruct (searchEach discordState gID queries mi1) as [mi2 r2]. exact IHq. }
  revert name.
  induction bytes as [|c bytes IH]; intros name clock mi Hlen Hname Hnone result; subst result.
  - simpl. repeat split. intros ? [].
  - destruct clock as [|[[now now'] chunk] clock]; [discriminate|].
    cbn [typed combine searchEach].
    assert (Hstep : cmd.searchMember discordState now now' chunk gID (name +:+ String c "") mi =
                    ({| cmd.cache := <[cmd.searchKey gID (name +:+ String c "") := count]>
                                       (cmd.cache mi);
                        cmd.lastSearch := cmd.lastSearch mi |}, [])).
    { unfold cmd.searchMember.
      rewrite (cache_Exists_false _ _ (Hnone _ (or_introl eq_refl))).
      rewrite searchKey_dropLast, (cache_Exists_true _ _ _ Hname).
      unfold cache.Get. rewrite Hname. simpl.
      rewrite (proj2 (N.ltb_lt _ _) Hlimit). reflexivity. }
    rewrite Hstep.
    specialize (IH (name +:+ String c "") clock
                  {| cmd.cache := <[cmd.searchKey gID (name +:+ String c "") := count]>
                                    (cmd.cache mi);
                     cmd.lastSearch := cmd.lastSearch mi |}).
    pose proof (Hkeep (combine (typed (name +:+ String c "") bytes) clock)
                  {| cmd.cache := <[cmd.searchKey gID (name +:+ String c "") := count]>
                                    (cmd.cache mi);
                     cmd.lastSearch := cmd.lastSearch mi |}
                  (cmd.searchKey gID (name +:+ String c "")) count
                  (lookup_insert_eq _ _ _)) as Hfirst.
    destruct (searchEach discordState gID _ _) as [mi2 requests'].
    cbn [fst snd cmd.cache cmd.lastSearch] in IH, Hfirst |- *.
    destruct IH as (Hnoreq & Hlast & Hall).
    + simpl in Hlen. lia.
    + apply lookup_insert_eq.
    + intros query Hin. rewrite lookup_insert_ne.
      * apply Hnone. now right.
      * intros Heq. pose proof (typed_longer gID _ _ _ Hin) as Hlonger.
        rewrite Heq in Hlonger. lia.
    + split; [exact Hnoreq|]. split; [exact Hlast|].
      intros query [<-|Hin]; [exact Hfirst|now apply Hall].
Qed.

Lemma searchMember_typing_after_short_answer_witness :
  snd (searchEach blankState 1 [("abc", (5, 6, 9%N)); ("abcd", (7, 8, 9%N))]%Z searchedAb) = [] ∧
  cmd.cache (fst (searchEach blankState 1 [("abc", (5, 6, 9%N)); ("abcd", (7, 8, 9%N))]%Z
                    searchedAb)) !! "1 abcd" = Some 3%N.
Proof.
  destruct (searchMember_typing_after_short_answer blankState 1 "ab" 3 eq_refl
              ["c"; "d"]%char [(5, 6, 9%N); (7, 8, 9%N)]%Z searchedAb eq_refl eq_refl)
    as (Hnone & _ & Hall).
  - intros query [<-|[<-|[]]]; reflexivity.
  - split; [exact Hnone|]. apply (Hall "abcd"). right. now left.
Defined.

(** ** Messages in the open channel and in guild channels *)

Lemma findDirectMessages_In (r g : tview.TreeNode) :
  cmd.findDirectMessages r = Some g → In g (tview.nodes r).
Proof.
  unfold cmd.findDirectMessages, cmd.find. intros Hfind.
  apply (findFrom_In _ r None None g) in Hfind as [Hfind|Hfind]; [discriminate|exact Hfind].
Qed.

(** A node of a tree of distinct nodes is not below itself, and its
    children are distinct. *)
Lemma node_not_below (r n : tview.TreeNode) :
  List.NoDup (tview.addresses r) → In n (tview.nodes r) →
  ¬ In (tview.address n) (List.map tview.address (nodesOf (tview.children n))) ∧
  List.NoDup (List.map tview.address (tview.children n)).
Proof.
  intros Hnodup Hin.
  pose proof (NoDup_addresses_node r n Hnodup Hin) as Hn.
  unfold tview.addresses in Hn. rewrite nodes_unfold in Hn. simpl in Hn.
  apply NoDup_cons_iff in Hn as [Htop Hbelow]. split; [exact Htop|].
  now apply NoDup_children.
Qed.


(** The node that references a channel, when there is one only. *)
Definition onlyNodeOf (channelID : discord.ChannelID) (r d : tview.TreeNode) : Prop :=
  tview.reference d = tview.RefChannel channelID ∧
  ∀ m, In m (tview.nodes r) → tview.reference m = tview.RefChannel channelID → m = d.








(** *** A copy of the DM nodes under an empty folder *)

(** The cache all along: three private channels, all read, and no guild. *)
Definition copiesState : ningen.State :=
  {| ningen.Guild := λ _, None;
     ningen.Channel := λ c,
       List.find (λ channel, (discord.ChannelID_ channel =? c)%N) fetchedDMs;
     ningen.Members := λ _, None;
     ningen.Presence := λ _ _, None; ningen.Role := λ _ _, None;
     ningen.ChannelIsUnread := λ _, ningen.ChannelRead;
     ningen.GuildIsUnread := λ _, ningen.ChannelRead;
     ningen.HasViewPermission := λ _, true;
     ningen.PrivateChannels := Some fetchedDMs;
     ningen.SearchLimit := 50%N;
     ningen.SearchFrequency := 1000%Z |}.

(** A Ready event with one folder of two guilds the cache does not know:
    its folder node gets no child. *)
Definition emptyFolderReady : gateway.ReadyEvent :=
  {| gateway.GuildFolders :=
       [ {| gateway.FolderID := 7; gateway.FolderName := "F"; gateway.FolderColor := 0;
            gateway.FolderGuildIDs := [50%N; 51%N] |} ] |}.

(** After the Ready event the user selects the Direct Messages node (node
    2) and then the empty folder (node 3).  Both are nodes without children
    and without reference, so [guildsTree.onSelected] takes its [case nil]
    for both and puts the nodes of the private channels under each. *)
Definition appWithCopies : cmd.App :=
  cmd.onSelectedDirectMessages Go.insertionSlices copiesState plainFormat 3
    (cmd.onSelectedDirectMessages Go.insertionSlices copiesState plainFormat 2
       (cmd.onReady copiesState plainFormat defaultConfig emptyFolderReady freshApp)).

Definition messageForBea : gateway.MessageCreateEvent :=
  {| gateway.MessageID_ := 900; gateway.MessageChannelID := 20;
     gateway.MessageGuildID := 0 |}.

Definition readLeaf (a : tview.addr) (name : string) (c : discord.ChannelID) : tview.TreeNode :=
  tview.mkTreeNode a name (tview.RefChannel c)
    {| tcell.bold := false; tcell.dim := true; tcell.underline := false |} true [].

(** C1, at a failing input.  In the state [appWithCopies] no channel is
    selected and the node of the private channel 20 stands last under the
    Direct Messages node, dim.  A MessageCreate event for that channel leaves
    the Direct Messages node exactly as it was: the node of the channel is
    neither made bold nor moved first.  The walk of [updateDMStyleAndMove]
    over the whole tree ends on the copy under the folder (node 9), which
    gets the style, and [moveDMToTop] does not find that copy among the
    children of the Direct Messages node. *)
Theorem onMessageCreate_closed_DM_with_copy_unchanged :
  cmd.selectedChannel appWithCopies = None ∧
  ningen.Channel copiesState 20 = Some (privateChannel 20 0 "bea") ∧
  tview.deref 2 (cmd.root appWithCopies) =
    Some (tview.mkTreeNode 2 "Direct Messages" tview.RefNil tcell.StyleDefault true
            [readLeaf 4 "cy" 30; readLeaf 5 "ann" 10; readLeaf 6 "bea" 20]) ∧
  tview.deref 2 (cmd.root (cmd.onMessageCreate copiesState messageForBea appWithCopies)) =
    Some (tview.mkTreeNode 2 "Direct Messages" tview.RefNil tcell.StyleDefault true
            [readLeaf 4 "cy" 30; readLeaf 5 "ann" 10; readLeaf 6 "bea" 20]) ∧
  tview.deref 9 (cmd.root (cmd.onMessageCreate copiesState messageForBea appWithCopies)) =
    Some (tview.mkTreeNode 9 "bea" (tview.RefChannel 20)
            {| tcell.bold := true; tcell.dim := false; tcell.underline := false |} true []).
Proof. repeat split; vm_compute; reflexivity. Qed.

(** The nodes of a channel. *)
Definition channelNodes (channelID : discord.ChannelID) (r : tview.Reference) : bool :=
  tview.Reference_eqb r (tview.RefChannel channelID).

(** X10.  A MessageCreate event for a channel that is not a DM or group DM
    (or that the cache does not know): the tree keeps its nodes, their
    order, texts, references and expansion state, and only nodes of that
    channel can change style; the allocator, the selection and the current
    node are left alone; the requests are the notification, preceded by
    drawing the message, the redraw and marking read exactly when the
    channel is the selected one. *)
Theorem onMessageCreate_guild_channel_restyles_channel_only
    (discordState : ningen.State) (message : gateway.MessageCreateEvent) (app : cmd.App) :
  match ningen.Channel discordState (gateway.MessageChannelID message) with
  | Some channel => cmd.isPrivate (discord.Type_ channel) = false
  | None => True
  end →
  let app' := cmd.onMessageCreate discordState message app in
  let selected :=
    match cmd.selectedChannel app with
    | Some channel => (discord.ChannelID_ channel =? gateway.MessageChannelID message)%N
    | None => false
    end in
  restyled (channelNodes (gateway.MessageChannelID message)) (cmd.root app) (cmd.root app') ∧
  cmd.currentNode app' = cmd.currentNode app ∧
  cmd.selectedChannel app' = cmd.selectedChannel app ∧
  cmd.guildsTreeInitialized app' = cmd.guildsTreeInitialized app ∧
  cmd.nextAddr app' = cmd.nextAddr app ∧
  cmd.effects app' =
    cmd.effects app ++
    (if selected
     then [cmd.DrawMessage (gateway.MessageID_ message); cmd.Draw;
           cmd.MarkRead (gateway.MessageChannelID message) (gateway.MessageID_ message)]
     else []) ++
    [cmd.Notify (gateway.MessageID_ message)].
Proof.
  intros Hguild app' selected. subst app'. unfold cmd.onMessageCreate. fold selected.
  assert (HisDM : match ningen.Channel discordState (gateway.MessageChannelID message) with
                  | Some channel => cmd.isPrivate (discord.Type_ channel)
                  | None => false
                  end = false)
    by (destruct (ningen.Channel discordState _); [exact Hguild|reflexivity]).
  rewrite HisDM.
  assert (Hwalk : ∀ n, restyled (channelNodes (gateway.MessageChannelID message)) n
                         (fst (tview.Walk
                                 (cmd.restyleChannel discordState (gateway.MessageChannelID message))
                                 n None tt))).
  { intros n. apply Walk_restyled. intros m parent s Hallowed.
    unfold channelNodes in Hallowed. unfold cmd.restyleChannel. now rewrite Hallowed. }
  set (app2 := cmd.perform _ _).
  assert (Happ2 : cmd.root app2 = cmd.root app ∧
                  cmd.currentNode app2 = cmd.currentNode app ∧
                  cmd.selectedChannel app2 = cmd.selectedChannel app ∧
                  cmd.guildsTreeInitialized app2 = cmd.guildsTreeInitialized app ∧
                  cmd.nextAddr app2 = cmd.nextAddr app)
    by (unfold app2; destruct selected; repeat split).
  destruct Happ2 as (Hroot2 & Hcur & Hsel & Hinit & Hnext).
  assert (Heffects :
            cmd.effects app2 =
              cmd.effects app ++
              (if selected
               then [cmd.DrawMessage (gateway.MessageID_ message); cmd.Draw;
                     cmd.MarkRead (gateway.MessageChannelID message)
                       (gateway.MessageID_ message)]
               else []) ++
              [cmd.Notify (gateway.MessageID_ message)]).
  { unfold app2, cmd.perform. destruct selected; cbn [cmd.effects].
    - now rewrite <- app_assoc.
    - reflexivity. }
  rewrite <- Hroot2, <- Hcur, <- Hsel, <- Hinit, <- Hnext, <- Heffects.
  clearbody app2 selected. unfold cmd.updateChannelStyle.
  destruct (discord.IsValid _); [destruct (cmd.find _ _)|]; cbn [cmd.withRoot cmd.root];
    (split; [|repeat split]).
  - apply modify_restyled. exact Hwalk.
  - apply restyled_refl.
  - apply Hwalk.
Qed.

Definition appWithOpenGuildChannel103 : cmd.App :=
  {| cmd.root := cmd.root appWithDMs; cmd.currentNode := None;
     cmd.selectedChannel :=
       Some {| discord.ChannelID_ := 103; discord.ChannelGuildID := 40;
               discord.Type_ := discord.GuildText; discord.ParentID := 0;
               discord.LastMessageID := 0; discord.ChannelName := "C" |};
     cmd.guildsTreeInitialized := true; cmd.nextAddr := 20%positive; cmd.effects := [] |}.

Lemma onMessageCreate_guild_channel_restyles_channel_only_witness :
  restyled (channelNodes 103) (cmd.root appWithDMs)
    (cmd.root (cmd.onMessageCreate blankState messageForC appWithDMs)) ∧
  cmd.effects (cmd.onMessageCreate blankState messageForC appWithDMs) = [cmd.Notify 900] ∧
  cmd.effects (cmd.onMessageCreate blankState messageForC appWithOpenGuildChannel103) =
    [cmd.DrawMessage 900; cmd.Draw; cmd.MarkRead 103 900; cmd.Notify 900].
Proof.
  destruct (onMessageCreate_guild_channel_restyles_channel_only blankState messageForC
              appWithDMs I) as (Htree & _ & _ & _ & _ & Heffects).
  destruct (onMessageCreate_guild_channel_restyles_channel_only blankState messageForC
              appWithOpenGuildChannel103 I) as (_ & _ & _ & _ & _ & Heffects').
  split; [exact Htree|]. split; [exact Heffects|exact Heffects'].
Defined.

(** ** Looking a node up by a walk *)

Lemma findAmong_nil test a found : findAmong test a [] found = found.
Proof. reflexivity. Qed.

(** A walk over nodes that fail the test leaves the captured variable
    alone. *)
Lemma findFrom_no_hit test :
  ∀ n parent found,
    (∀ m parent', In m (tview.nodes n) → test m parent' = false) →
    findFrom test n parent found = found.
Proof.
  induction n as [a tx r st e cs IH] using TreeNode_children_ind.
  intros parent found Hnone. rewrite findFrom_unfold.
  rewrite (Hnone _ parent) by (rewrite nodes_unfold; now left). simpl.
  assert (Hcs : ∀ m parent', In m (nodesOf cs) → test m parent' = false)
    by (intros m parent' Hin; apply Hnone; rewrite nodes_unfold; now right).
  clear Hnone. revert found. induction cs as [|c cs IHcs]; intros found; [reflexivity|].
  rewrite findAmong_cons.
  apply Forall_inv in IH as Hc. apply Forall_inv_tail in IH.
  rewrite Hc.
  - apply IHcs; [exact IH|]. intros m parent' Hin. apply Hcs.
    rewrite nodesOf_cons. apply in_or_app. now right.
  - intros m parent' Hin. apply Hcs. rewrite nodesOf_cons. apply in_or_app. now left.
Qed.

Lemma findAmong_no_hit test a cs :
  ∀ found,
    (∀ m parent', In m (nodesOf cs) → test m parent' = false) →
    findAmong test a cs found = found.
Proof.
  induction cs as [|c cs IH]; intros found Hnone; [reflexivity|].
  rewrite findAmong_cons, findFrom_no_hit.
  - apply IH. intros m parent' Hin. apply Hnone. rewrite nodesOf_cons.
    apply in_or_app. now right.
  - intros m parent' Hin. apply Hnone. rewrite nodesOf_cons. apply in_or_app. now left.
Qed.

(** What a walk has captured it does not lose, and what it captures
    passed the test. *)
Lemma findFrom_hit test :
  ∀ n parent found m,
    findFrom test n parent found = Some m →
    found = Some m ∨ (In m (tview.nodes n) ∧ ∃ parent', test m parent' = true).
Proof.
  induction n as [a tx r st e cs IH] using TreeNode_children_ind.
  intros parent found m. rewrite findFrom_unfold, nodes_unfold. simpl.
  destruct (test _ parent) eqn:Htest.
  - intros [= <-]. right. split; [now left|now exists parent].
  - intros Hfind. clear Htest.
    assert (Hcs : found = Some m ∨ (In m (nodesOf cs) ∧ ∃ parent', test m parent' = true)).
    { revert found Hfind. induction cs as [|c cs IHcs]; intros found Hfind.
      - now left.
      - rewrite findAmong_cons in Hfind. rewrite nodesOf_cons.
        apply Forall_inv in IH as Hc. apply Forall_inv_tail in IH.
        destruct (IHcs IH _ Hfind) as [Hc'|[Hin Hpass]].
        + destruct (Hc _ _ _ Hc') as [?|[Hin Hpass]]; [now left|right].
          split; [apply in_or_app; now left|exact Hpass].
        + right. split; [apply in_or_app; now right|exact Hpass]. }
    destruct Hcs as [?|[Hin Hpass]]; [now left|right]. split; [now right|exact Hpass].
Qed.

Lemma findFrom_keeps test :
  ∀ n parent found, is_Some found → is_Some (findFrom test n parent found).
Proof.
  induction n as [a tx r st e cs IH] using TreeNode_children_ind.
  intros parent found Hsome. rewrite findFrom_unfold.
  destruct (test _ parent); [now eexists|]. simpl.
  revert found Hsome. induction cs as [|c cs IHcs]; intros found Hsome; [exact Hsome|].
  rewrite findAmong_cons.
  apply Forall_inv in IH as Hc. apply Forall_inv_tail in IH.
  apply IHcs; [exact IH|]. now apply Hc.
Qed.

Lemma findAmong_keeps test a cs :
  ∀ found, is_Some found → is_Some (findAmong test a cs found).
Proof.
  induction cs as [|c cs IH]; intros found Hsome; [exact Hsome|].
  rewrite findAmong_cons. apply IH. now apply findFrom_keeps.
Qed.

Lemma findFrom_some test :
  ∀ n parent found,
    (∃ m, In m (tview.nodes n) ∧ ∀ parent', test m parent' = true) →
    is_Some (findFrom test n parent found).
Proof.
  induction n as [a tx r st e cs IH] using TreeNode_children_ind.
  intros parent found (m & Hin & Hpass). rewrite findFrom_unfold.
  destruct (test _ parent) eqn:Htest; [now eexists|]. simpl.
  rewrite nodes_unfold in Hin. destruct Hin as [<-|Hin]; [rewrite Hpass in Htest; discriminate|].
  simpl in Hin. clear Htest.
  revert found. induction cs as [|c cs IHcs]; intros found; [destruct Hin|].
  rewrite findAmong_cons.
  apply Forall_inv in IH as Hc. apply Forall_inv_tail in IH.
  rewrite nodesOf_cons in Hin. apply in_app_or in Hin as [Hin|Hin].
  - apply findAmong_keeps. apply Hc. now exists m.
  - now apply IHcs.
Qed.

Lemma find_some_node test start :
  (∃ m, In m (tview.nodes start) ∧ ∀ parent, test m parent = true) →
  is_Some (cmd.find test start).
Proof. unfold cmd.find. fold (findFrom test start None None). apply findFrom_some. Qed.

(** X11.  The lookups of the tree, which walk it with a callback that stores
    a hit and does not stop the walk.  A lookup returns a node of the tree
    that passed the test; it returns a node whenever some node of the tree
    passes the test under every parent; and the last hit wins: when the
    start node fails the test, a child that passes it is returned if no node
    of the children after it passes, whatever stands before it. *)
Theorem find_returns_last_hit
    (test : tview.TreeNode → option tview.addr → bool) (start : tview.TreeNode) :
  (∀ m, cmd.find test start = Some m →
        In m (tview.nodes start) ∧ ∃ parent, test m parent = true) ∧
  ((∃ m, In m (tview.nodes start) ∧ ∀ parent, test m parent = true) →
   is_Some (cmd.find test start)) ∧
  (∀ l1 m l2,
     test start None = false →
     tview.children start = l1 ++ m :: l2 →
     test m (Some (tview.address start)) = true →
     (∀ n parent, In n (nodesOf l2) → test n parent = false) →
     cmd.find test start = Some m).
Proof.
  unfold cmd.find. fold (findFrom test start None None). split; [|split].
  - intros m Hfind. apply findFrom_hit in Hfind as [Hfind|Hfind]; [discriminate|exact Hfind].
  - apply findFrom_some.
  - intros l1 m l2 Hstart Hch Hm Hl2.
    rewrite findFrom_unfold, Hstart, Hch, findAmong_app, findAmong_cons.
    rewrite (findFrom_unfold test m), Hm.
    now apply findAmong_no_hit.
Qed.

Lemma find_returns_last_hit_witness :
  cmd.find (cmd.hasReference (tview.RefChannel 101))
    (tview.mkTreeNode 1 "" tview.RefNil tcell.StyleDefault true
       [nodeA; dmLeaf 15 "A again" 101; nodeB]) =
  Some (dmLeaf 15 "A again" 101).
Proof.
  apply (proj2 (proj2 (find_returns_last_hit (cmd.hasReference (tview.RefChannel 101))
                         (tview.mkTreeNode 1 "" tview.RefNil tcell.StyleDefault true
                            [nodeA; dmLeaf 15 "A again" 101; nodeB])))
           [nodeA] (dmLeaf 15 "A again" 101) [nodeB]); try reflexivity.
  intros n parent [<-|[]]. reflexivity.
Defined.

(** ** New private channels *)

(** The Direct Messages node the code finds is the last child of the root
    with that title. *)
Lemma findDirectMessages_child (r g : tview.TreeNode) :
  List.NoDup (tview.addresses r) →
  cmd.findDirectMessages r = Some g →
  ∃ l1 l2, tview.children r = l1 ++ g :: l2 ∧
           tview.text g = "Direct Messages" ∧
           ∀ c, In c l2 → tview.text c ≠ "Direct Messages".
Proof.
  intros Hnodup. unfold cmd.findDirectMessages, cmd.find.
  fold (findFrom (cmd.isDirectMessages (tview.address r)) r None None).
  rewrite findFrom_unfold. unfold cmd.isDirectMessages at 1. rewrite andb_false_r.
  unfold tview.addresses in Hnodup. rewrite nodes_unfold in Hnodup. simpl in Hnodup.
  apply NoDup_cons_iff in Hnodup as [Hra _]. revert Hra.
  induction (tview.children r) as [|c cs IH] using rev_ind; intros Hra Hfind; [discriminate|].
  rewrite nodesOf_app, List.map_app in Hra.
  rewrite findAmong_app, findAmong_cons, findAmong_nil, isDirectMessages_child in Hfind.
  2: { intros H. apply Hra, in_or_app. right. rewrite nodesOf_cons, List.map_app.
       apply in_or_app. now left. }
  destruct (String.eqb_spec (tview.text c) "Direct Messages") as [Htext|Htext].
  - injection Hfind as <-. exists cs, []. split; [reflexivity|]. split; [exact Htext|].
    intros ? [].
  - destruct IH as (l1 & l2 & -> & Hg & Hl2); [|exact Hfind|].
    + intros H. apply Hra, in_or_app. now left.
    + exists l1, (l2 ++ [c]). split; [now rewrite <- app_assoc|]. split; [exact Hg|].
      intros k Hk. apply in_app_or in Hk as [Hk|[<-|[]]]; [now apply Hl2|exact Htext].
Qed.

(** The node [onChannelCreate] makes for a channel. *)
Definition channelNodeAt (discordState : ningen.State) (fmt : ui.Format) (a : tview.addr)
    (channel : discord.Channel) : tview.TreeNode :=
  tview.SetTextStyle (cmd.getChannelNodeStyle discordState (discord.ChannelID_ channel))
    (tview.SetReference (tview.RefChannel (discord.ChannelID_ channel))
       (tview.NewTreeNode a (ui.ChannelToString fmt channel))).

(** X12.  A ChannelCreate event for a DM or group DM that has no node yet
    below the Direct Messages node [g]: a node for the channel, with the
    style of its read state, becomes the last child of [g], and handling the
    same event again changes nothing, so the channel does not get a second
    node. *)
Theorem onChannelCreate_adds_node_once
    (discordState : ningen.State) (fmt : ui.Format) (event : gateway.ChannelCreateEvent)
    (app : cmd.App) (g : tview.TreeNode) :
  wellFormed app →
  cmd.isPrivate (discord.Type_ event) = true →
  cmd.findDirectMessages (cmd.root app) = Some g →
  cmd.find (cmd.hasReference (tview.RefChannel (discord.ChannelID_ event))) g = None →
  let app' := cmd.onChannelCreate discordState fmt event app in
  tview.deref (tview.address g) (cmd.root app') =
    Some (tview.AddChild (channelNodeAt discordState fmt (cmd.nextAddr app) event) g) ∧
  cmd.onChannelCreate discordState fmt event app' = app'.
Proof.
  intros Hwf Hprivate Hgroup Hnew app'.
  pose proof (onChannelCreate_wellFormed discordState fmt event app Hwf) as Hwf'.
  fold app' in Hwf'.
  assert (Happ' : app' = cmd.addNewChild (tview.address g)
                           (channelNodeAt discordState fmt (cmd.nextAddr app) event) app).
  { unfold app', cmd.onChannelCreate, cmd.createChannelNode.
    now rewrite Hprivate, Hgroup, Hnew. }
  destruct Hwf as [Hnodup Hbound].
  pose proof (findDirectMessages_In _ g Hgroup) as Hg.
  destruct (node_not_below _ g Hnodup Hg) as [Htop _].
  set (new := channelNodeAt discordState fmt (cmd.nextAddr app) event) in *.
  assert (Hderef : tview.deref (tview.address g) (cmd.root app') = Some (tview.AddChild new g)).
  { rewrite Happ'. cbn [cmd.addNewChild cmd.root].
    apply (deref_modify (tview.address g) (tview.AddChild new)); [reflexivity| |exact Htop].
    now apply deref_node. }
  split; [exact Hderef|].
  (* the second event finds the node of the first *)
  destruct (findDirectMessages_child _ g Hnodup Hgroup) as (l1 & l2 & Hch & Htext & Hl2).
  assert (Hroot : tview.children (cmd.root app') = l1 ++ tview.AddChild new g :: l2 ∧
                  tview.address (cmd.root app') = tview.address (cmd.root app)).
  { rewrite Happ'. cbn [cmd.addNewChild cmd.root]. rewrite modify_unfold.
    unfold tview.addresses in Hnodup. rewrite nodes_unfold, Hch in Hnodup. simpl in Hnodup.
    apply NoDup_cons_iff in Hnodup as [Hra Hbelow].
    rewrite nodesOf_app, nodesOf_cons, !List.map_app in Hra, Hbelow.
    rewrite (nodes_unfold g) in Hra, Hbelow. simpl in Hra, Hbelow.
    destruct (Pos.eqb_spec (tview.address (cmd.root app)) (tview.address g)) as [Heq|_].
    { exfalso. apply Hra, in_or_app. right. left. now symmetry. }
    cbn zeta. split; [|reflexivity]. cbn [tview.SetChildren tview.children].
    rewrite Hch, List.map_app. cbn [List.map].
    pose proof (NoDup_remove_2 _ _ _ Hbelow) as Hgout.
    rewrite (modify_absent_list _ _ l1)
      by (intros H; apply Hgout, in_or_app; now left).
    rewrite (modify_absent_list _ _ l2)
      by (intros H; apply Hgout, in_or_app; right; apply in_or_app; now right).
    rewrite modify_unfold, Pos.eqb_refl, (modify_absent_list _ _ _ Htop).
    cbn zeta. now destruct g. }
  destruct Hroot as [Hch' Haddr'].
  assert (Hgroup' : cmd.findDirectMessages (cmd.root app') = Some (tview.AddChild new g)).
  { apply (findDirectMessages_last_titled _ _ l1 l2); [apply Hwf'|exact Hch'|exact Htext|exact Hl2]. }
  assert (Hfound : is_Some (cmd.find (cmd.hasReference (tview.RefChannel (discord.ChannelID_ event)))
                              (tview.AddChild new g))).
  { apply find_some_node. exists new. split.
    - rewrite nodes_unfold. right. cbn [tview.AddChild tview.SetChildren tview.children].
      rewrite nodesOf_app. apply in_or_app. right. now left.
    - intros parent. unfold cmd.hasReference, new, channelNodeAt. simpl. apply N.eqb_refl. }
  destruct Hfound as [node Hfound].
  unfold cmd.onChannelCreate at 1. now rewrite Hprivate, Hgroup', Hfound.
Qed.

Lemma appWithDMs_wellFormed : wellFormed appWithDMs.
Proof.
  split.
  - simpl. repeat (constructor; [simpl; intuition discriminate|]). constructor.
  - intros a Ha. simpl in Ha. repeat (destruct Ha as [<-|Ha]; [reflexivity|]). destruct Ha.
Qed.

Lemma onChannelCreate_adds_node_once_witness :
  tview.deref 2
    (cmd.root (cmd.onChannelCreate dmState plainFormat (privateChannel 105 0 "E") appWithDMs)) =
    Some (tview.mkTreeNode 2 "Direct Messages" tview.RefNil tcell.StyleDefault true
            [nodeA; nodeB; nodeC;
             tview.mkTreeNode 20 "E" (tview.RefChannel 105)
               (tcell.Dim tcell.StyleDefault true) true []]) ∧
  cmd.onChannelCreate dmState plainFormat (privateChannel 105 0 "E")
    (cmd.onChannelCreate dmState plainFormat (privateChannel 105 0 "E") appWithDMs) =
  cmd.onChannelCreate dmState plainFormat (privateChannel 105 0 "E") appWithDMs.
Proof.
  exact (onChannelCreate_adds_node_once dmState plainFormat (privateChannel 105 0 "E")
           appWithDMs threeDMs appWithDMs_wellFormed eq_refl eq_refl eq_refl).
Defined.

(** ** Expanding the Direct Messages node keeps the state well formed *)

Lemma createDMNodesStep_wellFormed (fmt : ui.Format) (node : tview.addr)
    (channels : list discord.Channel) :
  ∀ acc, wellFormed (fst acc) →
         wellFormed (fst (fold_left (createDMNodesStep fmt node) channels acc)).
Proof.
  induction channels as [|c channels IH]; intros [app refs] Hwf; [exact Hwf|].
  cbn [fold_left]. apply IH. unfold createDMNodesStep. cbn [fst].
  apply addNewChild_wellFormed; [split; reflexivity|exact Hwf].
Qed.

Lemma setExpanded_wellFormed (node : tview.addr) (e : bool) (app : cmd.App) :
  wellFormed app →
  wellFormed (cmd.withRoot (tview.modify node (tview.SetExpanded e) (cmd.root app)) app).
Proof.
  intros Hwf. apply withRoot_wellFormed; [|exact Hwf].
  apply modify_addresses; [|apply Hwf].
  intros n _. rewrite !addresses_unfold. reflexivity.
Qed.

Lemma applyDMStyles_wellFormed (nodeRefs : list tview.addr) (styles : list tcell.Style)
    (app : cmd.App) :
  wellFormed app → wellFormed (cmd.applyDMStyles nodeRefs styles app).
Proof.
  intros Hwf. rewrite applyDMStyles_root. apply withRoot_wellFormed; [|exact Hwf].
  unfold applyStyles. generalize (combine nodeRefs styles) as l.
  intros l. generalize (cmd.root app) as t.
  induction l as [|rs l IH]; intros t; [reflexivity|].
  cbn [fold_left]. rewrite <- IH. now rewrite addresses_restyle.
Qed.

Lemma onSelectedDirectMessages_wellFormed (slices : Go.Slices) (discordState : ningen.State)
    (fmt : ui.Format) (node : tview.addr) (app : cmd.App) :
  wellFormed app → wellFormed (cmd.onSelectedDirectMessages slices discordState fmt node app).
Proof.
  intros Hwf. unfold cmd.onSelectedDirectMessages.
  pose proof (setExpanded_wellFormed node true app Hwf) as Hwf0.
  destruct (ningen.PrivateChannels discordState) as [fetched|]; [|exact Hwf0].
  unfold cmd.createDMNodes.
  pose proof (createDMNodesStep_wellFormed fmt node (cmd.sortPrivateChannels slices fetched)
                (cmd.withRoot (tview.modify node (tview.SetExpanded true) (cmd.root app)) app, [])
                Hwf0) as Hloop.
  change (fold_left _ (cmd.sortPrivateChannels slices fetched) _)
    with (fold_left (createDMNodesStep fmt node) (cmd.sortPrivateChannels slices fetched)
            (cmd.withRoot (tview.modify node (tview.SetExpanded true) (cmd.root app)) app, [])).
  destruct (fold_left (createDMNodesStep fmt node) _ _) as [app1 nodeRefs].
  apply applyDMStyles_wellFormed. now apply setExpanded_wellFormed.
Qed.

(** What the user and the gateway do to the tree: an event of the gateway,
    or the selection of the Direct Messages node. *)
Inductive treeUpdate : Type :=
  | Handled (discordState : ningen.State) (event : cmd.Event)
  | DirectMessagesSelected (slices : Go.Slices) (discordState : ningen.State)
      (node : tview.addr).

Definition applyUpdate (fmt : ui.Format) (cfg : config.Config) (app : cmd.App)
    (update : treeUpdate) : cmd.App :=
  match update with
  | Handled discordState event => cmd.handle discordState fmt cfg app event
  | DirectMessagesSelected slices discordState node =>
      cmd.onSelectedDirectMessages slices discordState fmt node app
  end.

(** X13.  Every update of the tree keeps the state well formed: after any
    sequence of gateway events and selections of the Direct Messages node,
    in any order and with any state of the cache at each, no node address
    occurs twice in the tree and every address is one the allocator has
    handed out. *)
Theorem updates_keep_wellFormed
    (fmt : ui.Format) (cfg : config.Config) (updates : list treeUpdate) (app : cmd.App) :
  wellFormed app → wellFormed (fold_left (applyUpdate fmt cfg) updates app).
Proof.
  revert app. induction updates as [|update updates IH]; intros app Hwf; [exact Hwf|].
  cbn [fold_left]. apply IH. destruct update as [discordState event|slices discordState node].
  - now apply handle_wellFormed.
  - now apply onSelectedDirectMessages_wellFormed.
Qed.

Lemma updates_keep_wellFormed_witness :
  wellFormed
    (fold_left (applyUpdate plainFormat defaultConfig)
       [Handled oneGuildState (cmd.Ready oneGuildReady);
        DirectMessagesSelected Go.insertionSlices privateState 2;
        Handled dmState (cmd.MessageCreate messageForC)]
       freshApp).
Proof.
  apply (updates_keep_wellFormed plainFormat defaultConfig
           [Handled oneGuildState (cmd.Ready oneGuildReady);
            DirectMessagesSelected Go.insertionSlices privateState 2;
            Handled dmState (cmd.MessageCreate messageForC)]
           freshApp).
  split; simpl.
  - repeat constructor. intros [].
  - intros a [<-|[]]. reflexivity.
Defined.

(** ** The tree the first Ready event builds *)

(** The reference of the node a folder of the Ready event puts below the
    root: the guild for a guild outside any folder, when the cache knows the
    guild; none for a folder node. *)
Definition topLevelOf (discordState : ningen.State) (folder : gateway.GuildFolder)
  : list tview.Reference :=
  if (gateway.FolderID folder =? 0)%Z && (length (gateway.FolderGuildIDs folder) =? 1)%nat
  then
    match ningen.Guild discordState (hd 0%N (gateway.FolderGuildIDs folder)) with
    | None => []
    | Some guild => [tview.RefGuild (discord.GuildID_ guild)]
    end
  else [tview.RefNil].

(** While the tree is built: the root keeps its address, its first child is
    the new Direct Messages node, and the children after it have the
    references [refs]. *)
Definition building (ra d : tview.addr) (refs : list tview.Reference) (app : cmd.App) : Prop :=
  tview.address (cmd.root app) = ra ∧
  (ra < d)%positive ∧ (d < cmd.nextAddr app)%positive ∧
  ∃ rest,
    tview.children (cmd.root app) = tview.NewTreeNode d "Direct Messages" :: rest ∧
    List.map tview.reference rest = refs.

Lemma modify_AddChild_reference p c n :
  tview.reference (tview.modify p (tview.AddChild c) n) = tview.reference n.
Proof. rewrite modify_unfold. cbn zeta. now destruct (_ =? _)%positive. Qed.

Lemma modify_AddChild_references p c cs :
  List.map tview.reference (List.map (tview.modify p (tview.AddChild c)) cs) =
  List.map tview.reference cs.
Proof.
  rewrite List.map_map. apply List.map_ext. intros n. apply modify_AddChild_reference.
Qed.

Lemma addNewChild_building ra d refs p child app :
  building ra d refs app →
  (p = ra ∨ (d < p)%positive) →
  building ra d (refs ++ if (p =? ra)%positive then [tview.reference child] else [])
    (cmd.addNewChild p child app).
Proof.
  intros (Hra & Hlt & Hd & rest & Hch & Hrefs) Hp.
  assert (Hdm : tview.modify p (tview.AddChild child) (tview.NewTreeNode d "Direct Messages") =
                tview.NewTreeNode d "Direct Messages").
  { rewrite modify_unfold. cbn.
    destruct (Pos.eqb_spec d p) as [->|_]; [lia|reflexivity]. }
  unfold building, cmd.addNewChild. cbn [cmd.root cmd.nextAddr].
  rewrite modify_unfold, Hra, Hch. cbn zeta. cbn [List.map]. rewrite Hdm.
  rewrite (Pos.eqb_sym p ra).
  destruct (Pos.eqb_spec ra p) as [Heq|Hne]; cbn.
  - split; [exact Hra|]. split; [exact Hlt|]. split; [lia|].
    eexists. split; [reflexivity|].
    now rewrite List.map_app, modify_AddChild_references, Hrefs.
  - split; [exact Hra|]. split; [exact Hlt|]. split; [lia|].
    eexists. split; [reflexivity|].
    now rewrite modify_AddChild_references, Hrefs, app_nil_r.
Qed.

Lemma createFolderNode_building discordState fmt cfg ra d refs folder app :
  building ra d refs app →
  building ra d (refs ++ [tview.RefNil]) (cmd.createFolderNode discordState fmt cfg folder app).
Proof.
  intros Hb. unfold cmd.createFolderNode.
  set (folderNode := tview.SetExpanded _ _).
  assert (Hfa : tview.address folderNode = cmd.nextAddr app) by reflexivity.
  pose proof (addNewChild_building ra d refs ra folderNode app Hb (or_introl eq_refl)) as Hb1.
  rewrite Pos.eqb_refl in Hb1. change (tview.reference folderNode) with tview.RefNil in Hb1.
  assert (Hra : tview.address (cmd.root app) = ra) by apply Hb.
  rewrite Hra.
  assert (Hfresh : (d < tview.address folderNode)%positive ∧
                   (tview.address folderNode =? ra)%positive = false).
  { rewrite Hfa. destruct Hb as (_ & Hlt & Hd & _). split; [exact Hd|].
    apply Pos.eqb_neq. lia. }
  revert Hb1. generalize (cmd.addNewChild ra folderNode app).
  generalize (refs ++ [tview.RefNil]). clear Hb Hra.
  induction (gateway.FolderGuildIDs folder) as [|gID ids IH]; intros refs1 app1 Hb1;
    [exact Hb1|].
  cbn [fold_left]. apply IH.
  destruct (ningen.Guild discordState gID) as [guild|]; [|exact Hb1].
  unfold cmd.createGuildNode.
  pose proof (addNewChild_building ra d refs1 (tview.address folderNode)
                (tview.SetTextStyle (cmd.getGuildNodeStyle discordState (discord.GuildID_ guild))
                   (tview.SetReference (tview.RefGuild (discord.GuildID_ guild))
                      (tview.NewTreeNode (cmd.nextAddr app1) (discord.GuildName guild))))
                app1 Hb1 (or_intror (proj1 Hfresh))) as Hb2.
  rewrite (proj2 Hfresh), app_nil_r in Hb2. exact Hb2.
Qed.

(** X14.  The tree the first Ready event builds, on a state whose root is
    below the allocator.  The root keeps its address and is the current
    node; its first child is a new Direct Messages node without children;
    after it comes one node per folder of the event, in order: the guild's
    node for a guild outside any folder (none when the cache does not know
    the guild), a folder node otherwise.  The tree is marked initialized,
    and the focus and a redraw are asked for. *)
Theorem onReady_first_builds_top_level
    (discordState : ningen.State) (fmt : ui.Format) (cfg : config.Config)
    (r : gateway.ReadyEvent) (app : cmd.App) :
  cmd.guildsTreeInitialized app = false →
  (tview.address (cmd.root app) < cmd.nextAddr app)%positive →
  let app' := cmd.onReady discordState fmt cfg r app in
  tview.address (cmd.root app') = tview.address (cmd.root app) ∧
  cmd.currentNode app' = Some (tview.address (cmd.root app)) ∧
  cmd.guildsTreeInitialized app' = true ∧
  cmd.effects app' = cmd.effects app ++ [cmd.SetFocusGuildsTree; cmd.Draw] ∧
  ∃ rest,
    tview.children (cmd.root app') =
      tview.NewTreeNode (cmd.nextAddr app) "Direct Messages" :: rest ∧
    List.map tview.reference rest =
      List.flat_map (topLevelOf discordState) (gateway.GuildFolders r).
Proof.
  intros Hfirst Hroot app'. subst app'. unfold cmd.onReady. rewrite Hfirst.
  set (app1 := {| cmd.root := tview.AddChild _ _; cmd.guildsTreeInitialized := true |}).
  assert (Hb1 : building (tview.address (cmd.root app)) (cmd.nextAddr app) [] app1).
  { unfold building, app1. cbn. split; [reflexivity|]. split; [exact Hroot|].
    split; [lia|]. now exists []. }
  assert (Hkeep1 : cmd.guildsTreeInitialized app1 = true ∧ cmd.effects app1 = cmd.effects app)
    by (split; reflexivity).
  set (step := λ (app : cmd.App) (folder : gateway.GuildFolder), _).
  assert (Hstep : ∀ folders refs app0,
            building (tview.address (cmd.root app)) (cmd.nextAddr app) refs app0 →
            cmd.guildsTreeInitialized app0 = true ∧ cmd.effects app0 = cmd.effects app →
            building (tview.address (cmd.root app)) (cmd.nextAddr app)
              (refs ++ List.flat_map (topLevelOf discordState) folders)
              (fold_left step folders app0) ∧
            cmd.guildsTreeInitialized (fold_left step folders app0) = true ∧
            cmd.effects (fold_left step folders app0) = cmd.effects app).
  { clear Hb1 Hkeep1. induction folders as [|folder folders IH]; intros refs app0 Hb Hkeep.
    - cbn. rewrite app_nil_r. auto.
    - cbn [fold_left List.flat_map]. rewrite app_assoc. apply IH.
      + unfold step, topLevelOf. destruct (_ && _).
        * assert (Hra : tview.address (cmd.root app0) = tview.address (cmd.root app))
            by apply Hb.
          destruct (ningen.Guild discordState _) as [guild|]; [|now rewrite app_nil_r].
          unfold cmd.createGuildNode. rewrite Hra.
          pose proof (addNewChild_building _ _ refs (tview.address (cmd.root app))
                        (tview.SetTextStyle
                           (cmd.getGuildNodeStyle discordState (discord.GuildID_ guild))
                           (tview.SetReference (tview.RefGuild (discord.GuildID_ guild))
                              (tview.NewTreeNode (cmd.nextAddr app0) (discord.GuildName guild))))
                        app0 Hb (or_introl eq_refl)) as Hb2.
          rewrite Pos.eqb_refl in Hb2. exact Hb2.
        * now apply createFolderNode_building.
      + unfold step. destruct Hkeep as [Hinit Heff].
        destruct (_ && _).
        * destruct (ningen.Guild discordState _); [|auto]. split; [exact Hinit|exact Heff].
        * split.
          -- now rewrite createFolderNode_initialized.
          -- unfold cmd.createFolderNode.
             match goal with |- cmd.effects (fold_left ?f ?l ?a) = _ =>
               assert (Ha : cmd.effects a = cmd.effects app) by exact Heff;
               revert Ha; generalize a end.
             induction (gateway.FolderGuildIDs folder) as [|gID ids IHids]; intros a Ha;
               [exact Ha|].
             cbn [fold_left]. apply IHids.
             destruct (ningen.Guild discordState gID); [exact Ha|exact Ha]. }
  destruct (Hstep (gateway.GuildFolders r) [] app1 Hb1 Hkeep1)
    as ((Hra & _ & _ & rest & Hch & Hrefs) & Hinit & Heff).
  cbn [cmd.root cmd.currentNode cmd.guildsTreeInitialized cmd.effects].
  rewrite Hra, Hinit, Heff. repeat (split; [reflexivity|]).
  exists rest. split; [exact Hch|exact Hrefs].
Qed.

Lemma onReady_first_builds_top_level_witness :
  ∃ rest,
    tview.children (cmd.root (cmd.onReady oneGuildState plainFormat defaultConfig
                                oneGuildReady freshApp)) =
      tview.NewTreeNode 2 "Direct Messages" :: rest ∧
    List.map tview.reference rest = [tview.RefGuild 40].
Proof.
  apply (onReady_first_builds_top_level oneGuildState plainFormat defaultConfig
           oneGuildReady freshApp); reflexivity.
Defined.

(** ** Read-state updates: what is restyled *)

(** *** Walks that decide by the reference of the node *)

(** The tree a walk leaves when its callback decides by the reference of the
    visited node alone: a node whose reference [paint] maps to a style gets
    that style and the walk does not go below it; the walk goes through every
    other node and leaves its style alone. *)
Fixpoint painted (paint : tview.Reference → option tcell.Style) (t : tview.TreeNode)
  : tview.TreeNode :=
  match t with
  | tview.mkTreeNode a tx r st e cs =>
      match paint r with
      | Some st' => tview.mkTreeNode a tx r st' e cs
      | None => tview.mkTreeNode a tx r st e (List.map (painted paint) cs)
      end
  end.

Lemma painted_unfold paint n :
  painted paint n =
  match paint (tview.reference n) with
  | Some st' => tview.SetTextStyle st' n
  | None => tview.SetChildren (List.map (painted paint) (tview.children n)) n
  end.
Proof. destruct n as [a tx r st e cs]. simpl. now destruct (paint r). Qed.

Lemma Walk_painted {S : Type} (paint : tview.Reference → option tcell.Style)
    (cb : tview.TreeNode → option tview.addr → S → S * tcell.Style * bool) :
  (∀ n parent s,
     (snd (fst (cb n parent s)), snd (cb n parent s)) =
     match paint (tview.reference n) with
     | Some st' => (st', false)
     | None => (tview.textStyle n, true)
     end) →
  ∀ n parent s, fst (tview.Walk cb n parent s) = painted paint n.
Proof.
  intros Hcb. induction n as [a tx r st e cs IH] using TreeNode_children_ind.
  intros parent s. rewrite Walk_unfold, painted_unfold.
  specialize (Hcb (tview.mkTreeNode a tx r st e cs) parent s).
  destruct (cb _ parent s) as [[s1 st1] descend]. cbn [fst snd] in Hcb.
  cbn [tview.reference] in *.
  destruct (paint r) as [st'|]; injection Hcb as -> ->; [reflexivity|].
  cbn [tview.address tview.children].
  assert (Hcs : ∀ s0, fst (tview.walkChildren cb a cs s0) = List.map (painted paint) cs).
  { induction cs as [|c cs IHcs]; intros s0; [reflexivity|]. simpl.
    apply Forall_inv in IH as Hc. apply Forall_inv_tail in IH.
    specialize (Hc (Some a) s0).
    destruct (tview.Walk cb c (Some a) s0) as [c' s']. simpl in Hc.
    specialize (IHcs IH s').
    destruct (tview.walkChildren cb a cs s') as [l'' s'']. simpl in *.
    now rewrite Hc, IHcs. }
  specialize (Hcs s1). destruct (tview.walkChildren cb a cs s1) as [cs' s2].
  simpl in *. now rewrite Hcs.
Qed.

Lemma painted_none paint :
  ∀ t, (∀ m, In m (tview.nodes t) → paint (tview.reference m) = None) → painted paint t = t.
Proof.
  induction t as [a tx r st e cs IH] using TreeNode_children_ind. intros Hnone.
  rewrite painted_unfold.
  rewrite (Hnone (tview.mkTreeNode a tx r st e cs)) by (rewrite nodes_unfold; now left).
  unfold tview.SetChildren. simpl. f_equal.
  assert (Hcs : ∀ m, In m (nodesOf cs) → paint (tview.reference m) = None)
    by (intros m Hm; apply Hnone; rewrite nodes_unfold; now right).
  clear Hnone. induction cs as [|c cs IHcs]; [reflexivity|]. cbn [List.map].
  apply Forall_inv in IH as Hc. apply Forall_inv_tail in IH.
  rewrite Hc, IHcs; [reflexivity|exact IH| |].
  - intros m Hm. apply Hcs. rewrite nodesOf_cons. apply in_or_app. now right.
  - intros m Hm. apply Hcs. rewrite nodesOf_cons. apply in_or_app. now left.
Qed.

(** In a tree of distinct nodes an address names one node. *)
Lemma node_of_address (l : list tview.TreeNode) (x y : tview.TreeNode) :
  List.NoDup (List.map tview.address l) → In x l → In y l →
  tview.address x = tview.address y → x = y.
Proof.
  induction l as [|z l IH]; intros Hnodup Hx Hy Heq; [destruct Hx|].
  cbn in Hnodup. apply NoDup_cons_iff in Hnodup as [Hz Hnodup].
  destruct Hx as [->|Hx], Hy as [->|Hy]; [reflexivity| | |now apply IH].
  - exfalso. apply Hz. rewrite Heq. now apply in_map.
  - exfalso. apply Hz. rewrite <- Heq. now apply in_map.
Qed.

(** Two functions on trees agree on the children of a node when they agree
    on the child that holds the node [n] and on every child without the
    address of [n]. *)
Lemma map_at_child (F G : tview.TreeNode → tview.TreeNode) (cs : list tview.TreeNode)
    (n : tview.TreeNode) :
  List.NoDup (List.map tview.address (nodesOf cs)) →
  In n (nodesOf cs) →
  (∀ c, In c cs → In n (tview.nodes c) → F c = G c) →
  (∀ c, In c cs → ¬ In (tview.address n) (tview.addresses c) → F c = G c) →
  List.map F cs = List.map G cs.
Proof.
  intros Hnodup Hn Hwith Hwithout. apply List.map_ext_in. intros c Hc.
  destruct (in_dec Pos.eq_dec (tview.address n) (tview.addresses c)) as [Hin|Hout];
    [|now apply Hwithout].
  apply Hwith; [exact Hc|].
  unfold tview.addresses in Hin. apply in_map_iff in Hin as (m & Haddr & Hm).
  assert (Hm' : In m (nodesOf cs)).
  { apply in_split in Hc as (l1 & l2 & ->). rewrite nodesOf_app, nodesOf_cons.
    apply in_or_app. right. apply in_or_app. now left. }
  now rewrite <- (node_of_address _ m n Hnodup Hm' Hn Haddr).
Qed.

(** When one node only is to be painted, the walk sets the style of that
    node and changes nothing else. *)
Lemma painted_only paint (d : tview.TreeNode) (st : tcell.Style) :
  paint (tview.reference d) = Some st →
  ∀ t, List.NoDup (tview.addresses t) → In d (tview.nodes t) →
       (∀ m, In m (tview.nodes t) → paint (tview.reference m) ≠ None → m = d) →
       painted paint t = restyle (tview.address d) st t.
Proof.
  intros Hd. induction t as [a tx r st0 e cs IH] using TreeNode_children_ind.
  intros Hnodup Hin Honly. rewrite painted_unfold, restyle_unfold.
  unfold tview.addresses in Hnodup. rewrite nodes_unfold in Hnodup, Hin.
  cbn [tview.children tview.address List.map] in Hnodup, Hin.
  apply NoDup_cons_iff in Hnodup as [Ha Hnodup].
  cbn [tview.reference tview.children tview.address tview.text tview.textStyle
       tview.expanded tview.SetTextStyle tview.SetChildren].
  destruct (paint r) as [st'|] eqn:Hr.
  - assert (Hself : tview.mkTreeNode a tx r st0 e cs = d).
    { apply Honly; [rewrite nodes_unfold; now left|]. cbn. now rewrite Hr. }
    subst d. cbn in Hd. rewrite Hr in Hd. injection Hd as ->.
    cbn [tview.address]. rewrite Pos.eqb_refl. unfold tview.SetTextStyle. cbn. f_equal.
    symmetry. apply (modify_absent_list a (tview.SetTextStyle st) cs Ha).
  - destruct Hin as [Hself|Hin].
    { subst d. cbn in Hd. congruence. }
    destruct (Pos.eqb_spec a (tview.address d)) as [Heq|_].
    { exfalso. apply Ha. rewrite Heq. now apply in_map. }
    unfold tview.SetChildren. cbn. f_equal. apply (map_at_child _ _ cs d Hnodup Hin).
    + intros c Hc Hdc. rewrite List.Forall_forall in IH. apply (IH c Hc).
      * apply in_split in Hc as (l1 & l2 & ->).
        rewrite nodesOf_app, nodesOf_cons, !List.map_app in Hnodup.
        now apply NoDup_app_remove_l, NoDup_app_remove_r in Hnodup.
      * exact Hdc.
      * intros m Hm. apply Honly. rewrite nodes_unfold. right. cbn [tview.children].
        apply in_split in Hc as (l1 & l2 & ->). rewrite nodesOf_app, nodesOf_cons.
        apply in_or_app. right. apply in_or_app. now left.
    + intros c Hc Hout. rewrite painted_none.
      * unfold restyle. symmetry. now apply modify_absent.
      * intros m Hm. destruct (paint (tview.reference m)) eqn:Hpm; [|reflexivity].
        exfalso. apply Hout.
        assert (Hmd : m = d).
        { apply Honly; [|congruence]. rewrite nodes_unfold. right. cbn [tview.children].
          apply in_split in Hc as (l1 & l2 & ->). rewrite nodesOf_app, nodesOf_cons.
          apply in_or_app. right. apply in_or_app. now left. }
        subst m. unfold tview.addresses. now apply in_map.
Qed.

Lemma painted_address paint n : tview.address (painted paint n) = tview.address n.
Proof. rewrite painted_unfold. now destruct (paint _). Qed.

(** *** The captured variables of a walk *)

Definition walkState {S : Type}
    (cb : tview.TreeNode → option tview.addr → S → S * tcell.Style * bool)
    (n : tview.TreeNode) (parent : option tview.addr) (s : S) : S :=
  snd (tview.Walk cb n parent s).

Definition walkStates {S : Type}
    (cb : tview.TreeNode → option tview.addr → S → S * tcell.Style * bool)
    (a : tview.addr) (cs : list tview.TreeNode) (s : S) : S :=
  snd (tview.walkChildren cb a cs s).

Lemma walkStates_cons {S : Type}
    (cb : tview.TreeNode → option tview.addr → S → S * tcell.Style * bool) a c cs s :
  walkStates cb a (c :: cs) s = walkStates cb a cs (walkState cb c (Some a) s).
Proof.
  unfold walkStates, walkState. simpl.
  destruct (tview.Walk cb c (Some a) s) as [c' s']. simpl.
  now destruct (tview.walkChildren cb a cs s') as [l'' s''].
Qed.

Lemma walkState_unfold {S : Type}
    (cb : tview.TreeNode → option tview.addr → S → S * tcell.Style * bool) n parent s :
  walkState cb n parent s =
  if snd (cb n parent s)
  then walkStates cb (tview.address n) (tview.children n) (fst (fst (cb n parent s)))
  else fst (fst (cb n parent s)).
Proof.
  unfold walkState, walkStates. rewrite Walk_unfold.
  destruct (cb n parent s) as [[s1 st1] descend]. cbn [fst snd].
  destruct descend; [|reflexivity].
  now destruct (tview.walkChildren cb (tview.address n) (tview.children n) s1).
Qed.

(** Two walks that go the same way keep their captured variables related. *)
Lemma walkState_related {S1 S2 : Type} (R : S1 → S2 → Prop)
    (cb1 : tview.TreeNode → option tview.addr → S1 → S1 * tcell.Style * bool)
    (cb2 : tview.TreeNode → option tview.addr → S2 → S2 * tcell.Style * bool) :
  (∀ n parent s1 s2, R s1 s2 →
     R (fst (fst (cb1 n parent s1))) (fst (fst (cb2 n parent s2))) ∧
     snd (cb1 n parent s1) = snd (cb2 n parent s2)) →
  ∀ n parent s1 s2, R s1 s2 → R (walkState cb1 n parent s1) (walkState cb2 n parent s2).
Proof.
  intros Hcb. induction n as [a tx r st e cs IH] using TreeNode_children_ind.
  intros parent s1 s2 HR. rewrite !walkState_unfold.
  destruct (Hcb (tview.mkTreeNode a tx r st e cs) parent s1 s2 HR) as [HR1 Hsame].
  rewrite Hsame. destruct (snd (cb2 _ parent s2)); [|exact HR1].
  cbn [tview.address tview.children].
  revert HR1. generalize (fst (fst (cb1 (tview.mkTreeNode a tx r st e cs) parent s1))).
  generalize (fst (fst (cb2 (tview.mkTreeNode a tx r st e cs) parent s2))).
  clear Hsame HR. induction cs as [|c cs IHcs]; intros t2 t1 HR1; [exact HR1|].
  rewrite !walkStates_cons.
  apply Forall_inv in IH as Hc. apply Forall_inv_tail in IH.
  apply IHcs; [exact IH|]. now apply Hc.
Qed.

(** *** The two walks of the handler *)

Section ReadUpdate.

Context (discordState : ningen.State) (event : ningen.UpdateEvent).

Let channelStyle : tcell.Style :=
  cmd.unreadStyle (ningen.ChannelIsUnread discordState (ningen.ReadChannelID event)).
Let guildStyle : tcell.Style :=
  cmd.unreadStyle (ningen.GuildIsUnread discordState (ningen.ReadGuildID event)).

(** What the first walk of [onReadUpdate] paints, and the second. *)
Definition firstPaint (r : tview.Reference) : option tcell.Style :=
  if tview.Reference_eqb r (tview.RefGuild (ningen.ReadGuildID event))
  then Some guildStyle
  else if tview.Reference_eqb r (tview.RefChannel (ningen.ReadChannelID event))
  then if negb (discord.IsValid (ningen.ReadGuildID event)) then Some channelStyle else None
  else None.

Definition secondPaint (r : tview.Reference) : option tcell.Style :=
  if tview.Reference_eqb r (tview.RefChannel (ningen.ReadChannelID event))
  then Some channelStyle
  else None.

Lemma firstWalk_painted n parent s :
  fst (tview.Walk (cmd.readUpdateCallback discordState event) n parent s) =
  painted firstPaint n.
Proof.
  apply Walk_painted. clear. intros n parent s.
  unfold cmd.readUpdateCallback, firstPaint, guildStyle, channelStyle,
    cmd.getGuildNodeStyle, cmd.getChannelNodeStyle.
  destruct (tview.Reference_eqb _ (tview.RefGuild _)); [reflexivity|].
  destruct (tview.Reference_eqb _ (tview.RefChannel _)); [|reflexivity].
  now destruct (negb _).
Qed.

Lemma secondWalk_painted n parent s :
  fst (tview.Walk (cmd.readUpdateChannelCallback discordState event) n parent s) =
  painted secondPaint n.
Proof.
  apply Walk_painted. clear. intros n parent s.
  unfold cmd.readUpdateChannelCallback, secondPaint, channelStyle, cmd.getChannelNodeStyle.
  now destruct (tview.Reference_eqb _ _).
Qed.

Lemma Reference_eqb_eq (a b : tview.Reference) : tview.Reference_eqb a b = true ↔ a = b.
Proof.
  destruct a, b; simpl; split; try discriminate; try reflexivity; intros H.
  - apply N.eqb_eq in H. now subst.
  - injection H as ->. apply N.eqb_refl.
  - apply N.eqb_eq in H. now subst.
  - injection H as ->. apply N.eqb_refl.
Qed.

(** Where no node references the guild of the event, the first walk captures
    no guild node. *)
Lemma firstWalk_no_guild :
  ∀ n parent s,
    (∀ m, In m (tview.nodes n) →
          tview.reference m ≠ tview.RefGuild (ningen.ReadGuildID event)) →
    fst (walkState (cmd.readUpdateCallback discordState event) n parent s) = fst s.
Proof.
  induction n as [a tx r st e cs IH] using TreeNode_children_ind.
  intros parent s Hnone. rewrite walkState_unfold.
  assert (Hr : tview.Reference_eqb r (tview.RefGuild (ningen.ReadGuildID event)) = false).
  { destruct (tview.Reference_eqb r _) eqn:Heq; [|reflexivity].
    apply Reference_eqb_eq in Heq.
    exfalso. apply (Hnone (tview.mkTreeNode a tx r st e cs)); [|exact Heq].
    rewrite nodes_unfold. now left. }
  assert (Hcs : ∀ s0, fst (walkStates (cmd.readUpdateCallback discordState event) a cs s0) =
                      fst s0).
  { assert (Hnone' : ∀ m, In m (nodesOf cs) →
                          tview.reference m ≠ tview.RefGuild (ningen.ReadGuildID event))
      by (intros m Hm; apply Hnone; rewrite nodes_unfold; now right).
    clear Hnone Hr. induction cs as [|c cs IHcs]; intros s0; [reflexivity|].
    rewrite walkStates_cons.
    apply Forall_inv in IH as Hc. apply Forall_inv_tail in IH.
    rewrite IHcs; [apply Hc|exact IH|].
    - intros m Hm. apply Hnone'. rewrite nodesOf_cons. apply in_or_app. now left.
    - intros m Hm. apply Hnone'. rewrite nodesOf_cons. apply in_or_app. now right. }
  assert (Hout : fst (fst (fst (cmd.readUpdateCallback discordState event
                                  (tview.mkTreeNode a tx r st e cs) parent s))) = fst s).
  { unfold cmd.readUpdateCallback. cbn [tview.reference]. rewrite Hr.
    destruct (tview.Reference_eqb r (tview.RefChannel _)); [destruct (negb _)|];
      reflexivity. }
  destruct (snd (cmd.readUpdateCallback discordState event _ parent s)); [|exact Hout].
  cbn [tview.address tview.children]. now rewrite Hcs.
Qed.

(** For a valid guild id the first walk captures the node of the guild, with
    its new style, as the lookup by the guild id finds it. *)
Lemma firstWalk_guild n parent s found :
  discord.IsValid (ningen.ReadGuildID event) = true →
  fst s = option_map (tview.SetTextStyle guildStyle) found →
  fst (walkState (cmd.readUpdateCallback discordState event) n parent s) =
  option_map (tview.SetTextStyle guildStyle)
    (findFrom (cmd.hasReference (tview.RefGuild (ningen.ReadGuildID event))) n parent found).
Proof.
  intros Hvalid.
  apply (walkState_related
           (λ (s1 : option tview.TreeNode * bool) (s2 : option tview.TreeNode),
              fst s1 = option_map (tview.SetTextStyle guildStyle) s2)
           (cmd.readUpdateCallback discordState event)
           (cmd.findCallback (cmd.hasReference (tview.RefGuild (ningen.ReadGuildID event))))).
  clear n parent s found. intros n parent s1 s2 HR.
  unfold cmd.readUpdateCallback, cmd.findCallback, cmd.hasReference.
  destruct (tview.Reference_eqb (tview.reference n) (tview.RefGuild _)).
  - split; reflexivity.
  - rewrite Hvalid. cbn [negb].
    destruct (tview.Reference_eqb (tview.reference n) _); split; assumption || reflexivity.
Qed.

End ReadUpdate.

Lemma deref_inside t n q :
  List.NoDup (tview.addresses t) → In n (tview.nodes t) → In q (tview.addresses n) →
  tview.deref q t = tview.deref q n.
Proof.
  intros Hnodup Hn Hq. apply in_map_iff in Hq as (m & <- & Hm).
  rewrite (deref_node t m Hnodup (In_nodes_node t n m Hn Hm)).
  symmetry. apply deref_node; [|exact Hm]. now apply (NoDup_addresses_node t n).
Qed.

Lemma In_nodesOf_node cs d m :
  In d (nodesOf cs) → In m (tview.nodes d) → In m (nodesOf cs).
Proof.
  induction cs as [|c cs IH]; [intros []|].
  rewrite !nodesOf_cons. intros Hd Hm. apply in_or_app.
  apply in_app_or in Hd as [Hd|Hd]; [left|right; now apply IH].
  now apply (In_nodes_node c d m).
Qed.

(** A node restyled through its own pointer. *)
Lemma restyle_self r d st :
  List.NoDup (tview.addresses r) → In d (tview.nodes r) →
  restyle (tview.address d) st d =
  tview.mkTreeNode (tview.address d) (tview.text d) (tview.reference d) st
    (tview.expanded d) (tview.children d).
Proof.
  intros Hnodup Hd. rewrite restyle_unfold, Pos.eqb_refl. f_equal.
  apply modify_absent_list. now apply (node_not_below r d).
Qed.

(** C3, as the code has it.  A read-state update rebuilds nothing: the tree
    keeps its nodes, their order, addresses, texts, references and expansion,
    and nothing else of the state changes.  The only nodes whose style can
    change are those that reference the channel of the event or the guild of
    the event.  The styles are those of the read state: dim for read, bold
    for unread, bold and underlined for mentioned.  Where [d] is the only node
    that references the channel of the event:
    - for a private channel (no valid guild id in the event, no node of that
      guild id) the node [d] gets the style of the channel, recomputed from
      the read state, and keeps everything else;
    - for a channel of a guild whose only node is [G], with [d] below [G],
      the node [G] gets the style of the guild, recomputed from the read
      state; the node [d] gets the style of the channel when [G] is expanded
      and is left exactly as it was when [G] is collapsed. *)
Theorem onReadUpdate_restyles_channel_and_guild_only
    (discordState : ningen.State) (event : ningen.UpdateEvent) (app : cmd.App) :
  let app' := cmd.onReadUpdate discordState event app in
  let channelStyle :=
    cmd.unreadStyle (ningen.ChannelIsUnread discordState (ningen.ReadChannelID event)) in
  let guildStyle :=
    cmd.unreadStyle (ningen.GuildIsUnread discordState (ningen.ReadGuildID event)) in
  (restyled (readUpdateTargets event) (cmd.root app) (cmd.root app') ∧
   cmd.currentNode app' = cmd.currentNode app ∧
   cmd.selectedChannel app' = cmd.selectedChannel app ∧
   cmd.guildsTreeInitialized app' = cmd.guildsTreeInitialized app ∧
   cmd.nextAddr app' = cmd.nextAddr app ∧
   cmd.effects app' = cmd.effects app) ∧
  (cmd.unreadStyle ningen.ChannelRead =
     {| tcell.bold := false; tcell.dim := true; tcell.underline := false |} ∧
   cmd.unreadStyle ningen.ChannelUnread =
     {| tcell.bold := true; tcell.dim := false; tcell.underline := false |} ∧
   cmd.unreadStyle ningen.ChannelMentioned =
     {| tcell.bold := true; tcell.dim := false; tcell.underline := true |} ∧
   cmd.unreadStyle ningen.OtherIndication =
     {| tcell.bold := false; tcell.dim := false; tcell.underline := false |}) ∧
  (∀ d : tview.TreeNode,
     List.NoDup (tview.addresses (cmd.root app)) →
     In d (tview.nodes (cmd.root app)) →
     onlyNodeOf (ningen.ReadChannelID event) (cmd.root app) d →
     discord.IsValid (ningen.ReadGuildID event) = false →
     (∀ m, In m (tview.nodes (cmd.root app)) →
           tview.reference m ≠ tview.RefGuild (ningen.ReadGuildID event)) →
     tview.deref (tview.address d) (cmd.root app') =
       Some (tview.mkTreeNode (tview.address d) (tview.text d) (tview.reference d)
               channelStyle (tview.expanded d) (tview.children d))) ∧
  (∀ G d : tview.TreeNode,
     List.NoDup (tview.addresses (cmd.root app)) →
     discord.IsValid (ningen.ReadGuildID event) = true →
     In G (tview.nodes (cmd.root app)) →
     tview.reference G = tview.RefGuild (ningen.ReadGuildID event) →
     (∀ m, In m (tview.nodes (cmd.root app)) →
           tview.reference m = tview.RefGuild (ningen.ReadGuildID event) → m = G) →
     In d (nodesOf (tview.children G)) →
     onlyNodeOf (ningen.ReadChannelID event) (cmd.root app) d →
     (∃ below,
        tview.deref (tview.address G) (cmd.root app') =
          Some (tview.mkTreeNode (tview.address G) (tview.text G) (tview.reference G)
                  guildStyle (tview.expanded G) below)) ∧
     tview.deref (tview.address d) (cmd.root app') =
       Some (tview.mkTreeNode (tview.address d) (tview.text d) (tview.reference d)
               (if tview.expanded G then channelStyle else tview.textStyle d)
               (tview.expanded d) (tview.children d))).
Proof.
  intros app' channelStyle guildStyle.
  assert (Hframe :
    restyled (readUpdateTargets event) (cmd.root app) (cmd.root app') ∧
    cmd.currentNode app' = cmd.currentNode app ∧
    cmd.selectedChannel app' = cmd.selectedChannel app ∧
    cmd.guildsTreeInitialized app' = cmd.guildsTreeInitialized app ∧
    cmd.nextAddr app' = cmd.nextAddr app ∧
    cmd.effects app' = cmd.effects app).
  { subst app'. unfold cmd.onReadUpdate.
    pose proof (Walk_restyled (readUpdateTargets event)
                  (cmd.readUpdateCallback discordState event)) as Hfirst.
    specialize (Hfirst ltac:(
      intros n parent s Hallowed; unfold readUpdateTargets in Hallowed;
      apply orb_false_iff in Hallowed as [Hg Hc];
      unfold cmd.readUpdateCallback; now rewrite Hg, Hc) (cmd.root app) None (None, false)).
    destruct (tview.Walk _ (cmd.root app) None (None, false)) as [root1 [guildNode found]].
    simpl in Hfirst.
    assert (Hsecond : ∀ g,
      restyled (readUpdateTargets event) (cmd.root app)
        (tview.modify (tview.address g)
           (λ n, fst (tview.Walk (cmd.readUpdateChannelCallback discordState event)
                        n None found))
           root1)).
    { intros g. eapply restyled_trans; [exact Hfirst|].
      apply modify_restyled. intros n. apply Walk_restyled.
      intros m parent s Hallowed. unfold readUpdateTargets in Hallowed.
      apply orb_false_iff in Hallowed as [_ Hc].
      unfold cmd.readUpdateChannelCallback. now rewrite Hc. }
    destruct guildNode as [g|]; [destruct (tview.expanded g)|]; simpl; auto 10. }
  split; [exact Hframe|]. split; [repeat split|].
  assert (Hroot' : ∀ root1 guildNode found,
    tview.Walk (cmd.readUpdateCallback discordState event) (cmd.root app) None (None, false) =
      (root1, (guildNode, found)) →
    root1 = painted (firstPaint discordState event) (cmd.root app) ∧
    guildNode = fst (walkState (cmd.readUpdateCallback discordState event)
                       (cmd.root app) None (None, false))).
  { intros root1 guildNode found Hwalk. split.
    - rewrite <- (firstWalk_painted discordState event (cmd.root app) None (None, false)).
      now rewrite Hwalk.
    - unfold walkState. now rewrite Hwalk. }
  split.
  - (* a private channel *)
    intros d Hnodup Hd [Href Honly] Hvalid Hnone.
    subst app'. unfold cmd.onReadUpdate.
    destruct (tview.Walk _ (cmd.root app) None (None, false))
      as [root1 [guildNode found]] eqn:Hwalk.
    destruct (Hroot' _ _ _ eq_refl) as [-> ->].
    rewrite (firstWalk_no_guild discordState event _ None (None, false) Hnone).
    cbn [fst cmd.withRoot cmd.root].
    rewrite (painted_only (firstPaint discordState event) d channelStyle).
    + rewrite deref_restyle, (deref_node _ d Hnodup Hd). cbn [option_map].
      now rewrite (restyle_self (cmd.root app) d).
    + unfold firstPaint. rewrite Href. cbn [tview.Reference_eqb].
      now rewrite N.eqb_refl, Hvalid.
    + exact Hnodup.
    + exact Hd.
    + intros m Hm Hpaint. unfold firstPaint in Hpaint.
      destruct (tview.Reference_eqb (tview.reference m) (tview.RefGuild _)) eqn:Hg.
      { apply Reference_eqb_eq in Hg. now destruct (Hnone m Hm). }
      destruct (tview.Reference_eqb (tview.reference m) (tview.RefChannel _)) eqn:Hc;
        [|now destruct Hpaint].
      apply Reference_eqb_eq in Hc. now apply Honly.
  - (* a channel of a guild *)
    intros G d Hnodup Hvalid HG HrefG HonlyG HdG [Href Honly].
    assert (Hd : In d (tview.nodes (cmd.root app))).
    { apply (In_nodes_node _ G d HG). rewrite nodes_unfold. now right. }
    assert (HGbelow : ¬ In (tview.address G)
                        (List.map tview.address (nodesOf (tview.children G))))
      by now apply (node_not_below (cmd.root app) G).
    assert (Hroot1 : painted (firstPaint discordState event) (cmd.root app) =
                     restyle (tview.address G) guildStyle (cmd.root app)).
    { apply painted_only; try assumption.
      - unfold firstPaint. rewrite HrefG. cbn [tview.Reference_eqb].
        now rewrite N.eqb_refl.
      - intros m Hm Hpaint. unfold firstPaint in Hpaint.
        destruct (tview.Reference_eqb (tview.reference m) (tview.RefGuild _)) eqn:Hg.
        { apply Reference_eqb_eq in Hg. now apply HonlyG. }
        rewrite Hvalid in Hpaint. cbn [negb] in Hpaint.
        now destruct (tview.Reference_eqb (tview.reference m) (tview.RefChannel _)). }
    assert (HG1 : tview.deref (tview.address G)
                    (restyle (tview.address G) guildStyle (cmd.root app)) =
                  Some (tview.SetTextStyle guildStyle G)).
    { rewrite deref_restyle, (deref_node _ G Hnodup HG). cbn [option_map].
      rewrite (restyle_self (cmd.root app) G guildStyle Hnodup HG). now destruct G. }
    assert (Hguild : fst (walkState (cmd.readUpdateCallback discordState event)
                            (cmd.root app) None (None, false)) =
                     Some (tview.SetTextStyle guildStyle G)).
    { rewrite (firstWalk_guild discordState event _ None (None, false) None Hvalid eq_refl).
      destruct (find_hasReference_only (tview.RefGuild (ningen.ReadGuildID event)) G HrefG
                  (cmd.root app) None None HonlyG) as [_ Hfound].
      now rewrite (Hfound HG). }
    assert (Hdnot : ¬ In (tview.address G) (tview.addresses d)).
    { intros Hin. apply HGbelow. apply in_map_iff in Hin as (m & Hm & Hin).
      apply in_map_iff. exists m. split; [exact Hm|].
      now apply (In_nodesOf_node _ d m). }
    pose proof (restyled_addresses _ _ _ (proj1 Hframe)) as Haddr.
    subst app'. revert Haddr. unfold cmd.onReadUpdate.
    destruct (tview.Walk _ (cmd.root app) None (None, false))
      as [root1 [guildNode found]] eqn:Hwalk.
    destruct (Hroot' _ _ _ eq_refl) as [-> ->].
    rewrite Hguild, Hroot1. cbn [tview.SetTextStyle tview.expanded tview.address].
    destruct G as [aG txG rG stG eG csG]. cbn [tview.expanded tview.address] in *.
    destruct eG; cbn [cmd.withRoot cmd.root]; intros Haddr.
    + (* expanded: the second walk runs below the guild node *)
      set (f := λ n : tview.TreeNode,
             fst (tview.Walk (cmd.readUpdateChannelCallback discordState event)
                    n None found)) in *.
      assert (Hf : ∀ m, f m = painted (secondPaint discordState event) m)
        by (intros m; apply secondWalk_painted).
      assert (HG2 : tview.deref aG
                      (tview.modify aG f (restyle aG guildStyle (cmd.root app))) =
                    Some (f (tview.mkTreeNode aG txG rG guildStyle true csG))).
      { apply deref_modify.
        - intros m. rewrite Hf. apply painted_address.
        - exact HG1.
        - exact HGbelow. }
      assert (HnodupG : List.NoDup (tview.addresses
                                      (tview.mkTreeNode aG txG rG guildStyle true csG))).
      { apply (NoDup_addresses_node _ _ Hnodup) in HG.
        rewrite addresses_unfold in HG |- *. exact HG. }
      assert (HdG1 : In d (tview.nodes (tview.mkTreeNode aG txG rG guildStyle true csG)))
        by (rewrite nodes_unfold; now right).
      assert (Hpainted : f (tview.mkTreeNode aG txG rG guildStyle true csG) =
                         restyle (tview.address d) channelStyle
                           (tview.mkTreeNode aG txG rG guildStyle true csG)).
      { rewrite Hf. apply painted_only; try assumption.
        - unfold secondPaint. rewrite Href. cbn [tview.Reference_eqb].
          now rewrite N.eqb_refl.
        - intros m Hm Hpaint. unfold secondPaint in Hpaint.
          destruct (tview.Reference_eqb (tview.reference m) (tview.RefChannel _)) eqn:Hc;
            [|now destruct Hpaint].
          apply Reference_eqb_eq in Hc.
          rewrite nodes_unfold in Hm. destruct Hm as [<-|Hm].
          + cbn [tview.reference] in Hc. cbn [tview.reference] in HrefG.
            congruence.
          + apply Honly; [|exact Hc]. apply (In_nodes_node _ _ m HG).
            rewrite nodes_unfold. now right. }
      split.
      * exists (List.map (restyle (tview.address d) channelStyle) csG).
        rewrite HG2, Hpainted, restyle_unfold. cbn.
        destruct (aG =? tview.address d)%positive eqn:Heq; [|reflexivity].
        apply Pos.eqb_eq in Heq. exfalso. apply HGbelow. rewrite Heq.
        apply in_map. exact HdG.
      * pose proof Hnodup as Hnodup'. rewrite <- Haddr in Hnodup'.
        apply deref_In in HG2 as HG2in. destruct HG2in as [HG2in _].
        rewrite (deref_inside _ _ (tview.address d) Hnodup' HG2in).
        -- rewrite Hpainted, deref_restyle, (deref_node _ d HnodupG HdG1).
           cbn [option_map]. now rewrite (restyle_self (cmd.root app) d).
        -- rewrite Hpainted.
           rewrite addresses_restyle.
           apply in_map_iff. exists d. split; [reflexivity|exact HdG1].
    + (* collapsed: the second walk does not run *)
      split.
      * exists csG. exact HG1.
      * rewrite deref_restyle, (deref_node _ d Hnodup Hd). cbn [option_map].
        unfold restyle. rewrite (modify_absent _ _ d Hdnot). now destruct d.
Qed.

(** A read-state update for the private channel 103, and the guild of
    [appWithOpenGuildChannel] collapsed, its channel still open. *)
Definition readUpdateOfC : ningen.UpdateEvent :=
  {| ningen.ReadChannelID := 103; ningen.ReadGuildID := 0 |}.

Definition appWithCollapsedGuild : cmd.App :=
  {| cmd.root :=
       tview.mkTreeNode 1 "" tview.RefNil tcell.StyleDefault true
         [ tview.mkTreeNode 2 "Direct Messages" tview.RefNil tcell.StyleDefault true [];
           tview.mkTreeNode 3 "G" (tview.RefGuild 40) tcell.StyleDefault false
             [guildChannelNode] ];
     cmd.currentNode := None; cmd.selectedChannel := Some generalChannel;
     cmd.guildsTreeInitialized := true; cmd.nextAddr := 20%positive; cmd.effects := [] |}.

(** The first branch of [guildsTree.onSelected]: selecting a node that has
    children toggles its expansion and does nothing else. *)
Definition onSelectedWithChildren (node : tview.addr) (app : cmd.App) : cmd.App :=
  cmd.withRoot
    (tview.modify node (λ n, tview.SetExpanded (negb (tview.expanded n)) n) (cmd.root app))
    app.

Lemma onReadUpdate_restyles_channel_and_guild_only_witness :
  tview.deref 13 (cmd.root (cmd.onReadUpdate dmState readUpdateOfC appWithDMs)) =
    Some (tview.mkTreeNode 13 "C" (tview.RefChannel 103)
            {| tcell.bold := false; tcell.dim := true; tcell.underline := false |}
            true []) ∧
  ((∃ below,
      tview.deref 3 (cmd.root (cmd.onReadUpdate oneGuildState readUpdateOfGeneral
                                 appWithOpenGuildChannel)) =
        Some (tview.mkTreeNode 3 "G" (tview.RefGuild 40)
                {| tcell.bold := true; tcell.dim := false; tcell.underline := false |}
                true below)) ∧
   tview.deref 4 (cmd.root (cmd.onReadUpdate oneGuildState readUpdateOfGeneral
                              appWithOpenGuildChannel)) =
     Some (tview.mkTreeNode 4 "#general" (tview.RefChannel 500)
             {| tcell.bold := false; tcell.dim := true; tcell.underline := false |}
             true [])) ∧
  ((∃ below,
      tview.deref 3 (cmd.root (cmd.onReadUpdate oneGuildState readUpdateOfGeneral
                                 appWithCollapsedGuild)) =
        Some (tview.mkTreeNode 3 "G" (tview.RefGuild 40)
                {| tcell.bold := true; tcell.dim := false; tcell.underline := false |}
                false below)) ∧
   tview.deref 4 (cmd.root (cmd.onReadUpdate oneGuildState readUpdateOfGeneral
                              appWithCollapsedGuild)) =
     Some (tview.mkTreeNode 4 "#general" (tview.RefChannel 500)
             {| tcell.bold := false; tcell.dim := false; tcell.underline := false |}
             true [])).
Proof.
  split; [|split].
  - destruct (onReadUpdate_restyles_channel_and_guild_only dmState readUpdateOfC appWithDMs)
      as (_ & _ & Hprivate & _).
    apply (Hprivate nodeC).
    + simpl. repeat (constructor; [simpl; intuition discriminate|]). constructor.
    + simpl. tauto.
    + split; [reflexivity|]. intros m Hm Href. simpl in Hm.
      repeat (destruct Hm as [<-|Hm]; [try reflexivity; discriminate|]). destruct Hm.
    + reflexivity.
    + intros m Hm. simpl in Hm.
      repeat (destruct Hm as [<-|Hm]; [discriminate|]). destruct Hm.
  - destruct (onReadUpdate_restyles_channel_and_guild_only oneGuildState
                readUpdateOfGeneral appWithOpenGuildChannel) as (_ & _ & _ & Hguild).
    apply (Hguild (guildNodeWith tcell.StyleDefault guildChannelNode) guildChannelNode).
    + simpl. repeat (constructor; [simpl; intuition discriminate|]). constructor.
    + reflexivity.
    + simpl. tauto.
    + reflexivity.
    + intros m Hm Href. simpl in Hm.
      repeat (destruct Hm as [<-|Hm]; [try reflexivity; discriminate|]). destruct Hm.
    + simpl. tauto.
    + split; [reflexivity|]. intros m Hm Href. simpl in Hm.
      repeat (destruct Hm as [<-|Hm]; [try reflexivity; discriminate|]). destruct Hm.
  - destruct (onReadUpdate_restyles_channel_and_guild_only oneGuildState
                readUpdateOfGeneral appWithCollapsedGuild) as (_ & _ & _ & Hguild).
    apply (Hguild (tview.mkTreeNode 3 "G" (tview.RefGuild 40) tcell.StyleDefault false
                     [guildChannelNode]) guildChannelNode).
    + simpl. repeat (constructor; [simpl; intuition discriminate|]). constructor.
    + reflexivity.
    + simpl. tauto.
    + reflexivity.
    + intros m Hm Href. simpl in Hm.
      repeat (destruct Hm as [<-|Hm]; [try reflexivity; discriminate|]). destruct Hm.
    + simpl. tauto.
    + split; [reflexivity|]. intros m Hm Href. simpl in Hm.
      repeat (destruct Hm as [<-|Hm]; [try reflexivity; discriminate|]). destruct Hm.
Defined.

(** C3 as stated fails for a guild channel, in both halves.  With the guild
    node expanded, the node of the guild, which is not the node of the
    channel, has its style changed too: from the default style to bold.  With
    the guild node collapsed, the style of the node of the open channel is not
    reapplied: the read state reports the channel as read, whose style is
    dim, and the node keeps the default style.  The user collapses the guild
    node by selecting it, and the channel stays open. *)
Lemma onReadUpdate_restyles_guild_node :
  (cmd.selectedChannel appWithOpenGuildChannel = Some generalChannel ∧
   discord.ChannelID_ generalChannel = ningen.ReadChannelID readUpdateOfGeneral ∧
   tview.deref 3 (cmd.root appWithOpenGuildChannel) =
     Some (tview.mkTreeNode 3 "G" (tview.RefGuild 40)
             {| tcell.bold := false; tcell.dim := false; tcell.underline := false |} true
             [ tview.mkTreeNode 4 "#general" (tview.RefChannel 500)
                 {| tcell.bold := false; tcell.dim := false; tcell.underline := false |}
                 true [] ]) ∧
   tview.deref 3 (cmd.root (cmd.onReadUpdate oneGuildState readUpdateOfGeneral
                              appWithOpenGuildChannel)) =
     Some (tview.mkTreeNode 3 "G" (tview.RefGuild 40)
             {| tcell.bold := true; tcell.dim := false; tcell.underline := false |} true
             [ tview.mkTreeNode 4 "#general" (tview.RefChannel 500)
                 {| tcell.bold := false; tcell.dim := true; tcell.underline := false |}
                 true [] ])) ∧
  (onSelectedWithChildren 3 appWithOpenGuildChannel = appWithCollapsedGuild ∧
   cmd.selectedChannel appWithCollapsedGuild = Some generalChannel ∧
   ningen.ChannelIsUnread oneGuildState 500 = ningen.ChannelRead ∧
   cmd.unreadStyle ningen.ChannelRead =
     {| tcell.bold := false; tcell.dim := true; tcell.underline := false |} ∧
   tview.deref 4 (cmd.root appWithCollapsedGuild) =
     Some (tview.mkTreeNode 4 "#general" (tview.RefChannel 500)
             {| tcell.bold := false; tcell.dim := false; tcell.underline := false |}
             true []) ∧
   tview.deref 4 (cmd.root (cmd.onReadUpdate oneGuildState readUpdateOfGeneral
                              appWithCollapsedGuild)) =
     Some (tview.mkTreeNode 4 "#general" (tview.RefChannel 500)
             {| tcell.bold := false; tcell.dim := false; tcell.underline := false |}
             true [])).
Proof. repeat split; vm_compute; reflexivity. Qed.

(** * The members panel over time *)

(** The code that drives the members list: the rest of its methods, the
    member and presence handlers of the gateway, the toggle of the panel and
    the two places of [guildsTree.onSelected] that tell the list which guild
    is shown. *)
Module panel.

(** What this code asks of its collaborators. *)
Inductive Request : Type :=
  | Subscribe (guildID : discord.GuildID)
  | RequestGuildMembers (guildID : discord.GuildID)
  | AddMembersColumn
  | RemoveMembersColumn
  | SetFocusMessagesList.

Section Panel.

Context (slices : Go.Slices) (strs : Go.Strings) (discordState : ningen.State)
  (fmt : ui.Format).

(** [newMembersList], reduced to the fields of the embedding. *)
Definition newMembersList : cmd.membersList :=
  {| cmd.items := []; cmd.currentGuildID := 0%N; cmd.visible := false;
     cmd.memberItems := ∅ |}.

Definition setCurrentGuildID (guildID : discord.GuildID) (ml : cmd.membersList)
  : cmd.membersList :=
  {| cmd.items := cmd.items ml; cmd.currentGuildID := guildID; cmd.visible := cmd.visible ml;
     cmd.memberItems := cmd.memberItems ml |}.

Definition setVisible (visible : bool) (ml : cmd.membersList) : cmd.membersList :=
  {| cmd.items := cmd.items ml; cmd.currentGuildID := cmd.currentGuildID ml;
     cmd.visible := visible; cmd.memberItems := cmd.memberItems ml |}.

(** [updateForGuild]: the request is sent from a goroutine of its own. *)
Definition updateForGuild (guildID : discord.GuildID) (ml : cmd.membersList)
  : cmd.membersList * list Request :=
  if negb (cmd.visible ml) then (ml, [])
  else
    let ml1 := setCurrentGuildID guildID ml in
    let requests :=
      match ningen.Members discordState guildID with
      | None => [RequestGuildMembers guildID]
      | Some members =>
          if (length members =? 0)%nat then [RequestGuildMembers guildID] else []
      end in
    (cmd.rebuildList slices strs discordState fmt ml1, requests).

Definition updateMemberPresence (userID : discord.UserID) (ml : cmd.membersList)
  : cmd.membersList :=
  if negb (cmd.visible ml) then ml
  else cmd.rebuildList slices strs discordState fmt ml.

(** The handlers of the gateway.  The test runs when the event arrives and
    the rebuild in a queued update; the two run here in one step. *)
Definition onGuildMembersChunk (guildID : discord.GuildID) (ml : cmd.membersList)
  : cmd.membersList :=
  if (cmd.currentGuildID ml =? guildID)%N && cmd.visible ml
  then cmd.rebuildList slices strs discordState fmt ml
  else ml.

Definition onGuildMemberAdd (guildID : discord.GuildID) (ml : cmd.membersList)
  : cmd.membersList :=
  if (cmd.currentGuildID ml =? guildID)%N && cmd.visible ml
  then cmd.rebuildList slices strs discordState fmt ml
  else ml.

Definition onGuildMemberUpdate (guildID : discord.GuildID) (ml : cmd.membersList)
  : cmd.membersList :=
  if (cmd.currentGuildID ml =? guildID)%N && cmd.visible ml
  then cmd.rebuildList slices strs discordState fmt ml
  else ml.

Definition onGuildMemberRemove (guildID : discord.GuildID) (ml : cmd.membersList)
  : cmd.membersList :=
  if (cmd.currentGuildID ml =? guildID)%N && cmd.visible ml
  then cmd.rebuildList slices strs discordState fmt ml
  else ml.

Definition onPresenceUpdate (guildID : discord.GuildID) (userID : discord.UserID)
    (ml : cmd.membersList) : cmd.membersList :=
  if (cmd.currentGuildID ml =? guildID)%N && cmd.visible ml
  then updateMemberPresence userID ml
  else ml.

(** [chatView.toggleMembersList]; [hasFocus] is what [membersList.HasFocus]
    returns. *)
Definition toggleMembersList (hasFocus : bool) (ml : cmd.membersList)
  : cmd.membersList * list Request :=
  let ml1 := setVisible (negb (cmd.visible ml)) ml in
  if cmd.visible ml1 then
    if discord.IsValid (cmd.currentGuildID ml1) then
      let '(ml2, requests) := updateForGuild (cmd.currentGuildID ml1) ml1 in
      (ml2, AddMembersColumn :: requests)
    else (ml1, [AddMembersColumn])
  else (ml1, RemoveMembersColumn :: if hasFocus then [SetFocusMessagesList] else []).

(** [guildsTree.onSelected] on a node without children, [case
    discord.GuildID], up to the update of the members list. *)
Definition onSelectedGuild (ref : discord.GuildID) (ml : cmd.membersList)
  : cmd.membersList * list Request :=
  let '(ml1, requests) :=
    if cmd.visible ml then updateForGuild ref ml
    else (setCurrentGuildID ref ml, []) in
  (ml1, Subscribe ref :: RequestGuildMembers ref :: requests).

(** [guildsTree.onSelected] on a node without children, [case
    discord.ChannelID], the part on the members list, for a channel the cache
    knows. *)
Definition onSelectedChannel (hasFocus : bool) (channel : discord.Channel)
    (ml : cmd.membersList) : cmd.membersList * list Request :=
  if cmd.isPrivate (discord.Type_ channel) then
    if cmd.visible ml then toggleMembersList hasFocus ml else (ml, [])
  else if discord.IsValid (discord.ChannelGuildID channel) then
    if cmd.visible ml then updateForGuild (discord.ChannelGuildID channel) ml
    else (setCurrentGuildID (discord.ChannelGuildID channel) ml, [])
  else (ml, []).

End Panel.

(** What happens to the panel, each with the cache as it is then. *)
Inductive Step : Type :=
  | Toggled (hasFocus : bool)
  | GuildSelected (ref : discord.GuildID)
  | ChannelSelected (hasFocus : bool) (channel : discord.Channel)
  | MembersChunk (guildID : discord.GuildID)
  | MemberAdd (guildID : discord.GuildID)
  | MemberUpdate (guildID : discord.GuildID)
  | MemberRemove (guildID : discord.GuildID)
  | PresenceUpdate (guildID : discord.GuildID) (userID : discord.UserID).

Definition step (slices : Go.Slices) (strs : Go.Strings) (fmt : ui.Format) (discordState : ningen.State)
    (s : Step) (ml : cmd.membersList) : cmd.membersList * list Request :=
  match s with
  | Toggled hasFocus => toggleMembersList slices strs discordState fmt hasFocus ml
  | GuildSelected ref => onSelectedGuild slices strs discordState fmt ref ml
  | ChannelSelected hasFocus channel => onSelectedChannel slices strs discordState fmt hasFocus channel ml
  | MembersChunk guildID => (onGuildMembersChunk slices strs discordState fmt guildID ml, [])
  | MemberAdd guildID => (onGuildMemberAdd slices strs discordState fmt guildID ml, [])
  | MemberUpdate guildID => (onGuildMemberUpdate slices strs discordState fmt guildID ml, [])
  | MemberRemove guildID => (onGuildMemberRemove slices strs discordState fmt guildID ml, [])
  | PresenceUpdate guildID userID =>
      (onPresenceUpdate slices strs discordState fmt guildID userID ml, [])
  end.

Fixpoint run (slices : Go.Slices) (strs : Go.Strings) (fmt : ui.Format) (steps : list (ningen.State * Step))
    (ml : cmd.membersList) : cmd.membersList * list Request :=
  match steps with
  | [] => (ml, [])
  | (discordState, s) :: rest =>
      let '(ml1, requests) := step slices strs fmt discordState s ml in
      let '(ml2, requests') := run slices strs fmt rest ml1 in
      (ml2, requests ++ requests')
  end.

End panel.

(** ** Rebuilding twice *)

Lemma rebuildList_fields (slices : Go.Slices) (strs : Go.Strings) (discordState : ningen.State) (fmt : ui.Format)
    (ml : cmd.membersList) :
  cmd.currentGuildID (cmd.rebuildList slices strs discordState fmt ml) = cmd.currentGuildID ml ∧
  cmd.visible (cmd.rebuildList slices strs discordState fmt ml) = cmd.visible ml.
Proof.
  unfold cmd.rebuildList.
  destruct (negb (discord.IsValid _)); [split; reflexivity|].
  destruct (negb (cmd.visible ml)); [split; reflexivity|].
  destruct (ningen.Members discordState _); [|split; reflexivity].
  destruct (fold_left _ _ _) as [[its cache] index]. split; reflexivity.
Qed.

Lemma rebuildList_idempotent (slices : Go.Slices) (strs : Go.Strings) (discordState : ningen.State)
    (fmt : ui.Format) (ml : cmd.membersList) :
  cmd.rebuildList slices strs discordState fmt (cmd.rebuildList slices strs discordState fmt ml) =
  cmd.rebuildList slices strs discordState fmt ml.
Proof.
  destruct (discord.IsValid (cmd.currentGuildID ml)) eqn:Hvalid.
  - destruct (cmd.visible ml) eqn:Hvisible.
    + destruct (ningen.Members discordState (cmd.currentGuildID ml)) as [members|] eqn:Hmembers.
      * rewrite (rebuildList_rows slices strs discordState fmt ml members Hvalid Hvisible Hmembers).
        rewrite (rebuildList_rows slices strs discordState fmt _ members); [reflexivity|..];
          cbn [cmd.currentGuildID cmd.visible]; assumption.
      * assert (Hfail : cmd.rebuildList slices strs discordState fmt ml =
                        cmd.AddItem "Failed to load members" (cmd.Clear ml))
          by (unfold cmd.rebuildList; now rewrite Hvalid, Hvisible, Hmembers).
        rewrite Hfail. unfold cmd.rebuildList. cbn [cmd.AddItem cmd.Clear cmd.currentGuildID
          cmd.visible]. rewrite Hvalid, Hvisible, Hmembers. reflexivity.
    + assert (Hhidden : cmd.rebuildList slices strs discordState fmt ml = ml)
        by (unfold cmd.rebuildList; now rewrite Hvalid, Hvisible).
      now rewrite !Hhidden.
  - assert (Hclear : cmd.rebuildList slices strs discordState fmt ml = cmd.Clear ml)
      by (unfold cmd.rebuildList; now rewrite Hvalid).
    rewrite Hclear. unfold cmd.rebuildList. cbn [cmd.Clear cmd.currentGuildID].
    rewrite Hvalid. reflexivity.
Qed.

(** The member and presence events, and the guild of each. *)
Definition memberEventGuild (s : panel.Step) : option discord.GuildID :=
  match s with
  | panel.MembersChunk guildID | panel.MemberAdd guildID | panel.MemberUpdate guildID
  | panel.MemberRemove guildID | panel.PresenceUpdate guildID _ => Some guildID
  | _ => None
  end.

Definition concerns (ml : cmd.membersList) (s : panel.Step) : bool :=
  match memberEventGuild s with
  | Some guildID => (cmd.currentGuildID ml =? guildID)%N
  | None => false
  end.

Lemma member_event_step (slices : Go.Slices) (strs : Go.Strings) (fmt : ui.Format) (discordState : ningen.State)
    (s : panel.Step) (ml : cmd.membersList) :
  is_Some (memberEventGuild s) →
  panel.step slices strs fmt discordState s ml =
  (if concerns ml s && cmd.visible ml then cmd.rebuildList slices strs discordState fmt ml else ml,
   []).
Proof.
  intros [guildID Hs]. unfold concerns. rewrite Hs.
  destruct s; try discriminate; injection Hs as ->; cbn [panel.step];
    unfold panel.onGuildMembersChunk, panel.onGuildMemberAdd, panel.onGuildMemberUpdate,
      panel.onGuildMemberRemove, panel.onPresenceUpdate, panel.updateMemberPresence;
    try reflexivity.
  destruct (cmd.currentGuildID ml =? guildID)%N; [|reflexivity].
  destruct (cmd.visible ml); reflexivity.
Qed.

(** X15.  Member and presence events coalesce.  With the cache in one state,
    any sequence of member-chunk, member-add, member-update, member-remove
    and presence events leaves the members list as one rebuild leaves it
    when the list is visible and some event is for its guild, and untouched
    otherwise; no request is made.  In particular rebuilding twice is
    rebuilding once. *)
Theorem member_events_coalesce
    (slices : Go.Slices) (strs : Go.Strings) (fmt : ui.Format) (discordState : ningen.State)
    (events : list panel.Step) (ml : cmd.membersList) :
  Forall (λ s, is_Some (memberEventGuild s)) events →
  panel.run slices strs fmt (List.map (λ s, (discordState, s)) events) ml =
  (if cmd.visible ml && existsb (concerns ml) events
   then cmd.rebuildList slices strs discordState fmt ml
   else ml, []).
Proof.
  intros Hevents. revert ml.
  induction events as [|s events IH]; intros ml.
  - cbn. now rewrite andb_false_r.
  - apply Forall_cons in Hevents as [Hs Hevents]. specialize (IH Hevents).
    cbn [List.map panel.run existsb].
    rewrite (member_event_step slices strs fmt discordState s ml Hs).
    destruct (rebuildList_fields slices strs discordState fmt ml) as [Hguild Hvis].
    assert (Hsame : ∀ l, existsb (concerns (cmd.rebuildList slices strs discordState fmt ml)) l =
                         existsb (concerns ml) l).
    { intros l. induction l as [|x l IHl]; [reflexivity|]. cbn [existsb]. rewrite IHl.
      unfold concerns. now rewrite Hguild. }
    destruct (concerns ml s) eqn:Hc; destruct (cmd.visible ml) eqn:Hv; cbn [andb orb];
      rewrite IH; rewrite ?Hvis, ?Hsame, ?Hv; cbn [andb]; try reflexivity.
    destruct (existsb (concerns ml) events); [|reflexivity].
    now rewrite rebuildList_idempotent.
Qed.

Lemma member_events_coalesce_witness :
  panel.run Go.insertionSlices Go.asciiStrings plainFormat
    [(rosterState, panel.MembersChunk 1); (rosterState, panel.PresenceUpdate 2 5);
     (rosterState, panel.MemberAdd 1)] (shownList 1 []) =
  (cmd.rebuildList Go.insertionSlices Go.asciiStrings rosterState plainFormat (shownList 1 []), []).
Proof.
  apply (member_events_coalesce Go.insertionSlices Go.asciiStrings plainFormat rosterState
           [panel.MembersChunk 1; panel.PresenceUpdate 2 5; panel.MemberAdd 1] (shownList 1 [])).
  repeat constructor; now eexists.
Defined.

(** ** The hidden panel *)

(** The guild a step tells the list to show, if any. *)
Definition shownGuild (s : panel.Step) : option discord.GuildID :=
  match s with
  | panel.GuildSelected ref => Some ref
  | panel.ChannelSelected _ channel =>
      if negb (cmd.isPrivate (discord.Type_ channel)) &&
         discord.IsValid (discord.ChannelGuildID channel)
      then Some (discord.ChannelGuildID channel)
      else None
  | _ => None
  end.

Definition recordedGuild (steps : list (ningen.State * panel.Step)) (guildID : discord.GuildID)
  : discord.GuildID :=
  fold_left (λ g s, default g (shownGuild (snd s))) steps guildID.

Definition selectionRequests (s : panel.Step) : list panel.Request :=
  match s with
  | panel.GuildSelected ref => [panel.Subscribe ref; panel.RequestGuildMembers ref]
  | _ => []
  end.

Definition isToggle (s : panel.Step) : bool :=
  match s with panel.Toggled _ => true | _ => false end.

Lemma hidden_step (slices : Go.Slices) (strs : Go.Strings) (fmt : ui.Format) (discordState : ningen.State)
    (s : panel.Step) (ml : cmd.membersList) :
  cmd.visible ml = false → isToggle s = false →
  panel.step slices strs fmt discordState s ml =
  (panel.setCurrentGuildID (default (cmd.currentGuildID ml) (shownGuild s)) ml,
   selectionRequests s).
Proof.
  intros Hhidden Hs.
  assert (Hml : panel.setCurrentGuildID (cmd.currentGuildID ml) ml = ml) by now destruct ml.
  destruct s as [hf|ref|hf channel|g|g|g|g|g u]; try discriminate;
    cbn [panel.step shownGuild selectionRequests default];
    unfold panel.onSelectedGuild, panel.onSelectedChannel, panel.onGuildMembersChunk,
      panel.onGuildMemberAdd, panel.onGuildMemberUpdate, panel.onGuildMemberRemove,
      panel.onPresenceUpdate;
    rewrite Hhidden, ?andb_false_r, ?Hml; try reflexivity.
  destruct (cmd.isPrivate (discord.Type_ channel)); cbn [negb andb default];
    [now rewrite Hml|].
  destruct (discord.IsValid (discord.ChannelGuildID channel)); cbn [default];
    [reflexivity|now rewrite Hml].
Qed.

(** X16.  The hidden panel does no work.  While the members list is hidden,
    selections of guilds and channels and member and presence events, in any
    number and with any cache, leave its rows and its index cache as they
    are: the list only records the guild last selected, and the only
    requests are the subscription and the member request of each guild
    selection. *)
Theorem hidden_panel_only_records_guild
    (slices : Go.Slices) (strs : Go.Strings) (fmt : ui.Format) (steps : list (ningen.State * panel.Step))
    (ml : cmd.membersList) :
  cmd.visible ml = false →
  Forall (λ s, isToggle (snd s) = false) steps →
  panel.run slices strs fmt steps ml =
  (panel.setCurrentGuildID (recordedGuild steps (cmd.currentGuildID ml)) ml,
   List.flat_map (λ s, selectionRequests (snd s)) steps).
Proof.
  intros Hhidden Hsteps. revert ml Hhidden.
  induction steps as [|[discordState s] steps IH]; intros ml Hhidden.
  - cbn. now destruct ml.
  - apply Forall_cons in Hsteps as [Hs Hsteps]. cbn [snd] in Hs.
    cbn [panel.run List.flat_map recordedGuild fold_left snd].
    rewrite (hidden_step slices strs fmt discordState s ml Hhidden Hs).
    rewrite (IH Hsteps) by exact Hhidden. reflexivity.
Qed.

Lemma hidden_panel_only_records_guild_witness :
  panel.run Go.insertionSlices Go.asciiStrings plainFormat
    [(rosterState, panel.GuildSelected 1); (rosterState, panel.MembersChunk 1);
     (rosterState, panel.PresenceUpdate 1 5)]
    (panel.newMembersList) =
  (panel.setCurrentGuildID 1 panel.newMembersList,
   [panel.Subscribe 1; panel.RequestGuildMembers 1]).
Proof.
  apply (hidden_panel_only_records_guild Go.insertionSlices Go.asciiStrings plainFormat
           [(rosterState, panel.GuildSelected 1); (rosterState, panel.MembersChunk 1);
            (rosterState, panel.PresenceUpdate 1 5)] panel.newMembersList eq_refl).
  repeat constructor.
Defined.

(** X17.  The deferred rebuild.  Showing a hidden members list whose recorded
    guild is valid builds the list of that guild: list and member request are
    those of selecting the guild with the panel open, so a guild selected
    while the panel was hidden is shown as if it had been selected with the
    panel open.  The member request is made exactly when the cache has no
    member of the guild. *)
Theorem toggleMembersList_shows_recorded_guild
    (slices : Go.Slices) (strs : Go.Strings) (discordState : ningen.State) (fmt : ui.Format)
    (hasFocus : bool) (guildID : discord.GuildID) (ml : cmd.membersList) :
  discord.IsValid guildID = true →
  let hidden := panel.setCurrentGuildID guildID (panel.setVisible false ml) in
  let shown := panel.setVisible true ml in
  let missing :=
    match ningen.Members discordState guildID with
    | Some (_ :: _) => []
    | _ => [panel.RequestGuildMembers guildID]
    end in
  panel.toggleMembersList slices strs discordState fmt hasFocus hidden =
    (cmd.rebuildList slices strs discordState fmt (panel.setCurrentGuildID guildID shown),
     panel.AddMembersColumn :: missing) ∧
  panel.onSelectedGuild slices strs discordState fmt guildID shown =
    (cmd.rebuildList slices strs discordState fmt (panel.setCurrentGuildID guildID shown),
     panel.Subscribe guildID :: panel.RequestGuildMembers guildID :: missing).
Proof.
  intros Hvalid hidden shown missing.
  assert (Hmissing :
    match ningen.Members discordState guildID with
    | None => [panel.RequestGuildMembers guildID]
    | Some members =>
        if (length members =? 0)%nat then [panel.RequestGuildMembers guildID] else []
    end = missing).
  { unfold missing. destruct (ningen.Members discordState guildID) as [[|m members]|];
      reflexivity. }
  split.
  - unfold panel.toggleMembersList, panel.updateForGuild. cbn.
    rewrite Hvalid, Hmissing. reflexivity.
  - unfold panel.onSelectedGuild, panel.updateForGuild. cbn.
    rewrite Hmissing. reflexivity.
Qed.

Lemma toggleMembersList_shows_recorded_guild_witness :
  panel.toggleMembersList Go.insertionSlices Go.asciiStrings rosterState plainFormat false
    (panel.setCurrentGuildID 1 (panel.setVisible false panel.newMembersList)) =
  (cmd.rebuildList Go.insertionSlices Go.asciiStrings rosterState plainFormat (shownList 1 []),
   [panel.AddMembersColumn]).
Proof.
  exact (proj1 (toggleMembersList_shows_recorded_guild Go.insertionSlices Go.asciiStrings rosterState
                  plainFormat false 1 panel.newMembersList eq_refl)).
Defined.

(** ** The index cache in every reachable state *)

(** Every recorded row comes after the first row, and no two users share a
    row. *)
Definition cacheSound (ml : cmd.membersList) : Prop :=
  (∀ userID i, cmd.memberItems ml !! userID = Some i → (1 ≤ i)%Z) ∧
  (∀ userID userID' i,
     cmd.memberItems ml !! userID = Some i → cmd.memberItems ml !! userID' = Some i →
     userID = userID').

Lemma rebuildList_cacheSound (slices : Go.Slices) (strs : Go.Strings) (discordState : ningen.State)
    (fmt : ui.Format) (ml : cmd.membersList) :
  cacheSound ml → cacheSound (cmd.rebuildList slices strs discordState fmt ml).
Proof.
  intros Hsound.
  destruct (discord.IsValid (cmd.currentGuildID ml)) eqn:Hvalid.
  - destruct (cmd.visible ml) eqn:Hvisible.
    + destruct (ningen.Members discordState (cmd.currentGuildID ml)) as [members|] eqn:Hmembers.
      * split.
        -- intros userID i Hrow.
           now destruct (rebuildList_cache_row slices strs discordState fmt ml members userID i
                           Hvalid Hvisible Hmembers Hrow) as [[Hge _] _].
        -- intros userID userID' i Hrow Hrow'.
           destruct (rebuildList_cache_row slices strs discordState fmt ml members userID i
                       Hvalid Hvisible Hmembers Hrow) as [_ (item & _ & _ & Hnth)].
           destruct (rebuildList_cache_row slices strs discordState fmt ml members userID' i
                       Hvalid Hvisible Hmembers Hrow') as [_ (item' & _ & _ & Hnth')].
           congruence.
      * unfold cmd.rebuildList. rewrite Hvalid, Hvisible, Hmembers. exact Hsound.
    + unfold cmd.rebuildList. rewrite Hvalid, Hvisible. exact Hsound.
  - unfold cmd.rebuildList. rewrite Hvalid. exact Hsound.
Qed.

Lemma updateForGuild_cacheSound slices strs discordState fmt guildID ml :
  cacheSound ml → cacheSound (fst (panel.updateForGuild slices strs discordState fmt guildID ml)).
Proof.
  intros Hsound. unfold panel.updateForGuild.
  destruct (negb (cmd.visible ml)); [exact Hsound|]. cbn [fst].
  now apply rebuildList_cacheSound.
Qed.

Lemma toggleMembersList_cacheSound slices strs discordState fmt hasFocus ml :
  cacheSound ml → cacheSound (fst (panel.toggleMembersList slices strs discordState fmt hasFocus ml)).
Proof.
  intros Hsound. unfold panel.toggleMembersList.
  set (ml1 := panel.setVisible _ ml).
  assert (Hsound1 : cacheSound ml1) by exact Hsound.
  destruct (cmd.visible ml1); [|exact Hsound1].
  destruct (discord.IsValid _); [|exact Hsound1].
  pose proof (updateForGuild_cacheSound slices strs discordState fmt (cmd.currentGuildID ml1) ml1
                Hsound1) as Hupd.
  now destruct (panel.updateForGuild _ _ _ _ _ ml1).
Qed.

Lemma step_cacheSound slices strs fmt discordState s ml :
  cacheSound ml → cacheSound (fst (panel.step slices strs fmt discordState s ml)).
Proof.
  intros Hsound.
  destruct s as [hf|ref|hf channel|g|g|g|g|g u]; cbn [panel.step fst].
  - now apply toggleMembersList_cacheSound.
  - unfold panel.onSelectedGuild.
    pose proof (updateForGuild_cacheSound slices strs discordState fmt ref ml Hsound) as Hupd.
    destruct (cmd.visible ml); [now destruct (panel.updateForGuild _ _ _ _ _ ml)|exact Hsound].
  - unfold panel.onSelectedChannel.
    destruct (cmd.isPrivate _).
    + destruct (cmd.visible ml); [now apply toggleMembersList_cacheSound|exact Hsound].
    + destruct (discord.IsValid _); [|exact Hsound].
      destruct (cmd.visible ml); [now apply updateForGuild_cacheSound|exact Hsound].
  - unfold panel.onGuildMembersChunk.
    destruct (_ && _); [now apply rebuildList_cacheSound|exact Hsound].
  - unfold panel.onGuildMemberAdd.
    destruct (_ && _); [now apply rebuildList_cacheSound|exact Hsound].
  - unfold panel.onGuildMemberUpdate.
    destruct (_ && _); [now apply rebuildList_cacheSound|exact Hsound].
  - unfold panel.onGuildMemberRemove.
    destruct (_ && _); [now apply rebuildList_cacheSound|exact Hsound].
  - unfold panel.onPresenceUpdate, panel.updateMemberPresence.
    destruct (_ && _); [|exact Hsound].
    destruct (negb _); [exact Hsound|now apply rebuildList_cacheSound].
Qed.

Lemma run_cacheSound slices strs fmt steps :
  ∀ ml, cacheSound ml → cacheSound (fst (panel.run slices strs fmt steps ml)).
Proof.
  induction steps as [|[discordState s] steps IH]; intros ml Hsound; [exact Hsound|].
  cbn [panel.run].
  pose proof (step_cacheSound slices strs fmt discordState s ml Hsound) as Hstep.
  destruct (panel.step slices strs fmt discordState s ml) as [ml1 requests].
  specialize (IH ml1 Hstep).
  now destruct (panel.run slices strs fmt steps ml1).
Qed.

(** X18.  In every state the members list reaches from its creation, by any
    sequence of toggles, selections and member and presence events with any
    cache: no two users of the index cache share a row, so the user
    [onSelected] picks by ranging over the cache does not depend on the order
    of the range; and the first row, a header or the error row, never starts
    a direct message. *)
Theorem reachable_list_rows_unique
    (slices : Go.Slices) (strs : Go.Strings) (fmt : ui.Format) (steps : list (ningen.State * panel.Step)) :
  let ml := fst (panel.run slices strs fmt steps panel.newMembersList) in
  (∀ index,
     length (List.filter (λ kv : N * Z, (snd kv =? index)%Z)
               (map_to_list (cmd.memberItems ml))) ≤ 1)%nat ∧
  cmd.onSelected ml 0 = [].
Proof.
  intros ml.
  assert (Hsound : cacheSound ml).
  { apply run_cacheSound. split; intros ? ?; cbn; intros; now rewrite lookup_empty in *. }
  destruct Hsound as [Hfirst Hunique].
  assert (Hrow : ∀ index kv,
            In kv (List.filter (λ kv : N * Z, (snd kv =? index)%Z)
                     (map_to_list (cmd.memberItems ml))) →
            snd kv = index ∧ cmd.memberItems ml !! fst kv = Some index).
  { intros index [k v] Hkv. apply List.filter_In in Hkv as [Hkv Hv].
    apply Z.eqb_eq in Hv. cbn in Hv. subst v. split; [reflexivity|].
    now apply list_elem_of_In, elem_of_map_to_list in Hkv. }
  split.
  - intros index.
    assert (Hnodup : List.NoDup
              (List.filter (λ kv : N * Z, (snd kv =? index)%Z)
                 (map_to_list (cmd.memberItems ml))))
      by (apply List.NoDup_filter, NoDup_ListNoDup, NoDup_map_to_list).
    specialize (Hrow index).
    destruct (List.filter _ _) as [|[k v] [|[k' v'] l]]; cbn [length]; [lia|lia|].
    exfalso. apply NoDup_cons_iff in Hnodup as [Hnot _]. apply Hnot. left.
    destruct (Hrow (k, v) (or_introl eq_refl)) as [Hv Hk].
    destruct (Hrow (k', v') (or_intror (or_introl eq_refl))) as [Hv' Hk'].
    cbn [fst snd] in Hv, Hk, Hv', Hk'. subst v v'.
    now rewrite (Hunique _ _ _ Hk Hk').
  - unfold cmd.onSelected.
    destruct (_ || _); [reflexivity|]. destruct (Go.Contains _ _); [reflexivity|].
    specialize (Hrow 0%Z).
    destruct (List.filter _ _) as [|[k v] l]; [reflexivity|].
    destruct (Hrow (k, v) (or_introl eq_refl)) as [_ Hk]. cbn [fst] in Hk.
    apply Hfirst in Hk. lia.
Qed.
